(** * The moving obstacle model of the interop judging server

    A shallow embedding of [server/auvsi_suas/models/moving_obstacle.py]
    (class [MovingObstacle]) and the properties its specification states
    about it.

    Numbers.  Python floats and numpy float64 cells are IEEE 754 binary64
    numbers.  A [pyfloat] is the number that a float stands for: a finite
    value is a rational in canonical form ([Qc], so that equal values are
    equal terms), and there are the two infinities and nan; the two zeros
    are one value, as they are for [==], [<=] and the arithmetic of this
    program.  An operation computes its exact result and rounds it with
    [rnd], the rounding of the arithmetic (class [Rounding]): [binary64]
    is the rounding of Python and numpy, to the nearest float, ties to
    even, overflow to an infinity; [exact_arithmetic] does not round.  The
    theorems hold for every rounding, some of them under the laws of
    rounding that they name.

    Effects.  Exceptions are values of [result]; the two attributes that
    [get_position] attaches to the instance and the readings of
    [timezone.now()] are threaded through the state monad [M]. *)

From Stdlib Require Import QArith Qcanon Qround ZArith Lia Bool.
From stdpp Require Import base numbers option list strings pretty gmap.

Local Open Scope Z_scope.

(** ** Exceptions *)

Inductive exn := ZeroDivisionError | IndexError | ValueError | TypeError.

Inductive result (A : Type) :=
| Ok (a : A)
| Raise (e : exn).
Arguments Ok {A} a.
Arguments Raise {A} e.

Global Instance result_ret : MRet result := fun A a => Ok a.
Global Instance result_bind : MBind result := fun A B f m =>
  match m with
  | Ok a => f a
  | Raise e => Raise e
  end.

(** [for x in xs: body], the loop state passed along, an exception ending
    the loop. *)
Fixpoint for_in {S A : Type} (xs : list A) (body : A -> S -> result S) (s : S)
  : result S :=
  match xs with
  | [] => Ok s
  | x :: rest => s' ← body x s; for_in rest body s'
  end.

(** [range(a, b)]. *)
Definition range (a b : Z) : list Z := seqZ a (b - a).

(** [l[i]] on a list or a one-dimensional array: a negative index counts
    from the end, an index out of range raises. *)
Definition getitem {A : Type} (l : list A) (i : Z) : result A :=
  let n := Z.of_nat (length l) in
  let j := if i <? 0 then i + n else i in
  if j <? 0 then Raise IndexError
  else match l !! Z.to_nat j with
       | Some x => Ok x
       | None => Raise IndexError
       end.

(** ** Floats *)

Inductive pyfloat :=
| Fin (q : Qc)
| Inf (negative : bool)
| NaN.

Global Instance pyfloat_eq_dec : EqDecision pyfloat.
Proof. solve_decision. Defined.

Definition fzero : pyfloat := Fin 0%Qc.

(** [a <= b]: false as soon as one side is nan. *)
Definition fle (a b : pyfloat) : bool :=
  match a, b with
  | Fin x, Fin y => bool_decide (x ≤ y)%Qc
  | Fin _, Inf negative => negb negative
  | Inf negative, Fin _ => negative
  | Inf negative, Inf negative' => negative || negb negative'
  | _, _ => false
  end.

(** [a < b]. *)
Definition flt (a b : pyfloat) : bool :=
  match a, b with
  | Fin x, Fin y => bool_decide (x < y)%Qc
  | Fin _, Inf negative => negb negative
  | Inf negative, Fin _ => negative
  | Inf negative, Inf negative' => negative && negb negative'
  | _, _ => false
  end.

(** [a != b]: true as soon as one side is nan. *)
Definition fne (a b : pyfloat) : bool :=
  match a, b with
  | Fin x, Fin y => negb (bool_decide (x = y))
  | Inf negative, Inf negative' => negb (Bool.eqb negative negative')
  | _, _ => true
  end.

(** The rounding of the exact result of an operation to a float. *)
Class Rounding := rnd : Qc -> pyfloat.

(** The arithmetic that does not round. *)
Definition exact_arithmetic : Rounding := Fin.

(** The integer nearest to [n / d], for [d > 0]; of two nearest, the even
    one. *)
Definition round_half_even (n d : Z) : Z :=
  let q := n / d in
  match 2 * (n mod d) ?= d with
  | Lt => q
  | Gt => q + 1
  | Eq => if Z.even q then q else q + 1
  end.

(** The exponent of the leading bit of [n / d], for positive [n] and [d];
    -1127 for the numbers below 2^-1127, which are below half of the
    smallest float. *)
Definition exponent (n d : Z) : Z := Z.log2 (n * 2 ^ 1127 / d) - 1127.

(** The exponent of the last of the 53 bits that a float keeps of
    [n / d]; no bit is kept below 2^-1074. *)
Definition quantum (n d : Z) : Z := Z.max (exponent n d - 52) (-1074).

(** [n / d] in units of the last bit kept, rounded. *)
Definition significand (n d : Z) : Z :=
  round_half_even (n * 2 ^ 1074) (d * 2 ^ (quantum n d + 1074)).

(** The binary64 float nearest to [n / d]; an infinity from 2^1024 on. *)
Definition round64_pos (n d : positive) : pyfloat :=
  let q := quantum (Zpos n) (Zpos d) in
  let m := significand (Zpos n) (Zpos d) in
  if q + Z.log2 m >=? 1024 then Inf false
  else Fin (Q2Qc (m * 2 ^ (q + 1074) # 2 ^ 1074)).

(** [- a]. *)
Definition fneg (a : pyfloat) : pyfloat :=
  match a with
  | Fin q => Fin (- q)%Qc
  | Inf negative => Inf (negb negative)
  | NaN => NaN
  end.

(** The arithmetic of Python floats and of numpy's float64. *)
Definition binary64 : Rounding := fun x =>
  match Qnum x with
  | Z0 => fzero
  | Zpos n => round64_pos n (Qden x)
  | Zneg n => fneg (round64_pos n (Qden x))
  end.

(** [a + b]. *)
Definition fadd `{Rounding} (a b : pyfloat) : pyfloat :=
  match a, b with
  | Fin x, Fin y => rnd (x + y)%Qc
  | Fin _, Inf negative => Inf negative
  | Inf negative, Fin _ => Inf negative
  | Inf negative, Inf negative' =>
      if Bool.eqb negative negative' then Inf negative else NaN
  | _, _ => NaN
  end.

(** [a / b] on Python floats: a zero divisor raises. *)
Definition truediv `{Rounding} (a b : pyfloat) : result pyfloat :=
  match b with
  | Fin y =>
      if bool_decide (y = 0%Qc) then Raise ZeroDivisionError
      else match a with
           | Fin x => Ok (rnd (x / y)%Qc)
           | Inf negative => Ok (Inf (xorb negative (bool_decide (y < 0)%Qc)))
           | NaN => Ok NaN
           end
  | Inf _ =>
      match a with
      | Fin _ => Ok fzero
      | _ => Ok NaN
      end
  | NaN => Ok NaN
  end.

(** The integer part of [q], rounded towards zero. *)
Definition Qc_trunc (q : Qc) : Z :=
  if bool_decide (0 ≤ q)%Qc then Qfloor q else Qceiling q.

(** [np.mod(a, b)]: the remainder of C's [fmod], which is exact and has
    the sign of [a]; when it is not zero and its sign is not the sign of
    [b], [b] is added to it, a float addition.  nan for a zero divisor. *)
Definition np_mod `{Rounding} (a b : pyfloat) : pyfloat :=
  match a, b with
  | Fin x, Fin y =>
      if bool_decide (y = 0%Qc) then NaN
      else
        let m := (x - y * Qc_of_Z (Qc_trunc (x / y)))%Qc in
        if negb (bool_decide (m = 0%Qc)) &&
           negb (Bool.eqb (bool_decide (y < 0)%Qc) (bool_decide (m < 0)%Qc))
        then rnd (m + y)%Qc
        else Fin m
  | Fin x, Inf negative =>
      if negb (bool_decide (x = 0%Qc)) &&
         negb (Bool.eqb negative (bool_decide (x < 0)%Qc))
      then Inf negative
      else Fin x
  | _, _ => NaN
  end.

(** [np.zeros(n)]. *)
Definition np_zeros (n : Z) : list pyfloat := replicate (Z.to_nat n) fzero.

(** [np.zeros((n, m))], a list of rows. *)
Definition np_zeros2 (n m : Z) : list (list pyfloat) :=
  replicate (Z.to_nat n) (np_zeros m).

(** What a float64 cell holds after [arr[i] = v]: [None] becomes nan. *)
Definition to_float64 (v : option pyfloat) : pyfloat :=
  match v with
  | Some x => x
  | None => NaN
  end.

(** [arr[i] = v] for [0 <= i]; out of range raises. *)
Definition setitem {A : Type} (arr : list A) (i : Z) (v : A) : result (list A) :=
  if (0 <=? i) && (i <? Z.of_nat (length arr))
  then Ok (<[Z.to_nat i := v]> arr)
  else Raise IndexError.

(** [arr[i, j] = v]. *)
Definition setitem2 (arr : list (list pyfloat)) (i j : Z) (v : pyfloat)
  : result (list (list pyfloat)) :=
  row ← getitem arr i;
  row' ← setitem row j v;
  setitem arr i row'.

(** [arr[:, j]]. *)
Definition column (arr : list (list pyfloat)) (j : Z) : result (list pyfloat) :=
  mapM (fun row => getitem row j) arr.

(** ** Datetimes *)

(** An aware [datetime]: the civil fields and the offset of its time zone
    from UTC in seconds. *)
Record datetime := mk_datetime {
  year : Z; month : Z; day : Z;
  hour : Z; minute : Z; second : Z; microsecond : Z;
  utcoffset : Z
}.

Definition is_leap (y : Z) : bool :=
  (y mod 4 =? 0) && (negb (y mod 100 =? 0) || (y mod 400 =? 0)).

Definition days_before_year (y : Z) : Z :=
  let y' := y - 1 in y' * 365 + y' / 4 - y' / 100 + y' / 400.

Definition days_in_month (y m : Z) : Z :=
  if m =? 2 then (if is_leap y then 29 else 28)
  else if (m =? 4) || (m =? 6) || (m =? 9) || (m =? 11) then 30
  else 31.

Definition days_before_month (y m : Z) : Z :=
  foldr Z.add 0 (days_in_month y <$> range 1 m).

(** [toordinal()]: 1 for the first of January of year 1. *)
Definition toordinal (d : datetime) : Z :=
  days_before_year (year d) + days_before_month (year d) (month d) + day d.

(** Microseconds of the civil fields since the start of ordinal 0. *)
Definition civil_micros (d : datetime) : Z :=
  ((toordinal d * 86400 + hour d * 3600 + minute d * 60 + second d) * 1000000
   + microsecond d).

(** [a - b] of two aware datetimes, a [timedelta] in microseconds: the
    difference of the civil fields, corrected by the two offsets. *)
Definition datetime_sub (a b : datetime) : Z :=
  civil_micros a - civil_micros b + (utcoffset b - utcoffset a) * 1000000.

(** [timedelta.total_seconds()]: the microseconds divided by 10^6, a true
    division of integers, which rounds the exact quotient. *)
Definition total_seconds `{Rounding} (td : Z) : pyfloat :=
  rnd (Qc_of_Z td / Qc_of_Z 1000000)%Qc.

(** [now.replace(year=1970, month=1, day=1, hour=0, minute=0, second=0,
    microsecond=0)]: every civil field is replaced, the time zone is kept. *)
Definition replace_epoch (now : datetime) : datetime :=
  {| year := 1970; month := 1; day := 1;
     hour := 0; minute := 0; second := 0; microsecond := 0;
     utcoffset := utcoffset now |}.

(** The civil fields of a reading of the clock, as a datetime in UTC. *)
Definition in_utc (d : datetime) : datetime :=
  {| year := year d; month := month d; day := day d;
     hour := hour d; minute := minute d; second := second d;
     microsecond := microsecond d; utcoffset := 0 |}.

(** [a < b] and [a >= b] on aware datetimes: the two instants are
    compared. *)
Definition datetime_lt (a b : datetime) : bool := datetime_sub a b <? 0.
Definition datetime_ge (a b : datetime) : bool := datetime_sub a b >=? 0.

(** A time period of the mission clock, as [kml] reads it. *)
Record TimePeriod := mk_period {
  start : datetime;
  end_ : datetime
}.

(** ** Positions, waypoints and telemetry *)

Record GpsPosition := mk_gps {
  latitude : pyfloat;
  longitude : pyfloat
}.

Record AerialPosition := mk_aerial {
  gps_position : GpsPosition;
  altitude_msl : pyfloat
}.

Record Waypoint := mk_waypoint {
  position : AerialPosition;
  order : Z
}.

Record UasTelemetry := mk_telemetry {
  timestamp : datetime;
  uas_position : AerialPosition
}.

Global Instance GpsPosition_eq_dec : EqDecision GpsPosition.
Proof. solve_decision. Defined.
Global Instance AerialPosition_eq_dec : EqDecision AerialPosition.
Proof. solve_decision. Defined.

(** [waypoints.order_by('order')]: the waypoints by increasing [order]
    (an insertion sort; the database leaves the order of ties open). *)
Fixpoint insert_by_order (w : Waypoint) (l : list Waypoint) : list Waypoint :=
  match l with
  | [] => [w]
  | x :: rest =>
      if order w <=? order x then w :: l else x :: insert_by_order w rest
  end.

Definition order_by_order (l : list Waypoint) : list Waypoint :=
  foldr insert_by_order [] l.

(** ** The instance

    The model fields of a [MovingObstacle], and the two attributes that
    [get_position] attaches to the instance ([None]: [hasattr] is false).
    [tck] is what scipy's spline fit returns. *)
Record MovingObstacle (tck : Type) := mk_obstacle {
  waypoints : list Waypoint;
  speed_avg : pyfloat;
  sphere_radius : pyfloat;
  preprocessed_waypoints : option (list Waypoint);
  preprocessed_spline_curve : option (pyfloat * list tck)
}.
Arguments mk_obstacle {tck} _ _ _ _ _.
Arguments waypoints {tck} _.
Arguments speed_avg {tck} _.
Arguments sphere_radius {tck} _.
Arguments preprocessed_waypoints {tck} _.
Arguments preprocessed_spline_curve {tck} _.

(** The instance and the number of readings of the clock so far. *)
Record state (tck : Type) := mk_state {
  obj : MovingObstacle tck;
  ticks : nat
}.
Arguments mk_state {tck} _ _.
Arguments obj {tck} _.
Arguments ticks {tck} _.

(** A new instance: no attribute attached yet. *)
Definition fresh {tck : Type} (wps : list Waypoint) (speed radius : pyfloat)
  : MovingObstacle tck :=
  mk_obstacle wps speed radius None None.

(** ** A concrete environment

    Concrete stand-ins for the imported functions, so that the model can be
    run: the fit makes the two checks of scipy's [splrep] on its abscissae
    and records its arguments, the evaluation adds the time to the first
    ordinate, both distances are the discrete metric (0 for equal
    positions, 1 otherwise) and a knot is 1.6878 feet per second. *)
Module Demo.

Definition tck : Type := list pyfloat * list pyfloat * Z * Z.

Fixpoint strictly_increasing (x : list pyfloat) : bool :=
  match x with
  | a :: rest =>
      match rest with
      | b :: _ => flt a b && strictly_increasing rest
      | [] => true
      end
  | [] => true
  end.

(** [splrep(x, y, k=k, per=per)]: a [TypeError] unless there are more
    than [k] points, a [ValueError] unless the abscissae increase
    strictly. *)
Definition splrep (x y : list pyfloat) (k per : Z) : result tck :=
  if Z.of_nat (length x) <=? k then Raise TypeError
  else if strictly_increasing x then Ok (x, y, k, per)
  else Raise ValueError.

Definition Waypoint_distance_to (a b : Waypoint) : pyfloat :=
  if decide (position a = position b) then fzero else Fin 1%Qc.

Definition distance_to (lat1 lon1 alt1 lat2 lon2 alt2 : pyfloat) : pyfloat :=
  if decide ((lat1, lon1, alt1) = (lat2, lon2, alt2)) then fzero
  else Fin 1%Qc.

Definition interpolate (logs : list UasTelemetry) : list UasTelemetry := logs.

Definition clock (n : nat) : datetime :=
  mk_datetime 2016 6 15 12 0 (Z.of_nat n) 0 0.

Section Arithmetic.

Context {arithmetic : Rounding}.

Definition splev (t : pyfloat) (rep : tck) : pyfloat :=
  match rep with
  | (_, y, _, _) => fadd t (default NaN (head y))
  end.

Definition knots_to_feet_per_second (knots : pyfloat) : pyfloat :=
  match knots with
  | Fin q => rnd (q * Q2Qc (16878 # 10000))%Qc
  | other => other
  end.

(** A foot is 0.3048 meters. *)
Definition feet_to_meters (feet : pyfloat) : pyfloat :=
  match feet with
  | Fin q => rnd (q * Q2Qc (3048 # 10000))%Qc
  | other => other
  end.

End Arithmetic.

Definition at_ (lat lon alt : Z) : AerialPosition :=
  mk_aerial (mk_gps (Fin (Qc_of_Z lat)) (Fin (Qc_of_Z lon))) (Fin (Qc_of_Z alt)).

Definition wp (lat lon alt ord : Z) : Waypoint :=
  mk_waypoint (at_ lat lon alt) ord.

(** A time of day on the first of January 1970, UTC. *)
Definition time (h m s : Z) : datetime := mk_datetime 1970 1 1 h m s 0 0.

(** Two waypoints one unit of distance apart, at 2 / 1.6878 knots: each
    leg takes half a second and the circuit takes one second. *)
Definition two_wps : list Waypoint := [wp 1 2 3 0; wp 4 5 6 1].
Definition obstacle : MovingObstacle tck :=
  fresh two_wps (Fin (Q2Qc (20000 # 16878))) (Fin (Q2Qc (1 # 2))).

(** A single waypoint, at positive speed. *)
Definition single : MovingObstacle tck :=
  fresh [wp 1 2 3 0] (Fin 1%Qc) (Fin (Q2Qc (1 # 2))).

(** A stand-in for [t + timedelta(microseconds=d)] that carries within
    the day: the time of day is moved by [d] microseconds; a sum that
    leaves the day is kept in the microsecond field. *)
Definition datetime_add (t : datetime) (d : Z) : datetime :=
  let us :=
    (hour t * 3600 + minute t * 60 + second t) * 1000000 + microsecond t + d in
  if (0 <=? us) && (us <? 86400000000) then
    mk_datetime (year t) (month t) (day t)
      (us / 3600000000) ((us / 60000000) mod 60) ((us / 1000000) mod 60)
      (us mod 1000000) (utcoffset t)
  else
    mk_datetime (year t) (month t) (day t) (hour t) (minute t) (second t)
      (microsecond t + d) (utcoffset t).

(** A stand-in for [strftime]: the seconds and the microseconds. *)
Definition strftime (t : datetime) : string :=
  pretty (second t) +:+ "." +:+ pretty (microsecond t).

(** Three waypoints, the last at the position of the first. *)
Definition there_and_back : list Waypoint :=
  [wp 1 2 3 0; wp 4 5 6 1; wp 1 2 3 2].

(** A log one second after the epoch, away from both waypoints. *)
Definition far_log : UasTelemetry :=
  mk_telemetry (time 0 0 1) (at_ 9 9 9).

(** A quarter of a second from the epoch. *)
Definition quarter_second : TimePeriod :=
  mk_period (time 0 0 0) (mk_datetime 1970 1 1 0 0 0 250000 0).

(** The two-waypoint obstacle with a sphere of radius 1. *)
Definition wide_obstacle : MovingObstacle tck :=
  fresh two_wps (Fin 1%Qc) (Fin 1%Qc).


(** The same circuit at the largest finite float,
    1.7976931348623157e308 knots. *)
Definition fastest : MovingObstacle tck :=
  fresh [wp 0 0 0 0; wp 4 5 6 1]
    (Fin (Qc_of_Z ((2 ^ 53 - 1) * 2 ^ 971))) (Fin (Q2Qc (1 # 2))).

End Demo.

(** ** The class [MovingObstacle] *)

Section MovingObstacle.

(** The rounding of the arithmetic, and what the module imports: scipy's
    spline fit, which can raise, and evaluation (a fit is a [tck]), the
    distance functions of [auvsi_suas.models], the unit
    conversion, the telemetry interpolation and the clock behind
    [timezone.now()] ([clock n] is what its n-th call reads). *)
Context {arithmetic : Rounding} {tck : Type}.
Variable splrep : list pyfloat -> list pyfloat -> Z -> Z -> result tck.
Variable splev : pyfloat -> tck -> pyfloat.
Variable Waypoint_distance_to : Waypoint -> Waypoint -> pyfloat.
Variable distance_to :
  pyfloat -> pyfloat -> pyfloat -> pyfloat -> pyfloat -> pyfloat -> pyfloat.
Variable knots_to_feet_per_second : pyfloat -> pyfloat.
Variable interpolate : list UasTelemetry -> list UasTelemetry.
Variable clock : nat -> datetime.

(** What the export methods use besides: the unit conversion of altitudes,
    [datetime_add t d] for [t + timedelta(microseconds=d)] and
    [strftime t] for [t.strftime(kml_datetime_format)]. *)
Variable feet_to_meters : pyfloat -> pyfloat.
Variable datetime_add : datetime -> Z -> datetime.
Variable strftime : datetime -> string.

Set Default Proof Using "Type".

(** A method that reads the clock or attaches an attribute: from a state to
    what it returns or raises, and the state it leaves (also when it
    raises). *)
Definition M (A : Type) : Type := state tck -> result A * state tck.

Local Instance M_ret : MRet M := fun A a s => (Ok a, s).
Local Instance M_bind : MBind M := fun A B f m s =>
  match m s with
  | (Ok a, s') => f a s'
  | (Raise e, s') => (Raise e, s')
  end.

(** A computation that touches neither the clock nor the attributes. *)
Definition lift {A : Type} (r : result A) : M A := fun s => (r, s).

(** [self], as it is now. *)
Definition get_self : M (MovingObstacle tck) := fun s => (Ok (obj s), s).

(** [self.preprocessed_waypoints = w]. *)
Definition set_preprocessed_waypoints (w : list Waypoint) : M unit := fun s =>
  let o := obj s in
  (Ok tt,
   {| obj := {| waypoints := waypoints o; speed_avg := speed_avg o;
                sphere_radius := sphere_radius o;
                preprocessed_waypoints := Some w;
                preprocessed_spline_curve := preprocessed_spline_curve o |};
      ticks := ticks s |}).

(** [self.preprocessed_spline_curve = c]. *)
Definition set_preprocessed_spline_curve (c : pyfloat * list tck) : M unit :=
  fun s =>
  let o := obj s in
  (Ok tt,
   {| obj := {| waypoints := waypoints o; speed_avg := speed_avg o;
                sphere_radius := sphere_radius o;
                preprocessed_waypoints := preprocessed_waypoints o;
                preprocessed_spline_curve := Some c |};
      ticks := ticks s |}).

(** [timezone.now()]: the clock is read, the reading is in UTC. *)
Definition timezone_now : M datetime := fun s =>
  (Ok (in_utc (clock (ticks s))), {| obj := obj s; ticks := S (ticks s) |}).

(** The time in seconds to travel from waypoint [id_tm1] to waypoint
    [id_t]; [None] on error. *)
Definition get_waypoint_travel_time (self : MovingObstacle tck)
    (waypoints : list Waypoint) (id_tm1 id_t : option Z)
  : result (option pyfloat) :=
  let len := Z.of_nat (length waypoints) in
  if bool_decide (waypoints = []) then Ok None
  else if len <? 2 then Ok None
  else match id_tm1 with
  | None => Ok None
  | Some id_tm1 =>
  if (id_tm1 <? 0) || (id_tm1 >=? len) then Ok None
  else match id_t with
  | None => Ok None
  | Some id_t =>
  if (id_t <? 0) || (id_t >=? len) then Ok None
  else if fle (speed_avg self) fzero then Ok None
  else
    waypoint_t ← getitem waypoints id_t;
    waypoint_tm1 ← getitem waypoints id_tm1;
    let waypoint_dist := Waypoint_distance_to waypoint_tm1 waypoint_t in
    let speed_avg_fps := knots_to_feet_per_second (speed_avg self) in
    waypoint_travel_time ← truediv waypoint_dist speed_avg_fps;
    Ok (Some waypoint_travel_time)
  end
  end.

(** The array of travel times between the waypoints of a circular path. *)
Definition get_inter_waypoint_travel_times (self : MovingObstacle tck)
    (waypoints : list Waypoint) : result (list pyfloat) :=
  let num_waypoints := Z.of_nat (length waypoints) in
  let travel_times := np_zeros (num_waypoints + 1) in
  for_in (range 1 (num_waypoints + 1)) (fun waypoint_id travel_times =>
    let id_tm1 := (waypoint_id - 1) mod num_waypoints in
    let id_t := waypoint_id mod num_waypoints in
    cur_travel_time ←
      get_waypoint_travel_time self waypoints (Some id_tm1) (Some id_t);
    setitem travel_times waypoint_id (to_float64 cur_travel_time))
  travel_times.

(** The array of times at which the obstacle is at each waypoint. *)
Definition get_waypoint_times (waypoint_travel_times : list pyfloat)
  : result (list pyfloat) :=
  let total_time := fzero in
  let num_paths := Z.of_nat (length waypoint_travel_times) in
  let pos_times := np_zeros num_paths in
  r ← for_in (range 0 num_paths) (fun path_id '(total_time, pos_times) =>
         t ← getitem waypoint_travel_times path_id;
         let total_time := fadd total_time t in
         pos_times ← setitem pos_times path_id total_time;
         Ok (total_time, pos_times))
       (total_time, pos_times);
  Ok (snd r).

(** The total travel time of the circuit and the three fits, for latitude,
    longitude and altitude; [splrep x y k per] is scipy's
    [splrep(x, y, k=k, per=per)]. *)
Definition get_spline_curve (self : MovingObstacle tck)
    (waypoints : list Waypoint) : result (pyfloat * list tck) :=
  let num_waypoints := Z.of_nat (length waypoints) in
  let positions := np_zeros2 (num_waypoints + 1) 3 in
  positions ← for_in (range 0 num_waypoints) (fun waypoint_id positions =>
      cur_waypoint ← getitem waypoints waypoint_id;
      let cur_position := position cur_waypoint in
      let cur_gps_pos := gps_position cur_position in
      positions ← setitem2 positions waypoint_id 0 (latitude cur_gps_pos);
      positions ← setitem2 positions waypoint_id 1 (longitude cur_gps_pos);
      setitem2 positions waypoint_id 2 (altitude_msl cur_position))
    positions;
  waypoint_travel_times ← get_inter_waypoint_travel_times self waypoints;
  pos_times ← get_waypoint_times waypoint_travel_times;
  total_travel_time ← getitem pos_times (Z.of_nat (length pos_times) - 1);
  let spline_k := if num_waypoints >=? 3 then 3 else 2 in
  spline_reps ← for_in (range 0 3) (fun iter_dim spline_reps =>
      ys ← column positions iter_dim;
      tck ← splrep pos_times ys spline_k 1;
      Ok (spline_reps ++ [tck]))
    [];
  Ok (total_travel_time, spline_reps).

(** The comprehension of [get_position]: index 0 is kept, index [i > 0] is
    kept when its distance to index [i - 1] of the same list is not 0. *)
Definition filter_consecutive_duplicates (all_wpts : list Waypoint)
  : result (list Waypoint) :=
  for_in (range 0 (Z.of_nat (length all_wpts))) (fun i kept =>
      keep ← (if i =? 0 then Ok true
              else a ← getitem all_wpts i;
                   b ← getitem all_wpts (i - 1);
                   Ok (fne (Waypoint_distance_to a b) fzero));
      if keep : bool then a ← getitem all_wpts i; Ok (kept ++ [a])
      else Ok kept)
    [].

(** The latitude, longitude and altitude of the obstacle at [cur_time]
    ([None]: now). *)
Definition get_position (cur_time : option datetime)
  : M (pyfloat * pyfloat * pyfloat) :=
  cur_time ← match cur_time with
             | None => timezone_now
             | Some t => mret t
             end;
  self ← get_self;
  waypoints ← match preprocessed_waypoints self with
              | Some w => mret w
              | None =>
                  let all_wpts := order_by_order (waypoints self) in
                  w ← lift (filter_consecutive_duplicates all_wpts);
                  _ ← set_preprocessed_waypoints w;
                  mret w
              end;
  let num_waypoints := Z.of_nat (length waypoints) in
  if num_waypoints =? 0 then mret (fzero, fzero, fzero)
  else if (num_waypoints =? 1) || fle (speed_avg self) fzero then
    wpt ← lift (getitem waypoints 0);
    mret (latitude (gps_position (position wpt)),
          longitude (gps_position (position wpt)),
          altitude_msl (position wpt))
  else
    self ← get_self;
    spline_curve ← match preprocessed_spline_curve self with
                   | Some c => mret c
                   | None =>
                       c ← lift (get_spline_curve self waypoints);
                       _ ← set_preprocessed_spline_curve c;
                       mret c
                   end;
    let '(total_travel_time, spline_reps) := spline_curve in
    now ← timezone_now;
    let epoch_time := replace_epoch now in
    let cur_time_sec := total_seconds (datetime_sub cur_time epoch_time) in
    let cur_path_time := np_mod cur_time_sec total_travel_time in
    rep0 ← lift (getitem spline_reps 0);
    let latitude := splev cur_path_time rep0 in
    rep1 ← lift (getitem spline_reps 1);
    let longitude := splev cur_path_time rep1 in
    rep2 ← lift (getitem spline_reps 2);
    let altitude_msl := splev cur_path_time rep2 in
    mret (latitude, longitude, altitude_msl).

(** Whether [aerial_pos] is inside the sphere of the obstacle placed at
    the given position. *)
Definition contains_pos (self : MovingObstacle tck)
    (obst_lat obst_lon obst_alt : pyfloat) (aerial_pos : AerialPosition)
  : bool :=
  let dist_to_center :=
    distance_to obst_lat obst_lon obst_alt
      (latitude (gps_position aerial_pos))
      (longitude (gps_position aerial_pos)) (altitude_msl aerial_pos) in
  fle dist_to_center (sphere_radius self).

(** The loop of [evaluate_collision_with_uas] over the interpolated logs:
    [return True] at the first log inside the sphere, [return False] when
    the logs are exhausted. *)
Fixpoint evaluate_collision_loop (logs : list UasTelemetry) : M bool :=
  match logs with
  | [] => mret false
  | log :: rest =>
      '(lat, lon, alt) ← get_position (Some (timestamp log));
      self ← get_self;
      if contains_pos self lat lon alt (uas_position log) then mret true
      else evaluate_collision_loop rest
  end.

(** Whether the telemetry logs, once interpolated, show a collision with
    the obstacle. *)
Definition evaluate_collision_with_uas (uas_telemetry_logs : list UasTelemetry)
  : M bool :=
  evaluate_collision_loop (interpolate uas_telemetry_logs).

(** [json]: the position at [time] ([None]: now) and the radius, as a
    dictionary. *)
Definition json (time : option datetime) : M (gmap string pyfloat) :=
  '(latitude, longitude, altitude_msl) ← get_position time;
  self ← get_self;
  let data : gmap string pyfloat :=
    list_to_map [("latitude", latitude); ("longitude", longitude);
                 ("altitude_msl", altitude_msl);
                 ("sphere_radius", sphere_radius self)] in
  mret data.

(** The [while t < period.end] loop of [kml] for one period: a position
    every 100 milliseconds, as (longitude, latitude, altitude in meters),
    and the formatted time.  [None]: the loop has not ended within [fuel]
    iterations. *)
Fixpoint kml_while (fuel : nat) (t period_end : datetime)
    (data : list (pyfloat * pyfloat * pyfloat) * list string)
  : M (option (list (pyfloat * pyfloat * pyfloat) * list string)) :=
  match fuel with
  | O => mret None
  | S fuel =>
      if datetime_lt t period_end then
        '(lat, lon, alt) ← get_position (Some t);
        let coords := data.1 ++ [(lon, lat, feet_to_meters alt)] in
        let when := data.2 ++ [strftime t] in
        kml_while fuel (datetime_add t 100000) period_end (coords, when)
      else mret (Some data)
  end.

(** The [for period in time_periods] loop of [kml]. *)
Fixpoint kml_for (fuel : nat) (time_periods : list TimePeriod)
    (data : list (pyfloat * pyfloat * pyfloat) * list string)
  : M (option (list (pyfloat * pyfloat * pyfloat) * list string)) :=
  match time_periods with
  | [] => mret (Some data)
  | period :: rest =>
      r ← kml_while fuel (start period) (end_ period) data;
      match r with
      | Some data => kml_for fuel rest data
      | None => mret None
      end
  end.

(** The track data of [kml]: the lists [coords] and [when] that it hands
    to the track ([trk.newgxcoord], [trk.newwhen]). *)
Definition kml_track_data (fuel : nat) (time_periods : list TimePeriod)
  : M (option (list (pyfloat * pyfloat * pyfloat) * list string)) :=
  kml_for fuel time_periods ([], []).

(** The [while time >= last] loop of the generator [track] of [live_kml],
    with the positions yielded so far.  [None]: the loop has not ended
    within [fuel] iterations. *)
Fixpoint track_while (fuel : nat) (time last : datetime) (dt : Z)
    (yielded : list (pyfloat * pyfloat * pyfloat))
  : M (option (list (pyfloat * pyfloat * pyfloat))) :=
  match fuel with
  | O => mret None
  | S fuel =>
      if datetime_ge time last then
        pos ← get_position (Some time);
        track_while fuel (datetime_add time (- dt)) last dt (yielded ++ [pos])
      else mret (Some yielded)
  end.

(** [track(obstacle, span, dt)], the two timedeltas in microseconds: the
    positions from now back to [span] ago, every [dt]. *)
Definition track (fuel : nat) (span dt : Z)
  : M (option (list (pyfloat * pyfloat * pyfloat))) :=
  curr ← timezone_now;
  let last := datetime_add curr (- span) in
  let time := curr in
  track_while fuel time last dt [].

(** The body of [live_kml] for one obstacle: the coordinates of its line
    string, (longitude, latitude, altitude in meters) for every position
    of the track; [resolution] is in milliseconds. *)
Definition live_kml_coords (fuel : nat) (timespan resolution : Z)
  : M (option (list (pyfloat * pyfloat * pyfloat))) :=
  let dt := resolution * 1000 in
  r ← track fuel timespan dt;
  match r with
  | Some positions =>
      mret (Some ((fun pos : pyfloat * pyfloat * pyfloat =>
                     (pos.1.2, pos.1.1, feet_to_meters pos.2))
                  <$> positions))
  | None => mret None
  end.

(** The times of [n] samples from [t], each [step] microseconds after the
    one before. *)
Fixpoint sample_times (t : datetime) (step : Z) (n : nat) : list datetime :=
  match n with
  | O => []
  | S n => t :: sample_times (datetime_add t step) step n
  end.

(** An index that [get_waypoint_travel_time] rejects: [None], negative, or
    at least the length of the list. *)
Definition index_rejected (waypoints : list Waypoint) (id : option Z) : Prop :=
  match id with
  | None => True
  | Some i => i < 0 \/ Z.of_nat (length waypoints) <= i
  end.

(** What the specification says of the array of travel times of a circuit
    of N waypoints: N + 1 entries, entry 0 is zero, entry [i] for
    [1 <= i <= N - 1] is the travel time from waypoint [i - 1] to waypoint
    [i], and entry N is the travel time from the last waypoint back to the
    first; a travel time is the distance over the speed in feet per
    second. *)
Definition circuit_travel_times (self : MovingObstacle tck)
    (wps : list Waypoint) (l : list pyfloat) : Prop :=
  let N := length wps in
  let leg (a b : Waypoint) (i : nat) :=
    exists t, truediv (Waypoint_distance_to a b)
                (knots_to_feet_per_second (speed_avg self)) = Ok t /\
              l !! i = Some t in
  length l = S N /\
  l !! 0%nat = Some fzero /\
  (forall i a b, (1 <= i <= N - 1)%nat ->
     wps !! (i - 1)%nat = Some a -> wps !! i = Some b -> leg a b i) /\
  (forall a b, wps !! (N - 1)%nat = Some a -> wps !! 0%nat = Some b ->
     leg a b N).

(** The row of [positions] that [get_spline_curve] fills for a waypoint. *)
Definition position_row (w : Waypoint) : list pyfloat :=
  [latitude (gps_position (position w));
   longitude (gps_position (position w));
   altitude_msl (position w)].

(** What the specification says of the ordinates handed to the fit for one
    dimension: one per waypoint, followed by a repeat of the first. *)
Definition closes_the_loop (coordinate : Waypoint -> pyfloat)
    (wps : list Waypoint) (ys : list pyfloat) : Prop :=
  length ys = S (length wps) /\
  (forall k w, wps !! k = Some w -> ys !! k = Some (coordinate w)) /\
  (forall w, wps !! 0%nat = Some w -> ys !! length wps = Some (coordinate w)).

(** The comprehension read along the list: the first waypoint is kept, and
    [dedup_from prev l] keeps the waypoints of [l] whose distance to their
    predecessor ([prev] for the first) is not 0. *)
Fixpoint dedup_from (prev : Waypoint) (l : list Waypoint) : list Waypoint :=
  match l with
  | [] => []
  | x :: rest =>
      if fne (Waypoint_distance_to x prev) fzero
      then x :: dedup_from x rest
      else dedup_from x rest
  end.

Definition dedup (l : list Waypoint) : list Waypoint :=
  match l with
  | [] => []
  | x :: rest => x :: dedup_from x rest
  end.

(** The start of 1970 in UTC. *)
Definition unix_epoch : datetime := mk_datetime 1970 1 1 0 0 0 0 0.

(** The waypoints a call of [get_position] works on: the attribute when it
    is attached, else the filtered waypoints of the obstacle. *)
Definition waypoints_in_use (o : MovingObstacle tck) : result (list Waypoint) :=
  match preprocessed_waypoints o with
  | Some w => Ok w
  | None => filter_consecutive_duplicates (order_by_order (waypoints o))
  end.

(** The spline curve a call of [get_position] works on, likewise. *)
Definition spline_curve_in_use (o : MovingObstacle tck) (w : list Waypoint)
  : result (pyfloat * list tck) :=
  match preprocessed_spline_curve o with
  | Some c => Ok c
  | None => get_spline_curve o w
  end.

(** The last lines of [get_position]: the three splines evaluated at the
    seconds since the epoch, reduced modulo the total travel time. *)
Definition sample_spline_curve (c : pyfloat * list tck) (t : datetime)
  : result (pyfloat * pyfloat * pyfloat) :=
  let cur_path_time :=
    np_mod (total_seconds (datetime_sub t unix_epoch)) c.1 in
  rep0 ← getitem c.2 0;
  rep1 ← getitem c.2 1;
  rep2 ← getitem c.2 2;
  Ok (splev cur_path_time rep0, splev cur_path_time rep1,
      splev cur_path_time rep2).

(** The attributes hold what [get_position] computes for this obstacle:
    nothing else attaches them. *)
Definition coherent (o : MovingObstacle tck) : Prop :=
  (forall w, preprocessed_waypoints o = Some w ->
     filter_consecutive_duplicates (order_by_order (waypoints o)) = Ok w) /\
  (forall c, preprocessed_spline_curve o = Some c ->
     exists w,
       filter_consecutive_duplicates (order_by_order (waypoints o)) = Ok w /\
       get_spline_curve o w = Ok c).

(** The states of a run: it starts with a new instance, at any reading of
    the clock, and goes on by calls of [get_position], with or without a
    time. *)
Inductive run (wps : list Waypoint) (speed radius : pyfloat)
  : state tck -> Prop :=
| run_start (n : nat) : run wps speed radius (mk_state (fresh wps speed radius) n)
| run_call (s : state tck) (cur_time : option datetime) :
    run wps speed radius s ->
    run wps speed radius (get_position cur_time s).2.

(** Whether a telemetry log is inside the sphere of the obstacle, the
    obstacle taken where [get_position] puts it at the time of the log. *)
Definition inside_at (s : state tck) (log : UasTelemetry) : bool :=
  match (get_position (Some (timestamp log)) s).1 with
  | Ok (lat, lon, alt) => contains_pos (obj s) lat lon alt (uas_position log)
  | Raise _ => false
  end.

(** The waypoints and the speed are the same, and the attributes are
    coherent, in both states. *)
Definition same_obstacle (s1 s2 : state tck) : Prop :=
  coherent (obj s1) /\ coherent (obj s2) /\
  waypoints (obj s1) = waypoints (obj s2) /\
  speed_avg (obj s1) = speed_avg (obj s2).

(** The loop of [evaluate_collision_with_uas] read on the positions of
    the obstacle in one state: the first log whose position raises or whose
    log is inside the sphere ends it. *)
Fixpoint collision_outcome (s : state tck) (samples : list UasTelemetry)
  : result bool :=
  match samples with
  | [] => Ok false
  | log :: rest =>
      match (get_position (Some (timestamp log)) s).1 with
      | Ok (lat, lon, alt) =>
          if contains_pos (obj s) lat lon alt (uas_position log) then Ok true
          else collision_outcome s rest
      | Raise e => Raise e
      end
  end.

(** The outcome of a sampling loop that starts from [data] instead of
    from nothing. *)
Definition kml_prepend (data : list (pyfloat * pyfloat * pyfloat) * list string)
    (r : result (option (list (pyfloat * pyfloat * pyfloat) * list string)))
  : result (option (list (pyfloat * pyfloat * pyfloat) * list string)) :=
  match r with
  | Ok (Some d) => Ok (Some (data.1 ++ d.1, data.2 ++ d.2))
  | Ok None => Ok None
  | Raise e => Raise e
  end.

(** A float of the arithmetic: rounding leaves it as it is. *)
Definition rounded (a : pyfloat) : Prop :=
  match a with
  | Fin x => rnd x = Fin x
  | _ => True
  end.

(** The sum of a list of floats, added from left to right from 0 as the
    loop of [get_waypoint_times] adds them. *)
Definition cumulative_sum (l : list pyfloat) : pyfloat := foldl fadd fzero l.

(** ** Loops, indexing and arithmetic *)

Lemma range_nil a b : b <= a -> range a b = [].
Proof.
  intros H. unfold range, seqZ.
  replace (Z.to_nat (b - a)) with 0%nat by lia. reflexivity.
Qed.

Lemma range_cons a b : a < b -> range a b = a :: range (a + 1) b.
Proof.
  intros H. unfold range. rewrite seqZ_cons by lia.
  f_equal. f_equal; lia.
Qed.

(** The loop rule: an invariant that holds on entry and that every
    iteration re-establishes without raising holds on exit. *)
Lemma for_in_range_inv {S : Type} (Inv : Z -> S -> Prop)
    (body : Z -> S -> result S) (a b : Z) (s : S) :
  a <= b ->
  Inv a s ->
  (forall i s, a <= i < b -> Inv i s ->
     exists s', body i s = Ok s' /\ Inv (i + 1) s') ->
  exists s', for_in (range a b) body s = Ok s' /\ Inv b s'.
Proof.
  intros Hab. remember (Z.to_nat (b - a)) as n eqn:Hn.
  revert a s Hab Hn. induction n as [|n IH]; intros a s Hab Hn Hinv Hstep.
  - assert (a = b) by lia. subst. rewrite range_nil by lia.
    exists s. split; [reflexivity | assumption].
  - rewrite range_cons by lia. simpl.
    destruct (Hstep a s) as (s1 & Hb & Hi); [lia | assumption |].
    rewrite Hb. simpl.
    apply IH; [lia | lia | assumption |].
    intros i s2 Hi2. apply Hstep. lia.
Qed.

Lemma getitem_lookup {A : Type} (l : list A) (i : Z) (x : A) :
  0 <= i -> l !! Z.to_nat i = Some x -> getitem l i = Ok x.
Proof.
  intros Hi Hl. unfold getitem.
  destruct (i <? 0) eqn:E; [lia |].
  rewrite E, Hl. reflexivity.
Qed.

Lemma getitem_nat {A : Type} (l : list A) (n : nat) (x : A) :
  l !! n = Some x -> getitem l (Z.of_nat n) = Ok x.
Proof.
  intros Hl. apply getitem_lookup; [lia |]. rewrite Nat2Z.id. assumption.
Qed.

Lemma setitem_Ok {A : Type} (arr : list A) (i : Z) (v : A) :
  0 <= i < Z.of_nat (length arr) ->
  setitem arr i v = Ok (<[Z.to_nat i := v]> arr).
Proof.
  intros Hi. unfold setitem.
  destruct (0 <=? i) eqn:E1; [| lia].
  destruct (i <? Z.of_nat (length arr)) eqn:E2; [| lia].
  reflexivity.
Qed.

Lemma flt_not_fle a : flt fzero a = true -> fle a fzero = false.
Proof.
  destruct a as [q|[|]|]; simpl; try discriminate; [| reflexivity].
  intros H. apply bool_decide_eq_true in H.
  apply bool_decide_eq_false. apply Qclt_not_le. exact H.
Qed.

Lemma fle_trans (a b c : pyfloat) :
  fle a b = true -> fle b c = true -> fle a c = true.
Proof.
  destruct a as [x|[|]|], b as [y|[|]|], c as [z|[|]|]; simpl;
    try discriminate; try reflexivity.
  rewrite !bool_decide_eq_true. apply Qcle_trans.
Qed.

Lemma fle_refl (a b : pyfloat) : fle b a = true -> fle a a = true.
Proof.
  destruct a as [x|[|]|]; simpl; try reflexivity;
    [intros _; apply bool_decide_eq_true, Qcle_refl | by destruct b as [y|[|]|]].
Qed.

(** ** Travel times *)

(** The unit conversion maps no speed that passes the guard
    [speed_avg <= 0] to zero feet per second. *)
Hypothesis knots_nonzero :
  forall s, fle s fzero = false -> knots_to_feet_per_second s <> fzero.

Lemma truediv_knots_Ok (self : MovingObstacle tck) (d : pyfloat) :
  fle (speed_avg self) fzero = false ->
  exists t, truediv d (knots_to_feet_per_second (speed_avg self)) = Ok t.
Proof using knots_nonzero.
  intros Hs. pose proof (knots_nonzero _ Hs) as Hk. unfold truediv.
  destruct (knots_to_feet_per_second (speed_avg self)) as [y|negative|];
    [| destruct d; eauto | eauto].
  destruct (bool_decide (y = 0%Qc)) eqn:E.
  - apply bool_decide_eq_true in E. subst. exfalso. apply Hk. reflexivity.
  - destruct d; eauto.
Qed.

(** When every guard passes, the result is the distance between the two
    waypoints over the speed in feet per second. *)
Lemma get_waypoint_travel_time_pass (self : MovingObstacle tck)
    (wps : list Waypoint) (i j : Z) (a b : Waypoint) :
  fle (speed_avg self) fzero = false ->
  (2 <= length wps)%nat ->
  0 <= i -> 0 <= j ->
  wps !! Z.to_nat i = Some a ->
  wps !! Z.to_nat j = Some b ->
  get_waypoint_travel_time self wps (Some i) (Some j) =
    t ← truediv (Waypoint_distance_to a b)
          (knots_to_feet_per_second (speed_avg self));
    Ok (Some t).
Proof.
  intros Hs Hlen Hi Hj Ha Hb. unfold get_waypoint_travel_time.
  apply lookup_lt_Some in Ha as Hia. apply lookup_lt_Some in Hb as Hjb.
  rewrite bool_decide_eq_false_2 by (intros ->; simpl in Hlen; lia).
  destruct (Z.of_nat (length wps) <? 2) eqn:E1; [lia |].
  destruct (i <? 0) eqn:E2; [lia |].
  destruct (i >=? Z.of_nat (length wps)) eqn:E3; [lia |].
  destruct (j <? 0) eqn:E4; [lia |].
  destruct (j >=? Z.of_nat (length wps)) eqn:E5; [lia |].
  simpl. rewrite Hs.
  rewrite (getitem_lookup wps j b) by assumption. simpl.
  rewrite (getitem_lookup wps i a) by assumption. simpl.
  reflexivity.
Qed.

(** A call that returns [None] settles the three parts of the case. *)
Lemma Ok_None_case (P Q : Prop) (r : result (option pyfloat)) :
  r = Ok None -> P ->
  (r = Ok None <-> P) /\ (r <> Ok None -> Q) /\ (forall e, r <> Raise e).
Proof.
  intros -> HP. split; [split; auto |].
  split; [intros H; by destruct H | discriminate].
Qed.

(** [get_waypoint_travel_time] never raises: the indices that reach the
    two lookups are in range, and the divisor is not zero. *)
Lemma get_waypoint_travel_time_Ok (self : MovingObstacle tck)
    (wps : list Waypoint) (id_tm1 id_t : option Z) :
  exists v, get_waypoint_travel_time self wps id_tm1 id_t = Ok v.
Proof using knots_nonzero.
  unfold get_waypoint_travel_time.
  destruct (bool_decide (wps = [])); [eauto |].
  destruct (Z.of_nat (length wps) <? 2); [eauto |].
  destruct id_tm1 as [i|]; [| eauto].
  destruct ((i <? 0) || (i >=? Z.of_nat (length wps))) eqn:Ei; [eauto |].
  destruct id_t as [j|]; [| eauto].
  destruct ((j <? 0) || (j >=? Z.of_nat (length wps))) eqn:Ej; [eauto |].
  destruct (fle (speed_avg self) fzero) eqn:Hs; [eauto |].
  apply orb_false_iff in Ei as [Ei1 Ei2]. apply orb_false_iff in Ej as [Ej1 Ej2].
  destruct (lookup_lt_is_Some_2 wps (Z.to_nat i)) as [a Ha]; [lia |].
  destruct (lookup_lt_is_Some_2 wps (Z.to_nat j)) as [b Hb]; [lia |].
  rewrite (getitem_lookup wps j b) by (assumption || lia).
  rewrite (getitem_lookup wps i a) by (assumption || lia).
  cbn [mbind result_bind].
  destruct (truediv_knots_Ok self (Waypoint_distance_to a b) Hs) as [t ->].
  cbn [mbind result_bind]. eauto.
Qed.

(** C4.  [get_waypoint_travel_time] returns [None] exactly when the list is
    empty, or has fewer than 2 waypoints, or one of the two indices is
    [None], negative or at least the length, or [speed_avg <= 0] (each of
    these alone is enough); otherwise it returns the distance between the
    two waypoints divided by the speed in feet per second; and it never
    raises. *)
Theorem get_waypoint_travel_time_sentinel (self : MovingObstacle tck)
    (wps : list Waypoint) (id_tm1 id_t : option Z) :
  (get_waypoint_travel_time self wps id_tm1 id_t = Ok None <->
     wps = [] \/ (length wps < 2)%nat \/ index_rejected wps id_tm1 \/
     index_rejected wps id_t \/ fle (speed_avg self) fzero = true) /\
  (get_waypoint_travel_time self wps id_tm1 id_t <> Ok None ->
     exists i j a b t,
       id_tm1 = Some i /\ id_t = Some j /\
       wps !! Z.to_nat i = Some a /\ wps !! Z.to_nat j = Some b /\
       truediv (Waypoint_distance_to a b)
         (knots_to_feet_per_second (speed_avg self)) = Ok t /\
       get_waypoint_travel_time self wps id_tm1 id_t = Ok (Some t)) /\
  (forall e, get_waypoint_travel_time self wps id_tm1 id_t <> Raise e).
Proof using knots_nonzero.
  destruct (decide (wps = [])) as [He|He].
  { apply Ok_None_case; [| by left].
    unfold get_waypoint_travel_time. by rewrite bool_decide_eq_true_2. }
  destruct (decide (length wps < 2)%nat) as [Hl|Hl].
  { apply Ok_None_case; [| right; by left].
    unfold get_waypoint_travel_time. rewrite bool_decide_eq_false_2 by done.
    destruct (Z.of_nat (length wps) <? 2) eqn:E; [reflexivity | lia]. }
  assert (Hrej : forall id, index_rejected wps id \/
            exists i x, id = Some i /\ 0 <= i /\ wps !! Z.to_nat i = Some x).
  { intros [i|]; [| left; exact I].
    destruct (decide (i < 0 \/ Z.of_nat (length wps) <= i)) as [H|H];
      [left; exact H | right].
    destruct (lookup_lt_is_Some_2 wps (Z.to_nat i)) as [x Hx]; [lia |].
    exists i, x. repeat split; [lia | exact Hx]. }
  destruct (Hrej id_tm1) as [H1|(i & a & -> & Hi & Ha)].
  { apply Ok_None_case; [| right; right; by left].
    unfold get_waypoint_travel_time.
    rewrite bool_decide_eq_false_2 by done.
    destruct (Z.of_nat (length wps) <? 2) eqn:E; [lia |].
    destruct id_tm1 as [i|]; [| reflexivity]. simpl in H1.
    destruct (i <? 0) eqn:E1; [reflexivity |].
    destruct (i >=? Z.of_nat (length wps)) eqn:E2; [reflexivity | lia]. }
  apply lookup_lt_Some in Ha as Hia.
  destruct (Hrej id_t) as [H2|(j & b & -> & Hj & Hb)].
  { apply Ok_None_case; [| right; right; right; by left].
    unfold get_waypoint_travel_time.
    rewrite bool_decide_eq_false_2 by done.
    destruct (Z.of_nat (length wps) <? 2) eqn:E; [lia |].
    destruct (i <? 0) eqn:E1; [lia |].
    destruct (i >=? Z.of_nat (length wps)) eqn:E2; [lia |]. simpl.
    destruct id_t as [j|]; [| reflexivity]. simpl in H2.
    destruct (j <? 0) eqn:E3; [reflexivity |].
    destruct (j >=? Z.of_nat (length wps)) eqn:E4; [reflexivity | lia]. }
  apply lookup_lt_Some in Hb as Hjb.
  destruct (fle (speed_avg self) fzero) eqn:Hs.
  { apply Ok_None_case; [| right; right; right; by right].
    unfold get_waypoint_travel_time.
    rewrite bool_decide_eq_false_2 by done.
    destruct (Z.of_nat (length wps) <? 2) eqn:E; [lia |].
    destruct (i <? 0) eqn:E1; [lia |].
    destruct (i >=? Z.of_nat (length wps)) eqn:E2; [lia |].
    destruct (j <? 0) eqn:E3; [lia |].
    destruct (j >=? Z.of_nat (length wps)) eqn:E4; [lia |]. simpl.
    by rewrite Hs. }
  rewrite (get_waypoint_travel_time_pass self wps i j a b)
    by (assumption || lia).
  destruct (truediv_knots_Ok self (Waypoint_distance_to a b) Hs) as [t Ht].
  rewrite Ht. simpl. split; [| split].
  - split; [discriminate |].
    intros [H|[H|[H|[H|H]]]]; [done | lia | simpl in H; lia | simpl in H; lia
                              | discriminate].
  - intros _. exists i, j, a, b, t. done.
  - discriminate.
Qed.



(** The loop of [get_inter_waypoint_travel_times]: it ends without raising,
    with N + 1 cells; cell 0 is still zero and cell [i >= 1] holds what the
    i-th call returned, stored as a float64. *)
Lemma get_inter_waypoint_travel_times_cells (self : MovingObstacle tck)
    (wps : list Waypoint) :
  let N := Z.of_nat (length wps) in
  exists l,
    get_inter_waypoint_travel_times self wps = Ok l /\
    length l = S (length wps) /\
    l !! 0%nat = Some fzero /\
    forall i, 1 <= i <= N ->
      exists v,
        get_waypoint_travel_time self wps
          (Some ((i - 1) mod N)) (Some (i mod N)) = Ok v /\
        l !! Z.to_nat i = Some (to_float64 v).
Proof using knots_nonzero.
  intros N. unfold get_inter_waypoint_travel_times. fold N.
  destruct (for_in_range_inv
    (fun i arr =>
       length arr = S (length wps) /\
       arr !! 0%nat = Some fzero /\
       forall j, 1 <= j < i ->
         exists v,
           get_waypoint_travel_time self wps
             (Some ((j - 1) mod N)) (Some (j mod N)) = Ok v /\
           arr !! Z.to_nat j = Some (to_float64 v))
    (fun waypoint_id travel_times =>
       cur_travel_time ←
         get_waypoint_travel_time self wps
           (Some ((waypoint_id - 1) mod N)) (Some (waypoint_id mod N));
       setitem travel_times waypoint_id (to_float64 cur_travel_time))
    1 (N + 1) (np_zeros (N + 1))) as (l & Hl & Hlen & H0 & Hcells).
  - lia.
  - unfold np_zeros. rewrite length_replicate.
    split; [lia |]. split; [| intros; lia].
    replace (Z.to_nat (N + 1)) with (S (length wps)) by lia. reflexivity.
  - intros i arr Hi (Hlen & H0 & Hcells).
    destruct (get_waypoint_travel_time_Ok self wps
                (Some ((i - 1) mod N)) (Some (i mod N))) as [v Hv].
    rewrite Hv. simpl. rewrite setitem_Ok by lia.
    eexists. split; [reflexivity |].
    rewrite length_insert. split; [assumption |]. split.
    + rewrite list_lookup_insert_ne by lia. assumption.
    + intros j Hj. destruct (decide (j = i)) as [->|Hne].
      * exists v. split; [assumption |].
        apply list_lookup_insert_eq. lia.
      * destruct (Hcells j) as (u & Hu & Hju); [lia |].
        exists u. split; [assumption |].
        rewrite list_lookup_insert_ne by lia. assumption.
  - exists l. split; [exact Hl |]. split; [exact Hlen |].
    split; [exact H0 |]. intros i Hi. apply Hcells. lia.
Qed.

(** With at least two waypoints and a speed that passes the guard, the
    i-th call passes every check. *)
Lemma get_waypoint_travel_time_leg (self : MovingObstacle tck)
    (wps : list Waypoint) (i : Z) :
  let N := Z.of_nat (length wps) in
  (2 <= length wps)%nat ->
  fle (speed_avg self) fzero = false ->
  1 <= i <= N ->
  exists a b t,
    wps !! Z.to_nat ((i - 1) mod N) = Some a /\
    wps !! Z.to_nat (i mod N) = Some b /\
    truediv (Waypoint_distance_to a b)
      (knots_to_feet_per_second (speed_avg self)) = Ok t /\
    get_waypoint_travel_time self wps
      (Some ((i - 1) mod N)) (Some (i mod N)) = Ok (Some t).
Proof using knots_nonzero.
  intros N Hlen Hs Hi.
  assert (H1 : 0 <= (i - 1) mod N < N) by (apply Z.mod_pos_bound; lia).
  assert (H2 : 0 <= i mod N < N) by (apply Z.mod_pos_bound; lia).
  destruct (lookup_lt_is_Some_2 wps (Z.to_nat ((i - 1) mod N))) as [a Ha];
    [lia |].
  destruct (lookup_lt_is_Some_2 wps (Z.to_nat (i mod N))) as [b Hb]; [lia |].
  destruct (truediv_knots_Ok self (Waypoint_distance_to a b) Hs) as [t Ht].
  exists a, b, t. repeat split; try assumption.
  rewrite (get_waypoint_travel_time_pass self wps _ _ a b)
    by (assumption || lia).
  rewrite Ht. reflexivity.
Qed.

(** C10.  With at least 2 waypoints and [speed_avg > 0], every call that
    [get_inter_waypoint_travel_times] makes passes the validation (neither
    index is rejected) and returns a number, never [None]; the array it
    returns holds zero and these numbers. *)
Theorem get_inter_waypoint_travel_times_numeric (self : MovingObstacle tck)
    (wps : list Waypoint) :
  let N := Z.of_nat (length wps) in
  (2 <= length wps)%nat ->
  flt fzero (speed_avg self) = true ->
  exists l,
    get_inter_waypoint_travel_times self wps = Ok l /\
    length l = S (length wps) /\
    l !! 0%nat = Some fzero /\
    forall i, 1 <= i <= N ->
      ~ index_rejected wps (Some ((i - 1) mod N)) /\
      ~ index_rejected wps (Some (i mod N)) /\
      exists t,
        get_waypoint_travel_time self wps
          (Some ((i - 1) mod N)) (Some (i mod N)) = Ok (Some t) /\
        l !! Z.to_nat i = Some t.
Proof using knots_nonzero.
  intros N Hlen Hpos. apply flt_not_fle in Hpos.
  destruct (get_inter_waypoint_travel_times_cells self wps)
    as (l & Hl & Hlen' & H0 & Hcells).
  exists l. split; [exact Hl |]. split; [exact Hlen' |].
  split; [exact H0 |]. intros i Hi.
  assert (H1 : 0 <= (i - 1) mod N < N) by (apply Z.mod_pos_bound; lia).
  assert (H2 : 0 <= i mod N < N) by (apply Z.mod_pos_bound; lia).
  split; [simpl; lia |]. split; [simpl; lia |].
  destruct (get_waypoint_travel_time_leg self wps i Hlen Hpos Hi)
    as (a & b & t & _ & _ & _ & Hcall).
  destruct (Hcells i Hi) as (v & Hv & Hiv). subst N.
  rewrite Hcall in Hv. inversion Hv; subst v.
  exists t. split; [exact Hcall | exact Hiv].
Qed.

(** C6, amended.  For a circuit of N >= 2 waypoints with [speed_avg > 0],
    [get_inter_waypoint_travel_times] returns N + 1 durations: entry 0 is
    zero, entry [i] for [1 <= i <= N - 1] is the travel time from waypoint
    [i - 1] to waypoint [i], and entry N is the travel time from the last
    waypoint back to the first. *)
Theorem get_inter_waypoint_travel_times_circuit (self : MovingObstacle tck)
    (wps : list Waypoint) :
  (2 <= length wps)%nat ->
  flt fzero (speed_avg self) = true ->
  exists l,
    get_inter_waypoint_travel_times self wps = Ok l /\
    circuit_travel_times self wps l.
Proof using knots_nonzero.
  intros Hlen Hpos. apply flt_not_fle in Hpos.
  destruct (get_inter_waypoint_travel_times_cells self wps)
    as (l & Hl & Hlen' & H0 & Hcells).
  exists l. split; [exact Hl |]. unfold circuit_travel_times.
  split; [exact Hlen' |]. split; [exact H0 |].
  set (N := Z.of_nat (length wps)) in *.
  assert (Hleg : forall (i : nat) a b, (1 <= i <= length wps)%nat ->
            wps !! (i - 1)%nat = Some a ->
            wps !! (Z.to_nat (Z.of_nat i mod N)) = Some b ->
            exists t, truediv (Waypoint_distance_to a b)
                        (knots_to_feet_per_second (speed_avg self)) = Ok t /\
                      l !! i = Some t).
  { intros i a b Hi Ha Hb.
    assert (HiN : 1 <= Z.of_nat i <= N) by lia.
    destruct (get_waypoint_travel_time_leg self wps (Z.of_nat i) Hlen Hpos HiN)
      as (a' & b' & t & Ha' & Hb' & Ht & Hcall). fold N in Ha', Hb', Hcall.
    rewrite Z.mod_small in Ha' by lia.
    replace (Z.to_nat (Z.of_nat i - 1)) with (i - 1)%nat in Ha' by lia.
    rewrite Ha in Ha'. rewrite Hb in Hb'. inversion Ha'; inversion Hb'; subst.
    destruct (Hcells (Z.of_nat i) HiN) as (v & Hv & Hiv).
    rewrite Hcall in Hv. inversion Hv; subst v.
    rewrite Nat2Z.id in Hiv. exists t. split; assumption. }
  split.
  - intros i a b Hi Ha Hb. apply Hleg; [lia | exact Ha |].
    rewrite Z.mod_small by lia. rewrite Nat2Z.id. exact Hb.
  - intros a b Ha Hb. apply Hleg; [lia | exact Ha |].
    unfold N. rewrite Z.mod_same by lia. exact Hb.
Qed.

(** ** Arrival times *)

(** The loop of [get_waypoint_times]: it ends without raising, and cell
    [j] holds the sum, from the left, of entries 0 to [j]. *)
Lemma get_waypoint_times_cells (l : list pyfloat) :
  exists r,
    get_waypoint_times l = Ok r /\
    length r = length l /\
    forall j, (j < length l)%nat ->
      r !! j = Some (foldl fadd fzero (take (S j) l)).
Proof.
  unfold get_waypoint_times. cbv zeta.
  destruct (for_in_range_inv
    (fun i (st : pyfloat * list pyfloat) =>
       length st.2 = length l /\
       st.1 = foldl fadd fzero (take (Z.to_nat i) l) /\
       forall j, (j < Z.to_nat i)%nat ->
         st.2 !! j = Some (foldl fadd fzero (take (S j) l)))
    (fun path_id '(total_time, pos_times) =>
       t ← getitem l path_id;
       let total_time := fadd total_time t in
       pos_times ← setitem pos_times path_id total_time;
       Ok (total_time, pos_times))
    0 (Z.of_nat (length l)) (fzero, np_zeros (Z.of_nat (length l))))
    as ([tot r] & Hr & Hlen & _ & Hcells).
  - lia.
  - simpl. unfold np_zeros. rewrite length_replicate.
    split; [lia |]. split; [reflexivity | intros; lia].
  - intros i [tot arr] Hi (Hlen & Htot & Hcells). simpl in *.
    destruct (lookup_lt_is_Some_2 l (Z.to_nat i)) as [t Ht]; [lia |].
    rewrite (getitem_lookup l i t) by (assumption || lia). simpl.
    rewrite setitem_Ok by lia. simpl.
    eexists. split; [reflexivity |]. simpl.
    assert (Hsum : fadd tot t = foldl fadd fzero (take (S (Z.to_nat i)) l)).
    { rewrite (take_S_r l (Z.to_nat i) t Ht), foldl_app. simpl.
      by rewrite Htot. }
    rewrite length_insert. split; [assumption |].
    replace (Z.to_nat (i + 1)) with (S (Z.to_nat i)) by lia.
    split; [exact Hsum |].
    intros j Hj. destruct (decide (j = Z.to_nat i)) as [->|Hne].
    + rewrite list_lookup_insert_eq by lia. by rewrite Hsum.
    + rewrite list_lookup_insert_ne by lia. apply Hcells. lia.
  - cbv zeta in Hr. rewrite Hr. simpl. exists r. split; [reflexivity |].
    simpl in *. split; [exact Hlen |].
    intros j Hj. apply Hcells. lia.
Qed.

Lemma fadd_nan_l (a : pyfloat) : fadd NaN a = NaN.
Proof. reflexivity. Qed.

Lemma fadd_nan_r (a : pyfloat) : fadd a NaN = NaN.
Proof. by destruct a. Qed.

Section RoundedSums.

(** What the sums need of the rounding: it keeps the order, it leaves
    zero as it is, and it leaves a float as it is. *)
Hypothesis rnd_monotone :
  forall x y, (x ≤ y)%Qc -> fle (rnd x) (rnd y) = true.
Hypothesis rnd_zero : rnd 0%Qc = fzero.
Hypothesis rnd_idempotent : forall x y, rnd x = Fin y -> rnd y = Fin y.

Lemma rounded_fzero : rounded fzero.
Proof using rnd_zero. exact rnd_zero. Qed.

Lemma rounded_fadd (a b : pyfloat) : rounded (fadd a b).
Proof using rnd_idempotent.
  destruct a as [x|na|], b as [y|nb|]; simpl; try exact I.
  - destruct (rnd (x + y)%Qc) as [z| |] eqn:E; simpl; [| exact I | exact I].
    by apply (rnd_idempotent (x + y)%Qc).
  - by destruct (Bool.eqb na nb).
Qed.

(** Adding a number that is not negative to a float that is not negative
    gives a float that is not smaller. *)
Lemma fadd_increasing (a q : pyfloat) :
  rounded a -> fle fzero a = true -> fle fzero q = true ->
  fle a (fadd a q) = true.
Proof using rnd_monotone.
  destruct a as [x|[|]|], q as [y|[|]|];
    try (simpl; (discriminate || reflexivity)).
  intros Hx Ha Hq. cbn [rounded] in Hx. cbn [fadd].
  apply bool_decide_eq_true in Hq.
  rewrite <- Hx at 1. apply rnd_monotone.
  rewrite <- (Qcplus_0_r x) at 1. by apply Qcplus_le_mono_l.
Qed.

(** The sums of the loop never decrease while what is added is not
    negative. *)
Lemma foldl_fadd_increasing (l : list pyfloat) (a : pyfloat) :
  rounded a -> fle fzero a = true ->
  Forall (fun x => fle fzero x = true) l ->
  rounded (foldl fadd a l) /\ fle a (foldl fadd a l) = true.
Proof using rnd_monotone rnd_idempotent.
  revert a. induction l as [|x l IH]; intros a Hr Ha Hl; simpl.
  - split; [exact Hr | exact (fle_refl a fzero Ha)].
  - apply Forall_cons_1 in Hl as [Hx Hl].
    pose proof (fadd_increasing a x Hr Ha Hx) as Hstep.
    destruct (IH (fadd a x)) as [Hr' Hle];
      [apply rounded_fadd | by apply (fle_trans _ a) | exact Hl |].
    split; [exact Hr' | by apply (fle_trans _ (fadd a x))].
Qed.

(** C7.  On N + 1 travel times that are all non-negative, the first of
    them zero, [get_waypoint_times] returns N + 1 cumulative sums: entry
    [j] is the sum of the travel times 0 to [j], added in this order; they
    never decrease, the first of them is 0 and the last of them is the sum
    of all the travel times. *)
Theorem get_waypoint_times_cumulative (l : list pyfloat) (N : nat) :
  length l = S N ->
  Forall (fun x => fle fzero x = true) l ->
  l !! 0%nat = Some fzero ->
  exists r,
    get_waypoint_times l = Ok r /\
    length r = S N /\
    (forall j, (j <= N)%nat ->
       r !! j = Some (cumulative_sum (take (S j) l))) /\
    (forall i j x y, (i <= j)%nat ->
       r !! i = Some x -> r !! j = Some y -> fle x y = true) /\
    r !! 0%nat = Some fzero /\
    r !! N = Some (cumulative_sum l).
Proof using rnd_monotone rnd_zero rnd_idempotent.
  intros Hlen Hnn H0.
  destruct (get_waypoint_times_cells l) as (r & Hr & Hlen' & Hcells).
  exists r. split; [exact Hr |]. split; [congruence |].
  split; [intros j Hj; apply Hcells; lia |].
  split; [| split].
  - intros i j x y Hij Hi Hj.
    apply lookup_lt_Some in Hj as Hjl. rewrite Hlen' in Hjl.
    rewrite Hcells in Hi by lia. rewrite Hcells in Hj by lia.
    injection Hi as <-. injection Hj as <-.
    destruct (foldl_fadd_increasing (take (S i) l) fzero) as [Hri Hi0];
      [exact rounded_fzero | reflexivity | by apply Forall_take |].
    assert (Hsplit : take (S j) l = take (S i) l ++ drop (S i) (take (S j) l)).
    { rewrite <- (take_drop (S i) (take (S j) l)) at 1.
      rewrite take_take. f_equal. f_equal. lia. }
    unfold cumulative_sum. rewrite Hsplit, foldl_app.
    apply foldl_fadd_increasing;
      [exact Hri | exact Hi0 | by apply Forall_drop, Forall_take].
  - rewrite Hcells by lia. destruct l as [|x l]; [discriminate |].
    simpl in H0. inversion H0; subst x. unfold cumulative_sum.
    cbn [take foldl fadd fzero]. rewrite take_0. cbn [foldl].
    by rewrite Qcplus_0_l, rnd_zero.
  - rewrite Hcells by lia. by rewrite <- Hlen, firstn_all.
Qed.

End RoundedSums.

(** ** The spline fit *)

Lemma setitem2_Ok (arr : list (list pyfloat)) (i j : Z) (v : pyfloat)
    (row : list pyfloat) :
  0 <= i -> arr !! Z.to_nat i = Some row ->
  0 <= j < Z.of_nat (length row) ->
  setitem2 arr i j v = Ok (<[Z.to_nat i := <[Z.to_nat j := v]> row]> arr).
Proof.
  intros Hi Hrow Hj. unfold setitem2.
  rewrite (getitem_lookup arr i row) by assumption. simpl.
  rewrite setitem_Ok by assumption. simpl.
  apply setitem_Ok. apply lookup_lt_Some in Hrow. lia.
Qed.

(** The first loop of [get_spline_curve]: a row per waypoint, and a last
    row that is left at zero. *)
Lemma get_spline_curve_positions (wps : list Waypoint) :
  let N := Z.of_nat (length wps) in
  for_in (range 0 N) (fun waypoint_id positions =>
      cur_waypoint ← getitem wps waypoint_id;
      let cur_position := position cur_waypoint in
      let cur_gps_pos := gps_position cur_position in
      positions ← setitem2 positions waypoint_id 0 (latitude cur_gps_pos);
      positions ← setitem2 positions waypoint_id 1 (longitude cur_gps_pos);
      setitem2 positions waypoint_id 2 (altitude_msl cur_position))
    (np_zeros2 (N + 1) 3)
  = Ok ((position_row <$> wps) ++ [np_zeros 3]).
Proof.
  intros N.
  destruct (for_in_range_inv
    (fun i (pos : list (list pyfloat)) =>
       length pos = S (length wps) /\
       (forall j w, (j < Z.to_nat i)%nat -> wps !! j = Some w ->
          pos !! j = Some (position_row w)) /\
       (forall j, (Z.to_nat i <= j <= length wps)%nat ->
          pos !! j = Some (np_zeros 3)))
    (fun waypoint_id positions =>
      cur_waypoint ← getitem wps waypoint_id;
      let cur_position := position cur_waypoint in
      let cur_gps_pos := gps_position cur_position in
      positions ← setitem2 positions waypoint_id 0 (latitude cur_gps_pos);
      positions ← setitem2 positions waypoint_id 1 (longitude cur_gps_pos);
      setitem2 positions waypoint_id 2 (altitude_msl cur_position))
    0 N (np_zeros2 (N + 1) 3)) as (pos & Hpos & Hlen & Hrows & Hlast).
  - lia.
  - unfold np_zeros2. rewrite length_replicate.
    split; [lia |]. split; [intros; lia |].
    intros j Hj. apply lookup_replicate_2. lia.
  - intros i pos Hi (Hlen & Hrows & Hzero).
    destruct (lookup_lt_is_Some_2 wps (Z.to_nat i)) as [w Hw]; [lia |].
    rewrite (getitem_lookup wps i w) by (assumption || lia). simpl.
    rewrite (setitem2_Ok pos i 0 _ (np_zeros 3));
      [| lia | apply Hzero; lia | simpl; lia]. simpl.
    rewrite (setitem2_Ok _ i 1 _ (<[0%nat := latitude (gps_position (position w))]> (np_zeros 3)));
      [| lia | apply list_lookup_insert_eq; lia | simpl; lia ]. simpl.
    rewrite (setitem2_Ok _ i 2 _
      (<[1%nat := longitude (gps_position (position w))]>
         (<[0%nat := latitude (gps_position (position w))]> (np_zeros 3))));
      [| lia | apply list_lookup_insert_eq; rewrite length_insert; lia
       | simpl; lia ].
    eexists. split; [reflexivity |].
    rewrite !length_insert. split; [assumption |]. split.
    + intros j w' Hj Hw'. destruct (decide (j = Z.to_nat i)) as [->|Hne].
      * rewrite list_lookup_insert_eq by (rewrite !length_insert; lia).
        rewrite Hw in Hw'. inversion Hw'; subst. reflexivity.
      * rewrite !list_lookup_insert_ne by lia. apply Hrows; [lia | assumption].
    + intros j Hj. rewrite !list_lookup_insert_ne by lia. apply Hzero. lia.
  - rewrite Hpos. f_equal. apply list_eq. intros j.
    destruct (decide (j < length wps)%nat) as [Hj|Hj].
    + destruct (lookup_lt_is_Some_2 wps j Hj) as [w Hw].
      rewrite (Hrows j w) by (assumption || lia).
      rewrite lookup_app_l by (rewrite length_fmap; lia).
      rewrite list_lookup_fmap, Hw. reflexivity.
    + destruct (decide (j = length wps)) as [->|Hne].
      * rewrite Hlast by lia.
        rewrite lookup_app_r by (rewrite length_fmap; lia).
        rewrite length_fmap, Nat.sub_diag. reflexivity.
      * rewrite !lookup_ge_None_2;
          [reflexivity | rewrite length_app, length_fmap; simpl; lia | lia].
Qed.

Lemma column_positions (wps : list Waypoint) (d : nat)
    (coordinate : Waypoint -> pyfloat) :
  (forall w, position_row w !! d = Some (coordinate w)) ->
  np_zeros 3 !! d = Some fzero ->
  column ((position_row <$> wps) ++ [np_zeros 3]) (Z.of_nat d)
  = Ok ((coordinate <$> wps) ++ [fzero]).
Proof.
  intros Hrow Hz. unfold column.
  induction wps as [|w wps IH].
  - simpl. rewrite (getitem_nat _ d fzero) by assumption. reflexivity.
  - rewrite fmap_cons, <- app_comm_cons.
    change (mapM ?f (?x :: ?l)) with (y ← f x; k ← mapM f l; mret (y :: k)).
    cbv beta. rewrite (getitem_nat _ d (coordinate w)) by apply Hrow.
    rewrite IH. reflexivity.
Qed.

(** [get_spline_curve] after its first and last loops: the three fits are
    over the arrival times and over one ordinate per waypoint followed by a
    zero; the first fit that raises ends the call. *)
Lemma get_spline_curve_fit (self : MovingObstacle tck) (wps : list Waypoint) :
  get_spline_curve self wps =
    waypoint_travel_times ← get_inter_waypoint_travel_times self wps;
    pos_times ← get_waypoint_times waypoint_travel_times;
    total_travel_time ← getitem pos_times (Z.of_nat (length pos_times) - 1);
    let k := if Z.of_nat (length wps) >=? 3 then 3 else 2 in
    rep0 ← splrep pos_times
              (((fun w => latitude (gps_position (position w))) <$> wps)
                 ++ [fzero]) k 1;
    rep1 ← splrep pos_times
              (((fun w => longitude (gps_position (position w))) <$> wps)
                 ++ [fzero]) k 1;
    rep2 ← splrep pos_times
              (((fun w => altitude_msl (position w)) <$> wps) ++ [fzero]) k 1;
    Ok (total_travel_time, [rep0; rep1; rep2]).
Proof.
  unfold get_spline_curve.
  rewrite get_spline_curve_positions. cbn [mbind result_bind].
  destruct (get_inter_waypoint_travel_times self wps) as [tt|e];
    [| reflexivity].
  cbn [mbind result_bind].
  destruct (get_waypoint_times tt) as [pt|e]; [| reflexivity].
  cbn [mbind result_bind].
  destruct (getitem pt (Z.of_nat (length pt) - 1)) as [total|e];
    [| reflexivity].
  change (range 0 3) with [Z.of_nat 0; Z.of_nat 1; Z.of_nat 2].
  cbn [for_in mbind result_bind].
  rewrite (column_positions wps 0
             (fun w => latitude (gps_position (position w)))) by done.
  cbn [mbind result_bind].
  destruct (splrep pt _ _ 1) as [rep0|e]; [| reflexivity].
  cbn [mbind result_bind].
  rewrite (column_positions wps 1
             (fun w => longitude (gps_position (position w)))) by done.
  cbn [mbind result_bind].
  destruct (splrep pt _ _ 1) as [rep1|e]; [| reflexivity].
  cbn [mbind result_bind].
  rewrite (column_positions wps 2
             (fun w => altitude_msl (position w))) by done.
  cbn [mbind result_bind].
  destruct (splrep pt _ _ 1) as [rep2|e]; reflexivity.
Qed.

Lemma for_in_setitem_length {A V : Type} (idx : list Z)
    (f : Z -> result V) (g : V -> A) (arr arr' : list A) :
  for_in idx (fun i a => v ← f i; setitem a i (g v)) arr = Ok arr' ->
  length arr' = length arr.
Proof.
  revert arr. induction idx as [|i idx IH]; intros arr H; simpl in H.
  - by inversion H.
  - destruct (f i) as [v|e]; [| discriminate]. cbn [mbind result_bind] in H.
    destruct (setitem arr i (g v)) as [arr1|e] eqn:E; [| discriminate].
    cbn [mbind result_bind] in H. apply IH in H. rewrite H.
    unfold setitem in E.
    destruct ((0 <=? i) && (i <? Z.of_nat (length arr))); [| discriminate].
    inversion E. apply length_insert.
Qed.

Lemma get_inter_waypoint_travel_times_length (self : MovingObstacle tck)
    (wps : list Waypoint) (tt : list pyfloat) :
  get_inter_waypoint_travel_times self wps = Ok tt ->
  length tt = S (length wps).
Proof.
  unfold get_inter_waypoint_travel_times. intros H.
  apply for_in_setitem_length in H. rewrite H.
  unfold np_zeros. rewrite length_replicate. lia.
Qed.

(** What [get_spline_curve] returns when it returns: the last arrival time
    and three fits. *)
Lemma get_spline_curve_Ok (self : MovingObstacle tck) (wps : list Waypoint)
    (c : pyfloat * list tck) :
  get_spline_curve self wps = Ok c ->
  exists travel_times pos_times rep0 rep1 rep2,
    get_inter_waypoint_travel_times self wps = Ok travel_times /\
    get_waypoint_times travel_times = Ok pos_times /\
    pos_times !! length wps = Some c.1 /\
    c.1 = cumulative_sum travel_times /\
    c.2 = [rep0; rep1; rep2].
Proof.
  rewrite get_spline_curve_fit.
  destruct (get_inter_waypoint_travel_times self wps) as [tt|e] eqn:Htt;
    [| discriminate].
  cbn [mbind result_bind].
  pose proof (get_inter_waypoint_travel_times_length self wps tt Htt) as Hlen.
  destruct (get_waypoint_times_cells tt) as (pt & Hpt & Hlen' & Hcells).
  rewrite Hpt. cbn [mbind result_bind].
  destruct (lookup_lt_is_Some_2 pt (length wps)) as [total Htotal]; [lia |].
  rewrite (getitem_lookup pt _ total);
    [| lia | replace (Z.to_nat (Z.of_nat (length pt) - 1))
               with (length wps) by lia; exact Htotal].
  cbn [mbind result_bind]. cbv zeta.
  destruct (splrep pt
              (((fun w => latitude (gps_position (position w))) <$> wps)
                 ++ [fzero]) _ 1) as [rep0|e];
    cbn [mbind result_bind]; [| discriminate].
  destruct (splrep pt
              (((fun w => longitude (gps_position (position w))) <$> wps)
                 ++ [fzero]) _ 1) as [rep1|e];
    cbn [mbind result_bind]; [| discriminate].
  destruct (splrep pt _ _ 1) as [rep2|e];
    cbn [mbind result_bind]; [| discriminate].
  intros Hc. inversion Hc; subst c. cbn [fst snd].
  exists tt, pt, rep0, rep1, rep2.
  split; [reflexivity |]. split; [exact Hpt |]. split; [exact Htotal |].
  split; [| reflexivity].
  rewrite Hcells in Htotal by lia. inversion Htotal.
  unfold cumulative_sum. by rewrite <- Hlen, firstn_all.
Qed.

(** C5, amended.  For each of latitude, longitude and altitude,
    [get_spline_curve] hands the periodic fit the cumulative arrival times,
    whose last entry is the total circuit period that it returns, and N + 1
    ordinates: the coordinate of waypoint [k] for [k < N], and a last
    ordinate that is left at 0 (it is not a repeat of the first).  It
    returns the three fits, or raises what the first failing fit raises. *)
Theorem get_spline_curve_control_points (self : MovingObstacle tck)
    (wps : list Waypoint) :
  let N := length wps in
  let k := if Z.of_nat N >=? 3 then 3 else 2 in
  let ordinates (coordinate : Waypoint -> pyfloat) :=
    (coordinate <$> wps) ++ [fzero] in
  exists travel_times pos_times total,
    get_inter_waypoint_travel_times self wps = Ok travel_times /\
    get_waypoint_times travel_times = Ok pos_times /\
    length pos_times = S N /\
    pos_times !! N = Some total /\
    get_spline_curve self wps =
      (rep0 ← splrep pos_times
                (ordinates (fun w => latitude (gps_position (position w))))
                k 1;
       rep1 ← splrep pos_times
                (ordinates (fun w => longitude (gps_position (position w))))
                k 1;
       rep2 ← splrep pos_times
                (ordinates (fun w => altitude_msl (position w))) k 1;
       Ok (total, [rep0; rep1; rep2])).
Proof using knots_nonzero.
  intros N k ordinates.
  destruct (get_inter_waypoint_travel_times_cells self wps)
    as (tt & Htt & Hlen & _).
  destruct (get_waypoint_times_cells tt) as (pt & Hpt & Hlen' & _).
  destruct (lookup_lt_is_Some_2 pt N) as [total Htotal]; [lia |].
  exists tt, pt, total. split; [exact Htt |]. split; [exact Hpt |].
  split; [lia |]. split; [exact Htotal |].
  rewrite get_spline_curve_fit, Htt. cbn [mbind result_bind].
  rewrite Hpt. cbn [mbind result_bind].
  rewrite (getitem_lookup pt _ total);
    [reflexivity | lia |].
  replace (Z.to_nat (Z.of_nat (length pt) - 1)) with N by lia.
  exact Htotal.
Qed.

(** ** Consecutive duplicates *)

Lemma fne_zero_true (x : pyfloat) : fne x fzero = true <-> x <> fzero.
Proof.
  destruct x as [q|negative|]; simpl; try (split; [discriminate | reflexivity]).
  rewrite negb_true_iff, bool_decide_eq_false. unfold fzero.
  split; [intros H E; inversion E; contradiction | intros H E; subst; contradiction].
Qed.

Lemma dedup_from_snoc (p : Waypoint) (l : list Waypoint) (a : Waypoint) :
  dedup_from p (l ++ [a]) =
  dedup_from p l ++
    (if fne (Waypoint_distance_to a (default p (last l))) fzero
     then [a] else []).
Proof.
  revert p. induction l as [|x l IH]; intros p; simpl.
  - destruct (fne _ _); reflexivity.
  - rewrite IH.
    assert (Hlast : default p (last (x :: l)) = default x (last l)).
    { rewrite last_cons. destruct (last l); reflexivity. }
    simpl in Hlast. rewrite Hlast.
    destruct (fne (Waypoint_distance_to x p) fzero); reflexivity.
Qed.

Lemma dedup_snoc (l : list Waypoint) (a b : Waypoint) :
  last l = Some b ->
  dedup (l ++ [a]) =
  dedup l ++ (if fne (Waypoint_distance_to a b) fzero then [a] else []).
Proof.
  destruct l as [|x l]; [discriminate |]. intros Hlast. simpl.
  rewrite dedup_from_snoc. f_equal. rewrite last_cons in Hlast.
  destruct (last l); inversion Hlast; subst; reflexivity.
Qed.

(** The comprehension never raises, and keeps what [dedup] keeps. *)
Lemma filter_consecutive_duplicates_dedup (l : list Waypoint) :
  filter_consecutive_duplicates l = Ok (dedup l).
Proof.
  unfold filter_consecutive_duplicates.
  destruct (for_in_range_inv
    (fun i kept => kept = dedup (take (Z.to_nat i) l))
    (fun i kept =>
      keep ← (if i =? 0 then Ok true
              else a ← getitem l i;
                   b ← getitem l (i - 1);
                   Ok (fne (Waypoint_distance_to a b) fzero));
      if keep : bool then a ← getitem l i; Ok (kept ++ [a])
      else Ok kept)
    0 (Z.of_nat (length l)) []) as (kept & Hk & Hinv).
  - lia.
  - reflexivity.
  - intros i kept Hi ->.
    destruct (lookup_lt_is_Some_2 l (Z.to_nat i)) as [a Ha]; [lia |].
    replace (Z.to_nat (i + 1)) with (S (Z.to_nat i)) by lia.
    rewrite (take_S_r l _ a Ha).
    rewrite (getitem_lookup l i a) by (assumption || lia).
    destruct (i =? 0) eqn:E.
    + assert (i = 0) by lia. subst i. simpl.
      eexists. split; reflexivity.
    + destruct (lookup_lt_is_Some_2 l (Z.to_nat (i - 1))) as [b Hb]; [lia |].
      rewrite (getitem_lookup l (i - 1) b) by (assumption || lia).
      cbn [mbind result_bind].
      assert (Hlast : last (take (Z.to_nat i) l) = Some b).
      { rewrite last_lookup, length_take, lookup_take.
        replace (Init.Nat.pred (Z.to_nat i `min` length l))
          with (Z.to_nat (i - 1)) by lia.
        rewrite decide_True by lia. exact Hb. }
      rewrite (dedup_snoc _ a b Hlast).
      destruct (fne (Waypoint_distance_to a b) fzero).
      * eexists. split; reflexivity.
      * eexists. split; [reflexivity |]. by rewrite app_nil_r.
  - rewrite Hk, Hinv. rewrite Nat2Z.id, firstn_all. reflexivity.
Qed.

Section Coincidence.

(** The distance between two waypoints is zero exactly when their positions
    coincide. *)
Hypothesis distance_zero_iff :
  forall a b, Waypoint_distance_to a b = fzero <-> position a = position b.

Lemma dedup_from_idempotent (l : list Waypoint) (p p' : Waypoint) :
  position p = position p' ->
  dedup_from p' (dedup_from p l) = dedup_from p l.
Proof using distance_zero_iff.
  revert p p'. induction l as [|x l IH]; intros p p' Hp; simpl.
  - reflexivity.
  - destruct (fne (Waypoint_distance_to x p) fzero) eqn:E.
    + simpl.
      assert (E' : fne (Waypoint_distance_to x p') fzero = true).
      { apply fne_zero_true. apply fne_zero_true in E.
        intros H0. apply E. apply distance_zero_iff.
        apply distance_zero_iff in H0. congruence. }
      rewrite E'. f_equal. apply IH. reflexivity.
    + apply IH.
      apply not_true_iff_false in E. rewrite fne_zero_true in E.
      destruct (decide (Waypoint_distance_to x p = fzero)) as [H0|H0];
        [| contradiction].
      apply distance_zero_iff in H0. congruence.
Qed.

Lemma dedup_idempotent (l : list Waypoint) : dedup (dedup l) = dedup l.
Proof using distance_zero_iff.
  destruct l as [|x l]; simpl; [reflexivity |].
  f_equal. apply dedup_from_idempotent. reflexivity.
Qed.

(** C8.  The pass that keeps index 0 and keeps index [i > 0] only when the
    distance from waypoint [i] to waypoint [i - 1] is not 0 is idempotent,
    when the distance is zero exactly for coinciding positions: the pass
    returns its own output unchanged. *)
Theorem filter_consecutive_duplicates_idempotent (l : list Waypoint) :
  exists l',
    filter_consecutive_duplicates l = Ok l' /\
    filter_consecutive_duplicates l' = Ok l'.
Proof using distance_zero_iff.
  exists (dedup l). split; [apply filter_consecutive_duplicates_dedup |].
  rewrite filter_consecutive_duplicates_dedup. f_equal.
  apply dedup_idempotent.
Qed.

End Coincidence.

(** ** Positions *)

Ltac fields :=
  cbn [fst snd obj ticks waypoints speed_avg sphere_radius
       preprocessed_waypoints preprocessed_spline_curve
       mbind result_bind] in *.

Ltac sample_tail :=
  unfold sample_spline_curve, replace_epoch, in_utc;
  cbn [utcoffset fst snd mbind result_bind];
  change (mk_datetime 1970 1 1 0 0 0 0 0) with unix_epoch;
  repeat match goal with
         | |- context [getitem ?l ?i] => destruct (getitem l i)
         end;
  fields; repeat split; eauto.

Lemma get_spline_curve_speed (o o' : MovingObstacle tck) (w : list Waypoint) :
  speed_avg o = speed_avg o' -> get_spline_curve o w = get_spline_curve o' w.
Proof.
  intros H. unfold get_spline_curve, get_inter_waypoint_travel_times,
    get_waypoint_travel_time.
  rewrite H. reflexivity.
Qed.

Lemma replace_epoch_in_utc (d : datetime) :
  replace_epoch (in_utc d) = unix_epoch.
Proof. reflexivity. Qed.

(** What a call of [get_position] returns and what it leaves on the
    instance. *)
Lemma get_position_cases (cur_time : option datetime) (s : state tck)
    (w : list Waypoint) :
  let o := obj s in
  let t := match cur_time with
           | Some t => t
           | None => in_utc (clock (ticks s))
           end in
  let out := get_position cur_time s in
  waypoints_in_use o = Ok w ->
  out.1 =
    (if Z.of_nat (length w) =? 0 then Ok (fzero, fzero, fzero)
     else if (Z.of_nat (length w) =? 1) || fle (speed_avg o) fzero then
       wpt ← getitem w 0;
       Ok (latitude (gps_position (position wpt)),
           longitude (gps_position (position wpt)),
           altitude_msl (position wpt))
     else c ← spline_curve_in_use o w; sample_spline_curve c t) /\
  waypoints (obj out.2) = waypoints o /\
  speed_avg (obj out.2) = speed_avg o /\
  sphere_radius (obj out.2) = sphere_radius o /\
  preprocessed_waypoints (obj out.2) = Some w /\
  (preprocessed_spline_curve (obj out.2) = preprocessed_spline_curve o \/
   exists c, spline_curve_in_use o w = Ok c /\
             preprocessed_spline_curve (obj out.2) = Some c).
Proof.
  intros o t out Hw. subst out.
  unfold get_position.
  unfold mbind, M_bind, mret, M_ret, get_self, lift, timezone_now,
    set_preprocessed_waypoints, set_preprocessed_spline_curve.
  destruct s as [o0 n]. subst o. subst t.
  unfold waypoints_in_use in Hw. unfold spline_curve_in_use.
  destruct cur_time as [t0|]; fields;
    (destruct (preprocessed_waypoints o0) as [w0|] eqn:Epw;
     [ inversion Hw; subst w0 | rewrite Hw ]; fields).
  all: destruct (Z.of_nat (length w) =? 0) eqn:E0; fields;
    [ repeat split; auto |].
  all: destruct ((Z.of_nat (length w) =? 1) || fle (speed_avg o0) fzero)
         eqn:E1; fields;
    [ destruct (getitem w 0); fields; repeat split; auto |].
  all: destruct (preprocessed_spline_curve o0) as [[T reps]|] eqn:Epsc; fields;
    [ sample_tail |].
  all: try rewrite (get_spline_curve_speed _ o0 w) by reflexivity.
  all: destruct (get_spline_curve o0 w) as [[T reps]|e] eqn:Ec; fields;
    [ sample_tail | repeat split; auto ].
Qed.

Lemma waypoints_in_use_Ok (o : MovingObstacle tck) :
  exists w, waypoints_in_use o = Ok w.
Proof.
  unfold waypoints_in_use. destruct (preprocessed_waypoints o); [eauto |].
  rewrite filter_consecutive_duplicates_dedup. eauto.
Qed.

(** C2.  Whatever the time (given or read from the clock), when the
    waypoints that [get_position] works on are none, it returns (0, 0, 0)
    and does not fail; when there is exactly one of them, or when
    [speed_avg <= 0] and there is at least one, it returns the latitude,
    longitude and altitude of the first. *)
Theorem get_position_stationary (cur_time : option datetime) (s : state tck)
    (w : list Waypoint) :
  waypoints_in_use (obj s) = Ok w ->
  (length w = 0%nat ->
     (get_position cur_time s).1 = Ok (fzero, fzero, fzero)) /\
  (forall wpt, w !! 0%nat = Some wpt ->
     length w = 1%nat \/ fle (speed_avg (obj s)) fzero = true ->
     (get_position cur_time s).1 =
       Ok (latitude (gps_position (position wpt)),
           longitude (gps_position (position wpt)),
           altitude_msl (position wpt))).
Proof.
  intros Hw. destruct (get_position_cases cur_time s w Hw) as (Hres & _).
  rewrite Hres. split.
  - intros ->. reflexivity.
  - intros wpt Hwpt Hcase.
    apply lookup_lt_Some in Hwpt as Hlen.
    destruct (Z.of_nat (length w) =? 0) eqn:E0; [lia |].
    assert (E1 : (Z.of_nat (length w) =? 1) || fle (speed_avg (obj s)) fzero
                 = true).
    { apply orb_true_iff. destruct Hcase as [H1|H1]; [left; lia | by right]. }
    rewrite E1. rewrite (getitem_lookup w 0 wpt) by (assumption || lia).
    reflexivity.
Qed.

(** ** The attributes *)

Lemma coherent_fresh (wps : list Waypoint) (speed radius : pyfloat) :
  coherent (fresh wps speed radius).
Proof. split; intros x Hx; discriminate. Qed.

Lemma coherent_waypoints_in_use (o : MovingObstacle tck) :
  coherent o ->
  waypoints_in_use o =
    filter_consecutive_duplicates (order_by_order (waypoints o)).
Proof.
  intros [Hw _]. unfold waypoints_in_use.
  destruct (preprocessed_waypoints o) as [w|]; [| reflexivity].
  symmetry. by apply Hw.
Qed.

Lemma coherent_spline_curve_in_use (o : MovingObstacle tck)
    (w : list Waypoint) :
  coherent o -> waypoints_in_use o = Ok w ->
  spline_curve_in_use o w = get_spline_curve o w.
Proof.
  intros Hco Hw. rewrite (coherent_waypoints_in_use o Hco) in Hw.
  destruct Hco as [_ Hc]. unfold spline_curve_in_use.
  destruct (preprocessed_spline_curve o) as [c|]; [| reflexivity].
  destruct (Hc c eq_refl) as (w' & Hw' & Hc').
  rewrite Hw in Hw'. inversion Hw'; subst w'. by rewrite Hc'.
Qed.

(** A call of [get_position] keeps the model fields and leaves coherent
    attributes. *)
Lemma get_position_keeps (cur_time : option datetime) (s : state tck) :
  let s' := (get_position cur_time s).2 in
  waypoints (obj s') = waypoints (obj s) /\
  speed_avg (obj s') = speed_avg (obj s) /\
  sphere_radius (obj s') = sphere_radius (obj s) /\
  (coherent (obj s) -> coherent (obj s')).
Proof.
  intros s'. destruct (waypoints_in_use_Ok (obj s)) as [w Hw].
  destruct (get_position_cases cur_time s w Hw)
    as (_ & Hwp & Hsp & Hra & Hpw & Hpsc).
  fold s' in Hwp, Hsp, Hra, Hpw, Hpsc.
  split; [exact Hwp |]. split; [exact Hsp |]. split; [exact Hra |].
  intros Hco.
  pose proof (coherent_spline_curve_in_use (obj s) w Hco Hw) as Hsc.
  rewrite (coherent_waypoints_in_use (obj s) Hco) in Hw.
  split.
  - intros w' Hw'. rewrite Hpw in Hw'. inversion Hw'; subst w'.
    by rewrite Hwp.
  - intros c Hc. exists w. rewrite Hwp. split; [exact Hw |].
    rewrite (get_spline_curve_speed (obj s') (obj s) w Hsp).
    destruct Hpsc as [Hsame|(c' & Hc' & Hnew)].
    + rewrite Hsame in Hc. rewrite <- Hsc. unfold spline_curve_in_use.
      by rewrite Hc.
    + rewrite Hnew in Hc. inversion Hc; subst c'. by rewrite <- Hsc.
Qed.

Lemma run_coherent (wps : list Waypoint) (speed radius : pyfloat)
    (s : state tck) :
  run wps speed radius s ->
  waypoints (obj s) = wps /\ speed_avg (obj s) = speed /\
  sphere_radius (obj s) = radius /\ coherent (obj s).
Proof.
  induction 1 as [n|s cur_time Hrun (Hwp & Hsp & Hra & Hco)].
  - repeat split; try reflexivity; intros x Hx; discriminate.
  - destruct (get_position_keeps cur_time s) as (Hwp' & Hsp' & Hra' & Hco').
    repeat split; try congruence; by apply Hco'.
Qed.

(** On coherent instances of the same obstacle, a call with a given time
    returns the same thing. *)
Lemma get_position_coherent (t : datetime) (s1 s2 : state tck) :
  coherent (obj s1) -> coherent (obj s2) ->
  waypoints (obj s1) = waypoints (obj s2) ->
  speed_avg (obj s1) = speed_avg (obj s2) ->
  (get_position (Some t) s1).1 = (get_position (Some t) s2).1.
Proof.
  intros Hco1 Hco2 Hwp Hsp.
  destruct (waypoints_in_use_Ok (obj s1)) as [w Hw1].
  assert (Hw2 : waypoints_in_use (obj s2) = Ok w).
  { rewrite (coherent_waypoints_in_use _ Hco2), <- Hwp,
      <- (coherent_waypoints_in_use _ Hco1). exact Hw1. }
  destruct (get_position_cases (Some t) s1 w Hw1) as (-> & _).
  destruct (get_position_cases (Some t) s2 w Hw2) as (-> & _).
  rewrite (coherent_spline_curve_in_use _ w Hco1 Hw1).
  rewrite (coherent_spline_curve_in_use _ w Hco2 Hw2).
  rewrite (get_spline_curve_speed (obj s1) (obj s2) w Hsp).
  rewrite Hsp. reflexivity.
Qed.

(** C9.  Within a run, two calls of [get_position] with the same time
    return the same triple (or fail alike), whichever calls came before and
    whichever of them attached the waypoints and the spline curve: the
    epoch that the seconds are counted from is the same at every call. *)
Theorem get_position_deterministic (wps : list Waypoint)
    (speed radius : pyfloat) (s1 s2 : state tck) (t : datetime) :
  run wps speed radius s1 ->
  run wps speed radius s2 ->
  (get_position (Some t) s1).1 = (get_position (Some t) s2).1.
Proof.
  intros H1 H2.
  apply run_coherent in H1 as (Hwp1 & Hsp1 & _ & Hco1).
  apply run_coherent in H2 as (Hwp2 & Hsp2 & _ & Hco2).
  apply get_position_coherent; congruence.
Qed.

(** ** The circuit period *)

Local Open Scope Qc_scope.



Lemma Qcdiv_nonneg (d f : Qc) : 0 ≤ d -> 0 < f -> 0 ≤ d / f.
Proof.
  intros Hd Hf. apply (Qcmult_le_mono_pos_r _ _ f Hf).
  rewrite Qcmult_0_l.
  replace (d / f * f) with d; [done |].
  field. intros ->. by apply (Qclt_not_eq 0 0).
Qed.

Local Close Scope Qc_scope.



Section Geometry.

(** The distance between two waypoints is a number that is not negative,
    and is zero exactly when their positions coincide; a positive speed in
    knots is a positive speed in feet per second.  The rounding keeps the
    order and leaves zero as it is. *)
Hypothesis distance_nonneg :
  forall a b, exists d, Waypoint_distance_to a b = Fin d /\ (0 ≤ d)%Qc.
Hypothesis distance_zero_iff :
  forall a b, Waypoint_distance_to a b = fzero <-> position a = position b.
Hypothesis knots_positive :
  forall s, flt fzero s = true ->
    flt fzero (knots_to_feet_per_second s) = true.
Hypothesis rnd_monotone :
  forall x y, (x ≤ y)%Qc -> fle (rnd x) (rnd y) = true.
Hypothesis rnd_zero : rnd 0%Qc = fzero.

Lemma dedup_from_head (p : Waypoint) (l : list Waypoint) (y : Waypoint) :
  head (dedup_from p l) = Some y -> position y <> position p.
Proof using distance_zero_iff.
  revert p. induction l as [|x l IH]; intros p; simpl; [discriminate |].
  destruct (fne (Waypoint_distance_to x p) fzero) eqn:E; simpl.
  - intros Hy. inversion Hy; subst y. apply fne_zero_true in E.
    intros Hpos. apply E. by apply distance_zero_iff.
  - intros Hy. apply IH in Hy.
    apply not_true_iff_false in E. rewrite fne_zero_true in E.
    destruct (decide (Waypoint_distance_to x p = fzero)) as [H0|H0];
      [| contradiction].
    apply distance_zero_iff in H0. congruence.
Qed.

(** The leg between two waypoints takes a time that is not negative, and
    no time when their positions coincide. *)
Lemma leg_time (self : MovingObstacle tck) (a b : Waypoint) (t : pyfloat) :
  flt fzero (speed_avg self) = true ->
  truediv (Waypoint_distance_to a b)
    (knots_to_feet_per_second (speed_avg self)) = Ok t ->
  fle fzero t = true /\ (position a = position b -> t = fzero).
Proof using knots_positive distance_zero_iff distance_nonneg rnd_monotone rnd_zero.
  intros Hs Ht.
  pose proof (knots_positive _ Hs) as Hf.
  destruct (distance_nonneg a b) as (d & Hd & Hdpos).
  assert (Hzero : position a = position b -> d = 0%Qc).
  { intros Hpos. apply distance_zero_iff in Hpos. rewrite Hd in Hpos.
    exact (f_equal (fun x => match x with Fin y => y | _ => d end) Hpos). }
  rewrite Hd in Ht. unfold truediv in Ht.
  destruct (knots_to_feet_per_second (speed_avg self)) as [f|[|]|];
    simpl in Hf; try discriminate.
  - apply bool_decide_eq_true in Hf.
    rewrite bool_decide_eq_false_2 in Ht
      by (intros ->; by apply (Qclt_not_eq 0%Qc 0%Qc)).
    inversion Ht; subst t. split.
    + rewrite <- rnd_zero. apply rnd_monotone. by apply Qcdiv_nonneg.
    + intros Hpos. rewrite (Hzero Hpos). unfold Qcdiv.
      by rewrite Qcmult_0_l.
  - inversion Ht; subst t. split; [reflexivity | done].
Qed.

End Geometry.

(** ** Collisions *)

Lemma same_obstacle_refl (s : state tck) :
  coherent (obj s) -> same_obstacle s s.
Proof. intros H. exact (conj H (conj H (conj eq_refl eq_refl))). Qed.

(** A call of [get_position] leaves a state of the same obstacle. *)
Lemma same_obstacle_step (s0 s : state tck) (cur_time : option datetime) :
  same_obstacle s0 s -> same_obstacle s0 (get_position cur_time s).2.
Proof.
  intros (Hco0 & Hco & Hwp & Hsp).
  destruct (get_position_keeps cur_time s) as (Hwp' & Hsp' & _ & Hco').
  split; [assumption |]. split; [by apply Hco' |]. split; congruence.
Qed.

Lemma same_obstacle_position (s0 s : state tck) (t : datetime) :
  same_obstacle s0 s ->
  (get_position (Some t) s).1 = (get_position (Some t) s0).1.
Proof.
  intros (Hco0 & Hco & Hwp & Hsp). by apply get_position_coherent.
Qed.

Lemma same_obstacle_inside_at (s0 s : state tck) (log : UasTelemetry) :
  same_obstacle s0 s ->
  sphere_radius (obj s) = sphere_radius (obj s0) ->
  inside_at s log = inside_at s0 log.
Proof.
  intros Hsame Hra. unfold inside_at.
  rewrite (same_obstacle_position s0 s _ Hsame).
  destruct (get_position (Some (timestamp log)) s0).1 as [[[lat lon] alt]|e];
    [| reflexivity].
  unfold contains_pos. by rewrite Hra.
Qed.

(** On coherent attributes [get_position] raises exactly when it needs the
    spline curve and [get_spline_curve] raises, and then it raises the
    same exception. *)
Lemma get_position_Raise (cur_time : option datetime) (s : state tck)
    (w : list Waypoint) (e : exn) :
  coherent (obj s) ->
  waypoints_in_use (obj s) = Ok w ->
  (get_position cur_time s).1 = Raise e <->
  (2 <= length w)%nat /\ fle (speed_avg (obj s)) fzero = false /\
  get_spline_curve (obj s) w = Raise e.
Proof.
  intros Hco Hw.
  destruct (get_position_cases cur_time s w Hw) as (-> & _).
  rewrite (coherent_spline_curve_in_use _ w Hco Hw).
  destruct (Z.of_nat (length w) =? 0) eqn:E0;
    [split; [discriminate | intros (? & _); lia] |].
  destruct (Z.of_nat (length w) =? 1) eqn:E1; cbn [orb].
  { destruct (lookup_lt_is_Some_2 w 0%nat) as [wpt Hwpt]; [lia |].
    rewrite (getitem_lookup w 0 wpt) by (assumption || lia).
    split; [discriminate | intros (? & _); lia]. }
  destruct (fle (speed_avg (obj s)) fzero) eqn:Es.
  { destruct (lookup_lt_is_Some_2 w 0%nat) as [wpt Hwpt]; [lia |].
    rewrite (getitem_lookup w 0 wpt) by (assumption || lia).
    split; [discriminate | intros (_ & ? & _); discriminate]. }
  destruct (get_spline_curve (obj s) w) as [c|e'] eqn:Hc;
    cbn [mbind result_bind].
  - destruct (get_spline_curve_Ok (obj s) w c Hc)
      as (_ & _ & rep0 & rep1 & rep2 & _ & _ & _ & _ & Hreps).
    unfold sample_spline_curve. rewrite Hreps.
    change (getitem [rep0; rep1; rep2] 0) with (Ok rep0).
    change (getitem [rep0; rep1; rep2] 1) with (Ok rep1).
    change (getitem [rep0; rep1; rep2] 2) with (Ok rep2).
    cbn [mbind result_bind].
    split; [discriminate | intros (_ & _ & ?); discriminate].
  - split; [intros H; inversion H; subst; repeat split; (lia || done)
           | intros (_ & _ & H); by inversion H].
Qed.

(** Whether [get_position] returns does not depend on the time. *)
Lemma get_position_Ok_any_time (s : state tck) (t0 : datetime)
    (p0 : pyfloat * pyfloat * pyfloat) (cur_time : option datetime) :
  coherent (obj s) ->
  (get_position (Some t0) s).1 = Ok p0 ->
  exists p, (get_position cur_time s).1 = Ok p.
Proof.
  intros Hco H0. destruct (waypoints_in_use_Ok (obj s)) as [w Hw].
  destruct (get_position cur_time s).1 as [p|e] eqn:E; [eauto |].
  apply (get_position_Raise cur_time s w e Hco Hw) in E.
  apply (get_position_Raise (Some t0) s w e Hco Hw) in E.
  rewrite H0 in E. discriminate.
Qed.

(** The loop reads the positions of the obstacle: the attributes that the
    calls attach on the way do not change its outcome. *)
Lemma evaluate_collision_loop_outcome (samples : list UasTelemetry)
    (s0 s : state tck) :
  same_obstacle s0 s ->
  sphere_radius (obj s) = sphere_radius (obj s0) ->
  (evaluate_collision_loop samples s).1 = collision_outcome s0 samples.
Proof.
  revert s. induction samples as [|log rest IH]; intros s Hsame Hra.
  - reflexivity.
  - cbn [evaluate_collision_loop collision_outcome].
    unfold mbind, M_bind at 1.
    destruct (get_position_keeps (Some (timestamp log)) s)
      as (_ & _ & Hra' & _).
    pose proof (same_obstacle_step s0 s (Some (timestamp log)) Hsame)
      as Hsame'.
    rewrite <- (same_obstacle_position s0 s (timestamp log) Hsame).
    destruct (get_position (Some (timestamp log)) s) as [r s'].
    cbn [fst snd] in *. destruct r as [[[lat lon] alt]|e]; [| reflexivity].
    unfold M_bind, get_self.
    assert (Hcp : contains_pos (obj s') lat lon alt (uas_position log) =
                  contains_pos (obj s0) lat lon alt (uas_position log)).
    { unfold contains_pos. by rewrite Hra', Hra. }
    rewrite Hcp.
    destruct (contains_pos (obj s0) lat lon alt (uas_position log));
      [reflexivity |].
    apply IH; [exact Hsame' | congruence].
Qed.

(** Where the position is defined at the time of every log, the outcome
    is whether one of the logs is inside the sphere. *)
Lemma collision_outcome_existsb (s : state tck) (samples : list UasTelemetry) :
  (forall log, log ∈ samples ->
     exists p, (get_position (Some (timestamp log)) s).1 = Ok p) ->
  collision_outcome s samples = Ok (existsb (inside_at s) samples).
Proof.
  induction samples as [|log rest IH]; intros Hdef; [reflexivity |].
  cbn [collision_outcome existsb]. unfold inside_at at 1.
  destruct (Hdef log) as [[[lat lon] alt] Hp]; [by left |].
  rewrite Hp.
  destruct (contains_pos (obj s) lat lon alt (uas_position log));
    [reflexivity |].
  cbn [orb]. apply IH. intros log' Hin. apply Hdef. by right.
Qed.


(** ** The filtered waypoints *)

Lemma dedup_from_sublist (p : Waypoint) (l : list Waypoint) :
  dedup_from p l `sublist_of` l.
Proof.
  revert p. induction l as [|x l IH]; intros p; simpl.
  - constructor.
  - destruct (fne (Waypoint_distance_to x p) fzero).
    + apply sublist_skip, IH.
    + apply sublist_cons, IH.
Qed.

(** X2.  The comprehension of [get_position] returns a sublist of the
    waypoints, in their order, that starts with the same waypoint: it is
    empty only for no waypoints. *)
Theorem filter_consecutive_duplicates_sublist (l : list Waypoint) :
  exists l',
    filter_consecutive_duplicates l = Ok l' /\
    l' `sublist_of` l /\
    head l' = head l.
Proof.
  exists (dedup l). split; [apply filter_consecutive_duplicates_dedup |].
  destruct l as [|x l]; simpl.
  - split; [constructor | reflexivity].
  - split; [apply sublist_skip, dedup_from_sublist | reflexivity].
Qed.

Lemma dedup_from_same_position (p : Waypoint) (l : list Waypoint) :
  (forall a b, position a = position b -> Waypoint_distance_to a b = fzero) ->
  Forall (fun y => position y = position p) l ->
  dedup_from p l = [].
Proof.
  intros Hzero. revert p. induction l as [|x l IH]; intros p Hl; simpl.
  - reflexivity.
  - apply Forall_cons_1 in Hl as [Hx Hl].
    rewrite (Hzero x p Hx).
    replace (fne fzero fzero) with false by reflexivity.
    apply IH. eapply Forall_impl; [exact Hl |].
    intros y Hy. simpl in Hy. congruence.
Qed.

(** X3.  When the distance between coinciding positions is 0, waypoints
    that are all at the position of the first are filtered down to the
    first alone. *)
Theorem filter_consecutive_duplicates_collapse (x : Waypoint)
    (l : list Waypoint) :
  (forall a b, position a = position b -> Waypoint_distance_to a b = fzero) ->
  Forall (fun y => position y = position x) l ->
  filter_consecutive_duplicates (x :: l) = Ok [x].
Proof.
  intros Hzero Hl. rewrite filter_consecutive_duplicates_dedup. simpl.
  by rewrite dedup_from_same_position.
Qed.

Section Adjacent.

Hypothesis distance_zero_iff :
  forall a b, Waypoint_distance_to a b = fzero <-> position a = position b.

Lemma dedup_from_adjacent (p : Waypoint) (l : list Waypoint) (i : nat)
    (a b : Waypoint) :
  dedup_from p l !! i = Some a -> dedup_from p l !! S i = Some b ->
  position a <> position b.
Proof using distance_zero_iff.
  revert p i. induction l as [|x l IH]; intros p i; simpl; [discriminate |].
  destruct (fne (Waypoint_distance_to x p) fzero); [| apply IH].
  destruct i as [|i]; simpl; [| apply IH].
  intros Ha Hb. inversion Ha; subst x. intros Hpos.
  apply (dedup_from_head distance_zero_iff a l b); [| by symmetry].
  by destruct (dedup_from a l); simplify_eq/=.
Qed.

Lemma dedup_adjacent (l : list Waypoint) (i : nat) (a b : Waypoint) :
  dedup l !! i = Some a -> dedup l !! S i = Some b ->
  position a <> position b.
Proof using distance_zero_iff.
  destruct l as [|x l]; simpl; [discriminate |].
  destruct i as [|i]; simpl; [| apply dedup_from_adjacent].
  intros Ha Hb. inversion Ha; subst x. intros Hpos.
  apply (dedup_from_head distance_zero_iff a l b); [| by symmetry].
  by destruct (dedup_from a l); simplify_eq/=.
Qed.

(** X1.  When the distance is zero exactly for coinciding positions, no
    two neighbours in the filtered waypoints are at the same position. *)
Theorem filter_consecutive_duplicates_adjacent (l : list Waypoint) :
  exists l',
    filter_consecutive_duplicates l = Ok l' /\
    forall i a b,
      l' !! i = Some a -> l' !! S i = Some b -> position a <> position b.
Proof using distance_zero_iff.
  exists (dedup l). split; [apply filter_consecutive_duplicates_dedup |].
  intros i a b. apply dedup_adjacent.
Qed.

End Adjacent.

(** ** Degenerate travel times *)

Lemma get_waypoint_travel_time_None (self : MovingObstacle tck)
    (wps : list Waypoint) (id_tm1 id_t : option Z) :
  fle (speed_avg self) fzero = true \/ (length wps < 2)%nat ->
  get_waypoint_travel_time self wps id_tm1 id_t = Ok None.
Proof.
  intros H. unfold get_waypoint_travel_time.
  destruct (bool_decide (wps = [])); [reflexivity |].
  destruct (Z.of_nat (length wps) <? 2) eqn:E; [reflexivity |].
  destruct H as [H|H]; [| lia].
  destruct id_tm1 as [i|]; [| reflexivity].
  destruct ((i <? 0) || (i >=? Z.of_nat (length wps))); [reflexivity |].
  destruct id_t as [j|]; [| reflexivity].
  destruct ((j <? 0) || (j >=? Z.of_nat (length wps))); [reflexivity |].
  by rewrite H.
Qed.

(** X8.  With [speed_avg <= 0], or with fewer than 2 waypoints,
    [get_inter_waypoint_travel_times] does not raise: it returns the zero
    of entry 0 followed by one nan per waypoint (every call returned
    [None]); for no waypoints it returns the single zero. *)
Theorem get_inter_waypoint_travel_times_nan (self : MovingObstacle tck)
    (wps : list Waypoint) :
  fle (speed_avg self) fzero = true \/ (length wps < 2)%nat ->
  get_inter_waypoint_travel_times self wps
  = Ok (fzero :: replicate (length wps) NaN).
Proof.
  intros Hcase. unfold get_inter_waypoint_travel_times.
  set (N := Z.of_nat (length wps)).
  destruct (for_in_range_inv
    (fun i arr =>
       length arr = S (length wps) /\
       arr !! 0%nat = Some fzero /\
       forall j, (1 <= j < Z.to_nat i)%nat -> arr !! j = Some NaN)
    (fun waypoint_id travel_times =>
       cur_travel_time ←
         get_waypoint_travel_time self wps
           (Some ((waypoint_id - 1) mod N)) (Some (waypoint_id mod N));
       setitem travel_times waypoint_id (to_float64 cur_travel_time))
    1 (N + 1) (np_zeros (N + 1))) as (l & Hl & Hlen & H0 & Hcells).
  - lia.
  - unfold np_zeros. rewrite length_replicate.
    split; [lia |]. split; [| intros; lia].
    replace (Z.to_nat (N + 1)) with (S (length wps)) by lia. reflexivity.
  - intros i arr Hi (Hlen & H0 & Hcells).
    rewrite (get_waypoint_travel_time_None self wps _ _ Hcase).
    cbn [mbind result_bind to_float64]. rewrite setitem_Ok by lia.
    eexists. split; [reflexivity |].
    rewrite length_insert. split; [assumption |]. split.
    + rewrite list_lookup_insert_ne by lia. assumption.
    + intros j Hj. destruct (decide (j = Z.to_nat i)) as [->|Hne].
      * apply list_lookup_insert_eq. lia.
      * rewrite list_lookup_insert_ne by lia. apply Hcells. lia.
  - rewrite Hl. f_equal. apply list_eq. intros j.
    destruct j as [|j]; [exact H0 |]. simpl.
    destruct (decide (j < length wps)%nat) as [Hj|Hj].
    + rewrite Hcells by lia. symmetry. by apply lookup_replicate_2.
    + rewrite !lookup_ge_None_2; [reflexivity | | lia].
      rewrite length_replicate. lia.
Qed.

Lemma foldl_fadd_nan (l : list pyfloat) : foldl fadd NaN l = NaN.
Proof. induction l as [|x l IH]; simpl; [reflexivity | exact IH]. Qed.

Lemma foldl_fadd_elem_nan (a : pyfloat) (l : list pyfloat) (i : nat) :
  l !! i = Some NaN -> foldl fadd a l = NaN.
Proof.
  revert a i. induction l as [|x l IH]; intros a i Hi; [discriminate |].
  destruct i as [|i]; simpl in *.
  - inversion Hi; subst x.
    replace (fadd a NaN) with NaN by (by destruct a).
    apply foldl_fadd_nan.
  - by apply (IH _ i).
Qed.

(** X9.  [get_waypoint_times] never raises and returns as many entries as
    it is given (none for none); a nan among the travel times makes every
    arrival time from there on nan. *)
Theorem get_waypoint_times_nan (l : list pyfloat) :
  exists r,
    get_waypoint_times l = Ok r /\
    length r = length l /\
    forall i j, l !! i = Some NaN -> (i <= j < length l)%nat ->
      r !! j = Some NaN.
Proof.
  destruct (get_waypoint_times_cells l) as (r & Hr & Hlen & Hcells).
  exists r. split; [exact Hr |]. split; [exact Hlen |].
  intros i j Hi Hij. rewrite Hcells by lia. f_equal.
  apply (foldl_fadd_elem_nan _ _ i).
  rewrite lookup_take. rewrite decide_True by lia. exact Hi.
Qed.

(** ** The schedule handed to the fit *)

Section Schedule.

Hypothesis distance_nonneg :
  forall a b, exists d, Waypoint_distance_to a b = Fin d /\ (0 ≤ d)%Qc.
Hypothesis distance_zero_iff :
  forall a b, Waypoint_distance_to a b = fzero <-> position a = position b.
Hypothesis knots_positive :
  forall s, flt fzero s = true ->
    flt fzero (knots_to_feet_per_second s) = true.
Hypothesis rnd_monotone :
  forall x y, (x ≤ y)%Qc -> fle (rnd x) (rnd y) = true.
Hypothesis rnd_zero : rnd 0%Qc = fzero.
Hypothesis rnd_idempotent : forall x y, rnd x = Fin y -> rnd y = Fin y.

(** The travel times of a circuit of at least two waypoints at a positive
    speed are not negative, and zero for a leg between waypoints at the
    same position. *)
Lemma travel_times_legs (self : MovingObstacle tck) (w : list Waypoint) :
  let N := Z.of_nat (length w) in
  (2 <= length w)%nat ->
  flt fzero (speed_avg self) = true ->
  exists tt,
    get_inter_waypoint_travel_times self w = Ok tt /\
    length tt = S (length w) /\
    Forall (fun x => fle fzero x = true) tt /\
    forall i, 1 <= i <= N ->
      exists a b t,
        w !! Z.to_nat ((i - 1) mod N) = Some a /\
        w !! Z.to_nat (i mod N) = Some b /\
        tt !! Z.to_nat i = Some t /\
        (position a = position b -> t = fzero).
Proof using knots_positive distance_zero_iff distance_nonneg rnd_monotone rnd_zero knots_nonzero.
  intros N Hlen Hs. subst N.
  pose proof (flt_not_fle _ Hs) as Hs'.
  destruct (get_inter_waypoint_travel_times_cells self w)
    as (tt & Htt & Httlen & Htt0 & Hcells).
  assert (Hleg : forall i, 1 <= i <= Z.of_nat (length w) ->
            exists a b t,
              w !! Z.to_nat ((i - 1) mod Z.of_nat (length w)) = Some a /\
              w !! Z.to_nat (i mod Z.of_nat (length w)) = Some b /\
              tt !! Z.to_nat i = Some t /\ fle fzero t = true /\
              (position a = position b -> t = fzero)).
  { intros i Hi.
    destruct (get_waypoint_travel_time_leg self w i Hlen Hs' Hi)
      as (a & b & t & Ha & Hb & Ht & Hcall).
    destruct (Hcells i Hi) as (v & Hv & Hiv).
    rewrite Hcall in Hv. inversion Hv; subst v.
    destruct (leg_time distance_nonneg distance_zero_iff knots_positive
                rnd_monotone rnd_zero self a b t Hs Ht) as (Hq & Hzero).
    exists a, b, t. done. }
  exists tt. split; [exact Htt |]. split; [exact Httlen |]. split.
  - apply Forall_lookup. intros i x Hi.
    destruct i as [|i].
    + rewrite Htt0 in Hi. inversion Hi; subst x. reflexivity.
    + apply lookup_lt_Some in Hi as Hilen.
      destruct (Hleg (Z.of_nat (S i))) as (a & b & t & _ & _ & Ht & Ht0 & _);
        [lia |].
      rewrite Nat2Z.id, Hi in Ht. by inversion Ht; subst x.
  - intros i Hi. destruct (Hleg i Hi) as (a & b & t & Ha & Hb & Ht & _ & H).
    exists a, b, t. done.
Qed.

(** An arrival time is the one before plus the travel time of the leg;
    both are floats that are not negative. *)
Lemma arrival_time_step (tt : list pyfloat) (j : nat) (q : pyfloat) :
  Forall (fun x => fle fzero x = true) tt ->
  tt !! S j = Some q ->
  let a := cumulative_sum (take (S j) tt) in
  rounded a /\ fle fzero a = true /\
  cumulative_sum (take (S (S j)) tt) = fadd a q.
Proof using rnd_monotone rnd_zero rnd_idempotent.
  intros Hnn Hq a.
  destruct (foldl_fadd_increasing rnd_monotone rnd_idempotent
              (take (S j) tt) fzero) as [Hr Ha];
    [exact (rounded_fzero rnd_zero) | reflexivity | by apply Forall_take |].
  split; [exact Hr |]. split; [exact Ha |].
  unfold cumulative_sum.
  by rewrite (take_S_r tt (S j) q Hq), foldl_app.
Qed.

(** X6.  For at least two waypoints and a positive speed, the arrival
    times that [get_spline_curve] hands to the fit as abscissae start at 0
    and never decrease from one waypoint to the next, up to the return to
    the first waypoint. *)
Theorem get_waypoint_times_ordered (self : MovingObstacle tck)
    (w : list Waypoint) :
  (2 <= length w)%nat ->
  flt fzero (speed_avg self) = true ->
  exists tt pt,
    get_inter_waypoint_travel_times self w = Ok tt /\
    get_waypoint_times tt = Ok pt /\
    length pt = S (length w) /\
    pt !! 0%nat = Some fzero /\
    forall i, (i < length w)%nat ->
      exists a b,
        pt !! i = Some a /\ pt !! S i = Some b /\
        fle fzero a = true /\ fle a b = true.
Proof using knots_positive distance_zero_iff distance_nonneg rnd_monotone rnd_zero rnd_idempotent knots_nonzero.
  intros Hlen Hs.
  destruct (travel_times_legs self w Hlen Hs)
    as (tt & Htt & Httlen & Hnn & Hlegs).
  destruct (get_waypoint_times_cells tt) as (pt & Hpt & Hptlen & Hsums).
  exists tt, pt. split; [exact Htt |]. split; [exact Hpt |].
  split; [lia |]. split.
  { rewrite Hsums by lia.
    destruct tt as [|x tt]; [discriminate |].
    destruct (get_inter_waypoint_travel_times_cells self w)
      as (tt' & Htt' & _ & H0 & _).
    rewrite Htt in Htt'. inversion Htt'; subst tt'.
    simpl in H0. inversion H0; subst x. cbn [take foldl fadd fzero].
    rewrite take_0. cbn [foldl]. by rewrite Qcplus_0_l, rnd_zero. }
  intros i Hi.
  destruct (lookup_lt_is_Some_2 tt (S i)) as [q Hq]; [lia |].
  destruct (arrival_time_step tt i q Hnn Hq) as (Hr & Ha & Hstep).
  exists (cumulative_sum (take (S i) tt)), (fadd (cumulative_sum (take (S i) tt)) q).
  rewrite !Hsums by lia. unfold cumulative_sum in *. rewrite Hstep.
  split; [reflexivity |]. split; [reflexivity |]. split; [exact Ha |].
  apply (fadd_increasing rnd_monotone); [exact Hr | exact Ha |].
  by apply (proj1 (Forall_lookup _ _) Hnn) in Hq.
Qed.

(** X7.  When the last waypoint of a circuit of at least two waypoints is
    at the position of the first, the leg that closes the circuit takes no
    time: the last two arrival times handed to the fit are the same
    float. *)
Theorem get_waypoint_times_closed_circuit (self : MovingObstacle tck)
    (w : list Waypoint) (first final : Waypoint) :
  (2 <= length w)%nat ->
  flt fzero (speed_avg self) = true ->
  head w = Some first ->
  last w = Some final ->
  position final = position first ->
  exists tt pt T,
    get_inter_waypoint_travel_times self w = Ok tt /\
    get_waypoint_times tt = Ok pt /\
    fle fzero T = true /\
    pt !! (length w - 1)%nat = Some T /\
    pt !! length w = Some T.
Proof using knots_positive distance_zero_iff distance_nonneg rnd_monotone rnd_zero rnd_idempotent knots_nonzero.
  intros Hlen Hs Hfirst Hfinal Hpos.
  destruct (travel_times_legs self w Hlen Hs)
    as (tt & Htt & Httlen & Hnn & Hlegs).
  destruct (get_waypoint_times_cells tt) as (pt & Hpt & Hptlen & Hsums).
  destruct (Hlegs (Z.of_nat (length w)))
    as (a' & b' & q & Ha' & Hb' & Hq & Hzero); [lia |].
  rewrite Nat2Z.id in Hq.
  rewrite Z.mod_small in Ha' by lia.
  rewrite Z_mod_same_full in Hb'. change (Z.to_nat 0) with 0%nat in Hb'.
  rewrite <- head_lookup, Hfirst in Hb'. inversion Hb'; subst b'.
  rewrite last_lookup in Hfinal.
  replace (Z.to_nat (Z.of_nat (length w) - 1)) with (pred (length w)) in Ha'
    by lia.
  rewrite Hfinal in Ha'. inversion Ha'; subst a'.
  specialize (Hzero Hpos). subst q.
  destruct (length w) as [|n] eqn:En; [lia |].
  destruct (arrival_time_step tt n fzero Hnn Hq) as (Hr & Ha & Hstep).
  exists tt, pt, (cumulative_sum (take (S n) tt)).
  split; [exact Htt |]. split; [exact Hpt |]. split; [exact Ha |].
  replace (S n - 1)%nat with n by lia.
  rewrite !Hsums by lia. unfold cumulative_sum in *. rewrite Hstep.
  split; [reflexivity |]. f_equal.
  destruct (foldl fadd fzero (take (S n) tt)) as [x|[|]|];
    try discriminate; [| reflexivity].
  cbn [rounded] in Hr. cbn [fadd fzero]. by rewrite Qcplus_0_r.
Qed.

End Schedule.

(** ** Calls of [get_position] *)

(** X4.  On an instance whose attributes are the ones [get_position]
    attaches, a call of [get_position], with a time or without, raises
    exactly when it needs the spline curve (at least 2 filtered waypoints
    and not [speed_avg <= 0]) and [get_spline_curve] raises, and it raises
    the same exception: whether it raises does not depend on the time.
    Without a time it does what it does for the reading of the clock. *)
Theorem get_position_raises (s : state tck) (w : list Waypoint) :
  coherent (obj s) ->
  waypoints_in_use (obj s) = Ok w ->
  (forall cur_time e,
     (get_position cur_time s).1 = Raise e <->
     (2 <= length w)%nat /\ fle (speed_avg (obj s)) fzero = false /\
     get_spline_curve (obj s) w = Raise e) /\
  (get_position None s).1 =
    (get_position (Some (in_utc (clock (ticks s)))) s).1.
Proof.
  intros Hco Hw. split.
  - intros cur_time e. by apply get_position_Raise.
  - destruct (get_position_cases None s w Hw) as (-> & _).
    by destruct (get_position_cases (Some (in_utc (clock (ticks s)))) s w Hw)
      as (-> & _).
Qed.

(** X5.  A call of [get_position] never changes the waypoints, the speed
    or the radius; it leaves the filtered waypoints attached; and it never
    replaces an attribute that is attached already, so that with both
    attached the instance is left as it was. *)
Theorem get_position_attributes (cur_time : option datetime)
    (s : state tck) :
  let o := obj s in
  let o' := obj (get_position cur_time s).2 in
  waypoints o' = waypoints o /\
  speed_avg o' = speed_avg o /\
  sphere_radius o' = sphere_radius o /\
  is_Some (preprocessed_waypoints o') /\
  (forall w, preprocessed_waypoints o = Some w ->
     preprocessed_waypoints o' = Some w) /\
  (forall c, preprocessed_spline_curve o = Some c ->
     preprocessed_spline_curve o' = Some c) /\
  (is_Some (preprocessed_waypoints o) ->
   is_Some (preprocessed_spline_curve o) -> o' = o).
Proof.
  intros o o'. destruct (waypoints_in_use_Ok o) as [w Hw].
  destruct (get_position_cases cur_time s w Hw)
    as (_ & Hwp & Hsp & Hra & Hpw & Hpsc).
  fold o' in Hwp, Hsp, Hra, Hpw, Hpsc. fold o in Hwp, Hsp, Hra, Hpsc.
  assert (Hkeep_w : forall w0, preprocessed_waypoints o = Some w0 ->
            preprocessed_waypoints o' = Some w0).
  { intros w0 Hw0. unfold waypoints_in_use in Hw. rewrite Hw0 in Hw.
    inversion Hw; subst w0. exact Hpw. }
  assert (Hkeep_c : forall c, preprocessed_spline_curve o = Some c ->
            preprocessed_spline_curve o' = Some c).
  { intros c Hc. destruct Hpsc as [Hsame|(c' & Hc' & Hnew)].
    - by rewrite Hsame.
    - unfold spline_curve_in_use in Hc'. fold o in Hc'. rewrite Hc in Hc'.
      inversion Hc'; subst c'. exact Hnew. }
  repeat split; try assumption.
  - rewrite Hpw. eauto.
  - intros [w0 Hw0] [c Hc].
    pose proof (Hkeep_w w0 Hw0) as Hw'. pose proof (Hkeep_c c Hc) as Hc'.
    destruct o, o'. simpl in *. congruence.
Qed.

(** ** More on collisions *)

(** X10.  A log that sits exactly where the obstacle is at the time of the
    log is a collision whenever the radius is not negative, given that the
    distance from a point to itself is 0. *)
Theorem evaluate_collision_with_uas_centre (s : state tck)
    (logs : list UasTelemetry) (log : UasTelemetry) (a b c : Qc) :
  (forall a b c : Qc,
     distance_to (Fin a) (Fin b) (Fin c) (Fin a) (Fin b) (Fin c) = fzero) ->
  coherent (obj s) ->
  log ∈ interpolate logs ->
  (get_position (Some (timestamp log)) s).1 = Ok (Fin a, Fin b, Fin c) ->
  uas_position log = mk_aerial (mk_gps (Fin a) (Fin b)) (Fin c) ->
  fle fzero (sphere_radius (obj s)) = true ->
  (evaluate_collision_with_uas logs s).1 = Ok true.
Proof.
  intros Hself Hco Hin Hp Hpos Hr. unfold evaluate_collision_with_uas.
  rewrite (evaluate_collision_loop_outcome _ s s (same_obstacle_refl s Hco)
             eq_refl).
  rewrite collision_outcome_existsb
    by (intros log' _; by apply (get_position_Ok_any_time s _ _ _ Hco Hp)).
  f_equal. apply existsb_exists. exists log.
  split; [by apply list_elem_of_In |].
  unfold inside_at. rewrite Hp. unfold contains_pos.
  rewrite Hpos. simpl. by rewrite Hself.
Qed.

Lemma collision_outcome_radius (s1 s2 : state tck)
    (samples : list UasTelemetry) :
  same_obstacle s1 s2 ->
  fle (sphere_radius (obj s1)) (sphere_radius (obj s2)) = true ->
  collision_outcome s1 samples = Ok true ->
  collision_outcome s2 samples = Ok true.
Proof.
  intros Hsame Hr. induction samples as [|log rest IH]; [discriminate |].
  cbn [collision_outcome].
  rewrite (same_obstacle_position s1 s2 _ Hsame).
  destruct (get_position (Some (timestamp log)) s1).1 as [[[lat lon] alt]|e];
    [| discriminate].
  unfold contains_pos. set (d := distance_to _ _ _ _ _ _).
  destruct (fle d (sphere_radius (obj s1))) eqn:E1.
  - intros _. by rewrite (fle_trans _ _ _ E1 Hr).
  - intros H. destruct (fle d (sphere_radius (obj s2))); [reflexivity |].
    by apply IH.
Qed.

(** X11.  Collisions grow with the radius: logs that collide with an
    obstacle also collide with the obstacle of the same waypoints and
    speed and of a larger radius. *)
Theorem evaluate_collision_with_uas_radius (s1 s2 : state tck)
    (logs : list UasTelemetry) :
  same_obstacle s1 s2 ->
  fle (sphere_radius (obj s1)) (sphere_radius (obj s2)) = true ->
  (evaluate_collision_with_uas logs s1).1 = Ok true ->
  (evaluate_collision_with_uas logs s2).1 = Ok true.
Proof.
  intros Hsame Hr. pose proof Hsame as (Hco1 & Hco2 & Hwp & Hsp).
  unfold evaluate_collision_with_uas.
  rewrite (evaluate_collision_loop_outcome _ s1 s1
             (same_obstacle_refl s1 Hco1) eq_refl).
  rewrite (evaluate_collision_loop_outcome _ s2 s2
             (same_obstacle_refl s2 Hco2) eq_refl).
  by apply collision_outcome_radius.
Qed.

(** X12.  The loop stops at the first log inside the sphere: the logs
    after it are not looked at, so that the result, the attributes and the
    number of readings of the clock are those of the logs up to it. *)
Theorem evaluate_collision_loop_stops (s : state tck)
    (before after : list UasTelemetry) (hit : UasTelemetry) :
  coherent (obj s) ->
  inside_at s hit = true ->
  evaluate_collision_loop (before ++ hit :: after) s =
  evaluate_collision_loop (before ++ [hit]) s.
Proof.
  intros Hco Hhit.
  assert (Hgen : forall s', same_obstacle s s' ->
            sphere_radius (obj s') = sphere_radius (obj s) ->
            evaluate_collision_loop (before ++ hit :: after) s' =
            evaluate_collision_loop (before ++ [hit]) s').
  { induction before as [|log before IH]; intros s' Hsame Hra.
    - pose proof (same_obstacle_inside_at s s' hit Hsame Hra) as Hin.
      rewrite Hhit in Hin. unfold inside_at in Hin.
      destruct (get_position_keeps (Some (timestamp hit)) s')
        as (_ & _ & Hra' & _).
      cbn [app evaluate_collision_loop]. unfold mbind, M_bind at 1 3.
      destruct (get_position (Some (timestamp hit)) s') as [r s''].
      cbn [fst snd] in *. destruct r as [[[lat lon] alt]|e]; [| reflexivity].
      unfold M_bind, get_self.
      assert (Hcp : contains_pos (obj s'') lat lon alt (uas_position hit)
                    = true).
      { unfold contains_pos in *. by rewrite Hra'. }
      by rewrite Hcp.
    - cbn [app evaluate_collision_loop]. unfold mbind, M_bind at 1 3.
      pose proof (same_obstacle_step s s' (Some (timestamp log)) Hsame)
        as Hsame'.
      destruct (get_position_keeps (Some (timestamp log)) s')
        as (_ & _ & Hra' & _).
      destruct (get_position (Some (timestamp log)) s') as [r s''].
      cbn [fst snd] in *. destruct r as [[[lat lon] alt]|e]; [| reflexivity].
      unfold M_bind, get_self.
      destruct (contains_pos (obj s'') lat lon alt (uas_position log));
        [reflexivity |].
      apply IH; [exact Hsame' | congruence]. }
  apply Hgen; [by apply same_obstacle_refl | reflexivity].
Qed.

Lemma collision_outcome_app (s : state tck) (logs1 logs2 : list UasTelemetry) :
  collision_outcome s (logs1 ++ logs2) =
    match collision_outcome s logs1 with
    | Ok false => collision_outcome s logs2
    | r => r
    end.
Proof.
  induction logs1 as [|log rest IH]; [reflexivity |].
  cbn [app collision_outcome].
  destruct (get_position (Some (timestamp log)) s).1 as [[[lat lon] alt]|e];
    [| reflexivity].
  by destruct (contains_pos (obj s) lat lon alt (uas_position log)).
Qed.

(** X13.  The result for two lists of logs one after the other is the
    result for the first when this is a collision or an exception, and
    the result for the second otherwise: for results that are booleans,
    their disjunction. *)
Theorem evaluate_collision_loop_app (s : state tck)
    (logs1 logs2 : list UasTelemetry) :
  coherent (obj s) ->
  (evaluate_collision_loop (logs1 ++ logs2) s).1 =
    match (evaluate_collision_loop logs1 s).1 with
    | Ok false => (evaluate_collision_loop logs2 s).1
    | r => r
    end.
Proof.
  intros Hco. pose proof (same_obstacle_refl s Hco) as Hsame.
  rewrite !(evaluate_collision_loop_outcome _ s s Hsame eq_refl).
  apply collision_outcome_app.
Qed.

(** ** The dictionary of [json] *)

(** X14.  [json] does what [get_position] does for the same time: when
    that call returns a triple, [json] returns a dictionary with the four
    keys latitude, longitude, altitude_msl and sphere_radius, holding the
    triple and the radius of the obstacle; when it raises, [json] raises
    the same exception; and [json] leaves the instance as that call leaves
    it. *)
Theorem json_position (time : option datetime) (s : state tck) :
  (json time s).2 = (get_position time s).2 /\
  match (get_position time s).1 with
  | Ok (lat, lon, alt) =>
      exists d : gmap string pyfloat,
        (json time s).1 = Ok d /\
        dom d = ({["latitude"; "longitude"; "altitude_msl"; "sphere_radius"]}
                 : gset string) /\
        d !! "latitude" = Some lat /\
        d !! "longitude" = Some lon /\
        d !! "altitude_msl" = Some alt /\
        d !! "sphere_radius" = Some (sphere_radius (obj s))
  | Raise e => (json time s).1 = Raise e
  end.
Proof.
  destruct (get_position_keeps time s) as (_ & _ & Hra & _).
  unfold json, mbind, M_bind, get_self, mret, M_ret.
  destruct (get_position time s) as [r s'] eqn:Hcall. cbn [fst snd] in *.
  destruct r as [[[lat lon] alt]|e]; [| done].
  split; [reflexivity |]. eexists. split; [reflexivity |].
  rewrite Hra. cbn [list_to_map foldr uncurry fst snd].
  split; [set_solver |].
  repeat split; reflexivity.
Qed.

(** ** Instants and places *)

Lemma datetime_sub_opp (a b : datetime) :
  datetime_sub a b = - datetime_sub b a.
Proof. unfold datetime_sub. lia. Qed.

Lemma datetime_sub_diag (a : datetime) : datetime_sub a a = 0.
Proof. unfold datetime_sub. lia. Qed.

Lemma datetime_sub_sub (a b c : datetime) :
  datetime_sub a c = datetime_sub a b + datetime_sub b c.
Proof. unfold datetime_sub. lia. Qed.

Lemma sample_spline_curve_instant (c : pyfloat * list tck) (t t' : datetime) :
  datetime_sub t t' = 0 -> sample_spline_curve c t = sample_spline_curve c t'.
Proof.
  intros H. unfold sample_spline_curve.
  by rewrite (datetime_sub_sub t t' unix_epoch), H.
Qed.

(** X19.  The position depends on the instant only: two times that are
    the same instant, whatever the time zones they are expressed in, give
    the same position (or the same exception), on any instance. *)
Theorem get_position_instant (s : state tck) (t t' : datetime) :
  datetime_sub t t' = 0 ->
  (get_position (Some t) s).1 = (get_position (Some t') s).1.
Proof.
  intros H. destruct (waypoints_in_use_Ok (obj s)) as [w Hw].
  destruct (get_position_cases (Some t) s w Hw) as (-> & _).
  destruct (get_position_cases (Some t') s w Hw) as (-> & _).
  destruct (Z.of_nat (length w) =? 0); [reflexivity |].
  destruct ((Z.of_nat (length w) =? 1) || fle (speed_avg (obj s)) fzero);
    [reflexivity |].
  destruct (spline_curve_in_use (obj s) w) as [c|e]; [| reflexivity].
  cbn [mbind result_bind]. by apply sample_spline_curve_instant.
Qed.

Lemma insert_by_order_Forall (P : Waypoint -> Prop) (w : Waypoint)
    (l : list Waypoint) :
  P w -> Forall P l -> Forall P (insert_by_order w l).
Proof.
  intros Hw. induction l as [|x l IH]; intros Hl; simpl.
  - by constructor.
  - apply Forall_cons_1 in Hl as [Hx Hl].
    destruct (order w <=? order x); repeat constructor; auto.
Qed.

Lemma insert_by_order_cons (w : Waypoint) (l : list Waypoint) :
  insert_by_order w l <> [].
Proof. destruct l as [|x l]; simpl; [| destruct (order w <=? order x)]; done. Qed.

Lemma order_by_order_Forall (P : Waypoint -> Prop) (l : list Waypoint) :
  Forall P l -> Forall P (order_by_order l).
Proof.
  induction l as [|x l IH]; intros Hl; simpl; [constructor |].
  apply Forall_cons_1 in Hl as [Hx Hl]. by apply insert_by_order_Forall; auto.
Qed.

(** X20.  An obstacle whose waypoints are all at one place, however many
    they are and whatever its speed, is at that place at every time: the
    filter leaves one waypoint and [get_position] returns its position
    without fitting a spline. *)
Theorem get_position_single_place (s : state tck)
    (cur_time : option datetime) (p : AerialPosition) :
  (forall a b, position a = position b -> Waypoint_distance_to a b = fzero) ->
  coherent (obj s) ->
  waypoints (obj s) <> [] ->
  Forall (fun y => position y = p) (waypoints (obj s)) ->
  (get_position cur_time s).1 =
    Ok (latitude (gps_position p), longitude (gps_position p), altitude_msl p).
Proof.
  intros Hzero Hco Hne Hall.
  apply order_by_order_Forall in Hall.
  assert (Hne' : order_by_order (waypoints (obj s)) <> []).
  { destruct (waypoints (obj s)) as [|x l]; [done |].
    apply insert_by_order_cons. }
  destruct (order_by_order (waypoints (obj s))) as [|x l] eqn:E; [done |].
  apply Forall_cons_1 in Hall as [Hx Hl].
  assert (Hw : waypoints_in_use (obj s) = Ok [x]).
  { rewrite (coherent_waypoints_in_use _ Hco), E.
    rewrite filter_consecutive_duplicates_dedup. simpl.
    rewrite dedup_from_same_position; [reflexivity | exact Hzero |].
    eapply Forall_impl; [exact Hl |]. intros y Hy. simpl in Hy. congruence. }
  destruct (get_position_cases cur_time s [x] Hw) as (-> & _).
  simpl. by rewrite Hx.
Qed.

(** ** Track data *)

Lemma length_sample_times (t : datetime) (step : Z) (n : nat) :
  length (sample_times t step n) = n.
Proof. revert t. induction n as [|n IH]; intros t; simpl; [| rewrite IH]; done. Qed.

Lemma kml_prepend_assoc
    (d1 d2 : list (pyfloat * pyfloat * pyfloat) * list string)
    (r : result (option (list (pyfloat * pyfloat * pyfloat) * list string))) :
  kml_prepend d1 (kml_prepend d2 r) =
    kml_prepend (d1.1 ++ d2.1, d1.2 ++ d2.2) r.
Proof.
  destruct r as [[d|]|e]; simpl; [| reflexivity | reflexivity].
  by rewrite !app_assoc.
Qed.

(** The loop of one period, started from [data], gives what it gives
    started from nothing, after [data]; the attributes that earlier calls
    have attached make no difference. *)
Lemma kml_while_prepend (s0 : state tck) (period_end : datetime) (fuel : nat) :
  forall t data s,
    same_obstacle s0 s ->
    (kml_while fuel t period_end data s).1 =
      kml_prepend data (kml_while fuel t period_end ([], []) s0).1 /\
    same_obstacle s0 (kml_while fuel t period_end data s).2.
Proof.
  induction fuel as [|fuel IH]; intros t data s Hsame; cbn [kml_while].
  - split; [reflexivity | exact Hsame].
  - destruct (datetime_lt t period_end).
    + unfold mbind, M_bind.
      pose proof (same_obstacle_step s0 s (Some t) Hsame) as Hsame1.
      pose proof (same_obstacle_position s0 s t Hsame) as Hpos.
      destruct Hsame as (Hco0 & Hco & _).
      pose proof (same_obstacle_step s0 s0 (Some t) (same_obstacle_refl s0 Hco0))
        as Hsame0.
      destruct (get_position (Some t) s) as [r s1].
      destruct (get_position (Some t) s0) as [r0 s0'].
      cbn [fst snd] in *. subst r.
      destruct r0 as [[[lat lon] alt]|e];
        [| split; [reflexivity | exact Hsame1]].
      destruct (IH (datetime_add t 100000)
                  (data.1 ++ [(lon, lat, feet_to_meters alt)],
                   data.2 ++ [strftime t]) s1 Hsame1) as (-> & Hs).
      destruct (IH (datetime_add t 100000)
                  ([(lon, lat, feet_to_meters alt)], [strftime t]) s0' Hsame0)
        as (H0 & _).
      cbn [fst snd app]. rewrite H0, kml_prepend_assoc.
      split; [reflexivity | exact Hs].
    + destruct data as [c w]. simpl. rewrite !app_nil_r.
      split; [reflexivity | exact Hsame].
Qed.

Lemma kml_for_prepend (s0 : state tck) (fuel : nat)
    (time_periods : list TimePeriod) :
  forall data s,
    same_obstacle s0 s ->
    (kml_for fuel time_periods data s).1 =
      kml_prepend data (kml_for fuel time_periods ([], []) s0).1 /\
    same_obstacle s0 (kml_for fuel time_periods data s).2.
Proof.
  induction time_periods as [|period rest IH]; intros data s Hsame;
    cbn [kml_for].
  - destruct data as [c w]. simpl. rewrite !app_nil_r.
    split; [reflexivity | exact Hsame].
  - unfold mbind, M_bind.
    destruct (kml_while_prepend s0 (end_ period) fuel (start period) data s
                Hsame) as (H1 & Hs1).
    destruct Hsame as (Hco0 & _).
    destruct (kml_while_prepend s0 (end_ period) fuel (start period) ([], [])
                s0 (same_obstacle_refl s0 Hco0)) as (_ & Hs0).
    destruct (kml_while fuel (start period) (end_ period) data s) as [r s1].
    destruct (kml_while fuel (start period) (end_ period) ([], []) s0)
      as [r0 s0'].
    cbn [fst snd] in *. subst r.
    destruct r0 as [[d|]|e]; cbn [kml_prepend].
    + destruct (IH (data.1 ++ d.1, data.2 ++ d.2) s1 Hs1) as (-> & Hs).
      destruct (IH d s0' Hs0) as (-> & _).
      rewrite kml_prepend_assoc. split; [reflexivity | exact Hs].
    + split; [reflexivity | exact Hs1].
    + split; [reflexivity | exact Hs1].
Qed.

Lemma kml_for_app (fuel : nat) (ps1 ps2 : list TimePeriod) :
  forall data s,
    kml_for fuel (ps1 ++ ps2) data s =
      (r ← kml_for fuel ps1 data;
       match r with
       | Some data => kml_for fuel ps2 data
       | None => mret None
       end) s.
Proof.
  induction ps1 as [|period rest IH]; intros data s; cbn [app kml_for].
  - reflexivity.
  - unfold mbind, M_bind.
    destruct (kml_while fuel (start period) (end_ period) data s)
      as [[[d|]|e] s1]; [| reflexivity | reflexivity].
    rewrite IH. reflexivity.
Qed.

(** X16.  The track data of [kml] for the periods [ps1] followed by the
    periods [ps2] is the track data for [ps1] followed by the track data
    for [ps2]: the samples of the periods come in the order of the periods,
    and the attributes that the first periods leave on the instance do not
    change the samples of the later ones. *)
Theorem kml_track_data_app (s : state tck) (ps1 ps2 : list TimePeriod)
    (fuel : nat) :
  coherent (obj s) ->
  (kml_track_data fuel (ps1 ++ ps2) s).1 =
    match (kml_track_data fuel ps1 s).1 with
    | Ok (Some d1) => kml_prepend d1 (kml_track_data fuel ps2 s).1
    | Ok None => Ok None
    | Raise e => Raise e
    end.
Proof.
  intros Hco. unfold kml_track_data. rewrite kml_for_app.
  unfold mbind, M_bind.
  destruct (kml_for_prepend s fuel ps1 ([], []) s (same_obstacle_refl s Hco))
    as (_ & Hs1).
  destruct (kml_for fuel ps1 ([], []) s) as [[[d1|]|e] s1];
    cbn [fst snd] in *; [| reflexivity | reflexivity].
  by destruct (kml_for_prepend s fuel ps2 d1 s1 Hs1) as (-> & _).
Qed.

Section Timeline.

(** Adding a timedelta to a datetime moves its instant by that much (the
    sum stays within the datetimes that can be represented). *)
Hypothesis datetime_add_sub :
  forall t d u, datetime_sub (datetime_add t d) u = datetime_sub t u + d.

Lemma sample_times_sub (n : nat) (t : datetime) (step : Z) (k : nat)
    (t' : datetime) :
  sample_times t step n !! k = Some t' ->
  datetime_sub t' t = Z.of_nat k * step.
Proof using datetime_add_sub.
  revert t k. induction n as [|n IH]; intros t k Hk; [discriminate |].
  destruct k as [|k]; simpl in Hk.
  - inversion Hk; subst t'. rewrite datetime_sub_diag. lia.
  - apply IH in Hk.
    rewrite (datetime_sub_sub t' (datetime_add t step) t), Hk.
    rewrite datetime_add_sub, datetime_sub_diag. lia.
Qed.

(** The loop of one period, with enough fuel: it takes the
    ceiling of (end - t) / 100 ms samples, none when the period is over. *)
Lemma kml_while_samples (s0 : state tck) (period_end : datetime) (n : nat) :
  (forall t, exists p, (get_position (Some t) s0).1 = Ok p) ->
  forall fuel t data s,
    same_obstacle s0 s ->
    Z.to_nat ((datetime_sub period_end t + 99999) / 100000) = n ->
    (n < fuel)%nat ->
    exists coords,
      (kml_while fuel t period_end data s).1 =
        Ok (Some (data.1 ++ coords,
                  data.2 ++ (strftime <$> sample_times t 100000 n))) /\
      same_obstacle s0 (kml_while fuel t period_end data s).2 /\
      Forall2 (fun t c =>
                 exists lat lon alt,
                   (get_position (Some t) s0).1 = Ok (lat, lon, alt) /\
                   c = (lon, lat, feet_to_meters alt))
        (sample_times t 100000 n) coords.
Proof using datetime_add_sub.
  intros Hdef.
  induction n as [|n IH]; intros fuel t data s Hsame Hn Hfuel;
    (destruct fuel as [|fuel]; [lia |]); cbn [kml_while].
  - assert (Hlt : datetime_lt t period_end = false).
    { unfold datetime_lt. rewrite datetime_sub_opp.
      pose proof (Z.div_mod (datetime_sub period_end t + 99999) 100000).
      pose proof (Z.mod_pos_bound (datetime_sub period_end t + 99999) 100000).
      lia. }
    rewrite Hlt. exists []. destruct data as [c w]. cbn [fst snd].
    simpl. rewrite !app_nil_r. split; [reflexivity |].
    split; [assumption | constructor].
  - assert (Hlt : datetime_lt t period_end = true).
    { unfold datetime_lt. rewrite datetime_sub_opp.
      pose proof (Z.div_mod (datetime_sub period_end t + 99999) 100000).
      pose proof (Z.mod_pos_bound (datetime_sub period_end t + 99999) 100000).
      lia. }
    rewrite Hlt. unfold mbind, M_bind.
    pose proof (same_obstacle_step s0 s (Some t) Hsame) as Hsame'.
    pose proof (same_obstacle_position s0 s t Hsame) as Hpos.
    destruct (Hdef t) as [[[lat lon] alt] Hp]. rewrite <- Hpos in Hp.
    destruct (get_position (Some t) s) as [r s1]. cbn [fst snd] in *.
    rewrite Hp in *. clear Hp. cbn [fst snd].
    destruct (IH fuel (datetime_add t 100000)
                (data.1 ++ [(lon, lat, feet_to_meters alt)],
                 data.2 ++ [strftime t]) s1 Hsame')
      as (coords & Hres & Hsame'' & Hall).
    + rewrite (datetime_sub_opp period_end), datetime_add_sub.
      rewrite (datetime_sub_opp t period_end).
      replace (- (- datetime_sub period_end t + 100000) + 99999)
        with (datetime_sub period_end t + 99999 + (-1) * 100000) by lia.
      rewrite Z.div_add by lia. lia.
    + lia.
    + exists ((lon, lat, feet_to_meters alt) :: coords).
      rewrite Hres. cbn [fst snd sample_times fmap list_fmap].
      rewrite <- !app_assoc. split; [reflexivity |].
      split; [exact Hsame'' |].
      constructor; [| exact Hall].
      exists lat, lon, alt. split; [by rewrite <- Hpos | reflexivity].
Qed.

(** X15.  For an obstacle whose position is defined ([get_position]
    returns), one period and enough fuel, the track data of [kml] has one
    sample for every 100 milliseconds from the start that lie before the
    end (none when the end is not after the start): sample [k] is taken at
    the start plus [k] times 100 ms, its coordinates are the longitude, the
    latitude and the altitude in meters of [get_position] at that time,
    and its entry of [when] is that time formatted. *)
Theorem kml_track_data_period (s : state tck) (period : TimePeriod)
    (fuel : nat) :
  let n := Z.to_nat ((datetime_sub (end_ period) (start period) + 99999)
                     / 100000) in
  coherent (obj s) ->
  (forall t, exists p, (get_position (Some t) s).1 = Ok p) ->
  (n < fuel)%nat ->
  exists coords when,
    (kml_track_data fuel [period] s).1 = Ok (Some (coords, when)) /\
    length coords = n /\ length when = n /\
    forall k, (k < n)%nat ->
      exists t lat lon alt,
        sample_times (start period) 100000 n !! k = Some t /\
        datetime_sub t (start period) = Z.of_nat k * 100000 /\
        datetime_lt t (end_ period) = true /\
        (get_position (Some t) s).1 = Ok (lat, lon, alt) /\
        coords !! k = Some (lon, lat, feet_to_meters alt) /\
        when !! k = Some (strftime t).
Proof using datetime_add_sub.
  intros n Hco Hdef Hfuel.
  destruct (kml_while_samples s (end_ period) n Hdef fuel (start period)
              ([], []) s (same_obstacle_refl s Hco) eq_refl Hfuel)
    as (coords & Hres & _ & Hall).
  exists coords, (strftime <$> sample_times (start period) 100000 n).
  split.
  { unfold kml_track_data. cbn [kml_for]. unfold mbind, M_bind.
    destruct (kml_while fuel (start period) (end_ period) ([], []) s)
      as [r s1]. cbn [fst snd] in Hres. subst r. reflexivity. }
  pose proof (Forall2_length _ _ _ Hall) as Hlen.
  rewrite length_sample_times in Hlen.
  split; [by symmetry |].
  split; [by rewrite length_fmap, length_sample_times |].
  intros k Hk.
  destruct (lookup_lt_is_Some_2 (sample_times (start period) 100000 n) k)
    as [t Ht]; [by rewrite length_sample_times |].
  destruct (Forall2_lookup_l _ _ _ k t Hall Ht)
    as (c & Hc & lat & lon & alt & Hp & ->).
  pose proof (sample_times_sub _ _ _ _ _ Ht) as Hsub.
  exists t, lat, lon, alt. split; [exact Ht |]. split; [exact Hsub |].
  split.
  { unfold datetime_lt.
    rewrite (datetime_sub_sub t (start period) (end_ period)), Hsub.
    rewrite (datetime_sub_opp (start period)).
    pose proof (Z.div_mod
      (datetime_sub (end_ period) (start period) + 99999) 100000).
    pose proof (Z.mod_pos_bound
      (datetime_sub (end_ period) (start period) + 99999) 100000).
    subst n. nia. }
  split; [exact Hp |]. split; [exact Hc |].
  by rewrite list_lookup_fmap, Ht.
Qed.

(** The loop of [track] with a positive step, with enough fuel: one
    position for every step from [t] back to [last], none when [t] is
    before [last]. *)
Lemma track_while_samples (s0 : state tck) (last : datetime) (dt : Z)
    (n : nat) :
  (forall t, exists p, (get_position (Some t) s0).1 = Ok p) ->
  0 < dt ->
  forall fuel t yielded s,
    same_obstacle s0 s ->
    Z.to_nat (datetime_sub t last / dt + 1) = n ->
    (n < fuel)%nat ->
    exists positions,
      (track_while fuel t last dt yielded s).1 =
        Ok (Some (yielded ++ positions)) /\
      Forall2 (fun t pos => (get_position (Some t) s0).1 = Ok pos)
        (sample_times t (- dt) n) positions.
Proof using datetime_add_sub.
  intros Hdef Hdt.
  induction n as [|n IH]; intros fuel t yielded s Hsame Hn Hfuel;
    (destruct fuel as [|fuel]; [lia |]); cbn [track_while].
  - assert (Hge : datetime_ge t last = false).
    { unfold datetime_ge. rewrite Z.geb_leb. apply Z.leb_gt.
      pose proof (Z.div_mod (datetime_sub t last) dt).
      pose proof (Z.mod_pos_bound (datetime_sub t last) dt). nia. }
    rewrite Hge. exists []. rewrite app_nil_r.
    split; [reflexivity | constructor].
  - assert (Hge : datetime_ge t last = true).
    { unfold datetime_ge. apply Z.geb_le.
      pose proof (Z.div_mod (datetime_sub t last) dt).
      pose proof (Z.mod_pos_bound (datetime_sub t last) dt). nia. }
    rewrite Hge. unfold mbind, M_bind.
    pose proof (same_obstacle_step s0 s (Some t) Hsame) as Hsame'.
    pose proof (same_obstacle_position s0 s t Hsame) as Hpos.
    destruct (Hdef t) as [pos Hp]. rewrite <- Hpos in Hp.
    destruct (get_position (Some t) s) as [r s1]. cbn [fst snd] in *.
    rewrite Hp in *. clear Hp.
    destruct (IH fuel (datetime_add t (- dt)) (yielded ++ [pos]) s1 Hsame')
      as (positions & Hres & Hall).
    + rewrite datetime_add_sub.
      replace (datetime_sub t last + - dt)
        with (datetime_sub t last + (-1) * dt) by lia.
      rewrite Z.div_add by lia. lia.
    + lia.
    + exists (pos :: positions). rewrite Hres. cbn [sample_times].
      rewrite <- app_assoc. split; [reflexivity |].
      constructor; [by rewrite <- Hpos | exact Hall].
Qed.

(** X17.  For an obstacle whose position is defined, with a positive
    resolution and enough fuel, the line string that [live_kml] builds
    for the obstacle has one coordinate for every step of
    [resolution] milliseconds from now back to [timespan] ago, the newest
    first (none when [timespan] is negative): coordinate [k] is the
    longitude, the latitude and the altitude in meters of [get_position]
    at [k] steps before now. *)
Theorem live_kml_coords_samples (s : state tck) (timespan resolution : Z)
    (fuel : nat) :
  let now := in_utc (clock (ticks s)) in
  let dt := resolution * 1000 in
  let n := Z.to_nat (timespan / dt + 1) in
  coherent (obj s) ->
  (forall t, exists p, (get_position (Some t) s).1 = Ok p) ->
  0 < resolution ->
  (n < fuel)%nat ->
  exists coords,
    (live_kml_coords fuel timespan resolution s).1 = Ok (Some coords) /\
    length coords = n /\
    forall k, (k < n)%nat ->
      exists t lat lon alt,
        sample_times now (- dt) n !! k = Some t /\
        datetime_sub now t = Z.of_nat k * dt /\
        Z.of_nat k * dt <= timespan /\
        (get_position (Some t) s).1 = Ok (lat, lon, alt) /\
        coords !! k = Some (lon, lat, feet_to_meters alt).
Proof using datetime_add_sub.
  intros now dt n Hco Hdef Hres Hfuel.
  assert (Hdt : 0 < dt) by (subst dt; lia).
  set (s1 := {| obj := obj s; ticks := S (ticks s) |}).
  assert (Hsame : same_obstacle s s1)
    by exact (conj Hco (conj Hco (conj eq_refl eq_refl))).
  destruct (track_while_samples s (datetime_add now (- timespan)) dt n Hdef
              Hdt fuel now [] s1 Hsame) as (positions & Htrack & Hall).
  { rewrite (datetime_sub_opp now), datetime_add_sub, datetime_sub_diag.
    subst n. f_equal. f_equal. f_equal. lia. }
  { exact Hfuel. }
  pose proof (Forall2_length _ _ _ Hall) as Hlen.
  rewrite length_sample_times in Hlen.
  exists ((fun pos : pyfloat * pyfloat * pyfloat =>
             (pos.1.2, pos.1.1, feet_to_meters pos.2)) <$> positions).
  split.
  { unfold live_kml_coords, track, mbind, M_bind, timezone_now.
    fold now s1. fold dt.
    destruct (track_while fuel now (datetime_add now (- timespan)) dt [] s1)
      as [r s2]. cbn [fst snd] in Htrack. subst r. reflexivity. }
  split; [by rewrite length_fmap |].
  intros k Hk.
  destruct (lookup_lt_is_Some_2 (sample_times now (- dt) n) k)
    as [t Ht]; [by rewrite length_sample_times |].
  destruct (Forall2_lookup_l _ _ _ k t Hall Ht) as ([[lat lon] alt] & Hc & Hp).
  pose proof (sample_times_sub _ _ _ _ _ Ht) as Hsub.
  exists t, lat, lon, alt. split; [exact Ht |].
  split; [rewrite datetime_sub_opp, Hsub; lia |].
  split.
  { pose proof (Z.div_mod timespan dt).
    pose proof (Z.mod_pos_bound timespan dt). subst n. nia. }
  split; [exact Hp |].
  by rewrite list_lookup_fmap, Hc.
Qed.

(** With a step of zero the loop of [track] stays at the same time: from a
    time that is not before [last] it never ends. *)
Lemma track_while_no_end (s0 : state tck) (last : datetime) (fuel : nat) :
  (forall t, exists p, (get_position (Some t) s0).1 = Ok p) ->
  forall t yielded s,
    same_obstacle s0 s ->
    0 <= datetime_sub t last ->
    (track_while fuel t last 0 yielded s).1 = Ok None.
Proof using datetime_add_sub.
  intros Hdef.
  induction fuel as [|fuel IH]; intros t yielded s Hsame Hge;
    cbn [track_while]; [reflexivity |].
  unfold datetime_ge. rewrite (proj2 (Z.geb_le _ _) Hge).
  unfold mbind, M_bind.
  pose proof (same_obstacle_step s0 s (Some t) Hsame) as Hsame'.
  pose proof (same_obstacle_position s0 s t Hsame) as Hpos.
  destruct (Hdef t) as [pos Hp]. rewrite <- Hpos in Hp.
  destruct (get_position (Some t) s) as [r s1]. cbn [fst snd] in *.
  rewrite Hp. apply IH; [exact Hsame' |].
  rewrite datetime_add_sub. lia.
Qed.

(** X18.  For an obstacle whose position is defined, with a resolution of
    0 milliseconds and a timespan that is not negative, the loop of
    [track] in [live_kml] never ends: whatever the number of iterations
    allowed, it is still running, and no line string is completed. *)
Theorem live_kml_coords_zero_resolution (s : state tck) (timespan : Z)
    (fuel : nat) :
  coherent (obj s) ->
  (forall t, exists p, (get_position (Some t) s).1 = Ok p) ->
  0 <= timespan ->
  (live_kml_coords fuel timespan 0 s).1 = Ok None.
Proof using datetime_add_sub.
  intros Hco Hdef Hspan.
  unfold live_kml_coords, track, mbind, M_bind, timezone_now.
  set (now := in_utc (clock (ticks s))).
  set (s1 := {| obj := obj s; ticks := S (ticks s) |}).
  assert (Hsame : same_obstacle s s1)
    by exact (conj Hco (conj Hco (conj eq_refl eq_refl))).
  pose proof (track_while_no_end s (datetime_add now (- timespan)) fuel Hdef
                now [] s1 Hsame) as H.
  change (0 * 1000) with 0.
  destruct (track_while fuel now (datetime_add now (- timespan)) 0 [] s1)
    as [r s2]. cbn [fst snd] in H. rewrite H; [reflexivity |].
  rewrite (datetime_sub_opp now), datetime_add_sub, datetime_sub_diag. lia.
Qed.

End Timeline.

End MovingObstacle.

(** ** The rounding of binary64

    It is monotone, rounds 0 to 0 and leaves a float unchanged: the three
    laws that the theorems on sums assume of a rounding. *)

Lemma round_half_even_bounds (n d : Z) :
  0 < d ->
  2 * (d * round_half_even n d) - d <= 2 * n <=
  2 * (d * round_half_even n d) + d.
Proof.
  intros Hd. unfold round_half_even.
  pose proof (Z.div_mod n d ltac:(lia)) as Hn.
  pose proof (Z.mod_pos_bound n d Hd) as Hr.
  destruct (Z.compare_spec (2 * (n mod d)) d) as [E|E|E];
    [destruct (Z.even (n / d)) |..]; lia.
Qed.

(** A number halfway between two integers is rounded to the even one. *)
Lemma round_half_even_tie (n d : Z) :
  0 < d ->
  2 * n = 2 * (d * round_half_even n d) + d \/
  2 * n = 2 * (d * round_half_even n d) - d ->
  Z.even (round_half_even n d) = true.
Proof.
  intros Hd. unfold round_half_even.
  pose proof (Z.div_mod n d ltac:(lia)) as Hn.
  pose proof (Z.mod_pos_bound n d Hd) as Hr.
  destruct (Z.compare_spec (2 * (n mod d)) d) as [E|E|E]; [| lia..].
  destruct (Z.even (n / d)) eqn:Ev; intros [H|H]; try lia; try exact Ev.
  replace (n / d + 1) with (Z.succ (n / d)) by lia.
  rewrite Z.even_succ, <- Z.negb_even, Ev. reflexivity.
Qed.

Lemma round_half_even_mono (n1 d1 n2 d2 : Z) :
  0 < d1 -> 0 < d2 -> n1 * d2 <= n2 * d1 ->
  round_half_even n1 d1 <= round_half_even n2 d2.
Proof.
  intros Hd1 Hd2 Hle.
  pose proof (round_half_even_bounds n1 d1 Hd1) as [L1 _].
  pose proof (round_half_even_bounds n2 d2 Hd2) as [_ U2].
  pose proof (round_half_even_tie n1 d1 Hd1) as T1.
  pose proof (round_half_even_tie n2 d2 Hd2) as T2.
  set (r1 := round_half_even n1 d1) in *.
  set (r2 := round_half_even n2 d2) in *.
  destruct (Z_le_gt_dec r1 r2) as [|Hgt]; [assumption | exfalso].
  assert (H1 : (2 * (d1 * r1) - d1) * d2 <= 2 * n1 * d2)
    by (apply Z.mul_le_mono_nonneg_r; lia).
  assert (H2 : 2 * n2 * d1 <= (2 * (d2 * r2) + d2) * d1)
    by (apply Z.mul_le_mono_nonneg_r; lia).
  assert (H3 : (d1 * d2) * (2 * r1 - 1) <= (d1 * d2) * (2 * r2 + 1)) by lia.
  assert (Hdd : 0 < d1 * d2) by lia.
  apply Z.mul_le_mono_pos_l in H3; [| exact Hdd].
  assert (Hr : r1 = r2 + 1) by lia.
  assert (E1 : 2 * n1 = 2 * (d1 * r1) - d1).
  { apply (Z.mul_cancel_r _ _ d2); [lia |]. subst r1. lia. }
  assert (E2 : 2 * n2 = 2 * (d2 * r2) + d2).
  { apply (Z.mul_cancel_r _ _ d1); [lia |]. subst r1. lia. }
  specialize (T1 (or_intror E1)). specialize (T2 (or_introl E2)).
  rewrite Hr in T1. replace (r2 + 1) with (Z.succ r2) in T1 by lia.
  rewrite Z.even_succ, <- Z.negb_even, T2 in T1. discriminate.
Qed.

Lemma round_half_even_exact (k d : Z) :
  0 < d -> round_half_even (k * d) d = k.
Proof.
  intros Hd. unfold round_half_even.
  rewrite Z.div_mul, Z.mod_mul by lia.
  destruct (Z.compare_spec (2 * 0) d); lia.
Qed.

Lemma round_half_even_scale (c n d : Z) :
  0 < c -> 0 < d -> round_half_even (c * n) (c * d) = round_half_even n d.
Proof.
  intros Hc Hd. unfold round_half_even.
  rewrite Z.div_mul_cancel_l, Z.mul_mod_distr_l by lia.
  replace (2 * (c * (n mod d))) with (c * (2 * (n mod d))) by lia.
  rewrite <- (Zmult_compare_compat_l _ _ c) by lia. reflexivity.
Qed.

Lemma round_half_even_nonneg (n d : Z) :
  0 <= n -> 0 < d -> 0 <= round_half_even n d.
Proof.
  intros Hn Hd. rewrite <- (round_half_even_exact 0 d Hd) at 1.
  apply round_half_even_mono; lia.
Qed.

Lemma pow2_pos (k : Z) : 0 <= k -> 0 < 2 ^ k.
Proof. intros Hk. apply Z.pow_pos_nonneg; lia. Qed.

Lemma pow2_split (a b : Z) : 0 <= a -> 0 <= b -> 2 ^ (a + b) = 2 ^ a * 2 ^ b.
Proof. intros Ha Hb. apply Z.pow_add_r; assumption. Qed.

Lemma exponent_ge (n d : Z) : -1127 <= exponent n d.
Proof. unfold exponent. pose proof (Z.log2_nonneg (n * 2 ^ 1127 / d)). lia. Qed.

Lemma exponent_mono (n1 d1 n2 d2 : Z) :
  0 < d1 -> 0 < d2 -> n1 * d2 <= n2 * d1 ->
  exponent n1 d1 <= exponent n2 d2.
Proof.
  intros Hd1 Hd2 Hle. unfold exponent.
  apply Z.sub_le_mono_r, Z.log2_le_mono, Z.div_le_lower_bound; [exact Hd2 |].
  set (K := 2 ^ 1127). assert (HK : 0 < K) by (apply pow2_pos; lia).
  pose proof (Z.mul_div_le (n1 * K) d1 Hd1) as Hy.
  set (y := n1 * K / d1) in *.
  apply (Z.mul_le_mono_pos_l _ _ d1); [exact Hd1 |].
  assert (H1 : d2 * (d1 * y) <= d2 * (n1 * K))
    by (apply Z.mul_le_mono_nonneg_l; lia).
  assert (H2 : n1 * d2 * K <= n2 * d1 * K)
    by (apply Z.mul_le_mono_nonneg_r; lia).
  lia.
Qed.

Lemma exponent_scale (c n d : Z) :
  0 < c -> 0 < d -> exponent (c * n) (c * d) = exponent n d.
Proof.
  intros Hc Hd. unfold exponent.
  rewrite <- Z.mul_assoc, Z.div_mul_cancel_l by lia. reflexivity.
Qed.

Lemma exponent_upper (n d : Z) :
  0 <= n -> 0 < d -> n * 2 ^ 1127 < d * 2 ^ (exponent n d + 1128).
Proof.
  intros Hn Hd. unfold exponent.
  set (K := 2 ^ 1127). assert (HK : 0 < K) by (apply pow2_pos; lia).
  pose proof (Z.mul_succ_div_gt (n * K) d Hd) as Hy.
  assert (H0 : 0 <= n * K / d) by (apply Z.div_pos; lia).
  set (y := n * K / d) in *.
  replace (Z.log2 y - 1127 + 1128) with (Z.succ (Z.log2 y)) by lia.
  assert (Hlt : Z.succ y <= 2 ^ Z.succ (Z.log2 y)).
  { destruct (Z.eq_dec y 0) as [->|Hne]; [by vm_compute |].
    pose proof (Z.log2_spec y ltac:(lia)). lia. }
  assert (d * Z.succ y <= d * 2 ^ Z.succ (Z.log2 y))
    by (apply Z.mul_le_mono_nonneg_l; lia).
  lia.
Qed.

Lemma exponent_lower (n d : Z) :
  0 < d -> -1127 < exponent n d ->
  d * 2 ^ (exponent n d + 1127) <= n * 2 ^ 1127.
Proof.
  intros Hd. unfold exponent. intros He.
  set (K := 2 ^ 1127) in *.
  pose proof (Z.mul_div_le (n * K) d Hd) as Hy.
  set (y := n * K / d) in *.
  replace (Z.log2 y - 1127 + 1127) with (Z.log2 y) by lia.
  assert (Hy0 : 0 < y).
  { destruct (Z_lt_le_dec 0 y) as [|Hle]; [assumption |].
    rewrite (Z.log2_nonpos y Hle) in He. lia. }
  pose proof (Z.log2_spec y Hy0) as [Hlow _].
  assert (d * 2 ^ Z.log2 y <= d * y)
    by (apply Z.mul_le_mono_nonneg_l; lia).
  lia.
Qed.

Lemma quantum_ge (n d : Z) : -1074 <= quantum n d.
Proof. unfold quantum. lia. Qed.

Lemma quantum_mono (n1 d1 n2 d2 : Z) :
  0 < d1 -> 0 < d2 -> n1 * d2 <= n2 * d1 ->
  quantum n1 d1 <= quantum n2 d2.
Proof.
  intros Hd1 Hd2 Hle. unfold quantum.
  pose proof (exponent_mono n1 d1 n2 d2 Hd1 Hd2 Hle). lia.
Qed.

Lemma quantum_scale (c n d : Z) :
  0 < c -> 0 < d -> quantum (c * n) (c * d) = quantum n d.
Proof. intros Hc Hd. unfold quantum. by rewrite exponent_scale. Qed.

Lemma significand_scale (c n d : Z) :
  0 < c -> 0 < d -> significand (c * n) (c * d) = significand n d.
Proof.
  intros Hc Hd. unfold significand. rewrite quantum_scale by assumption.
  rewrite <- !Z.mul_assoc. apply round_half_even_scale; [assumption |].
  pose proof (quantum_ge n d).
  pose proof (pow2_pos (quantum n d + 1074) ltac:(lia)). lia.
Qed.

Lemma significand_nonneg (n d : Z) :
  0 <= n -> 0 < d -> 0 <= significand n d.
Proof.
  intros Hn Hd. unfold significand.
  pose proof (quantum_ge n d).
  pose proof (pow2_pos (quantum n d + 1074) ltac:(lia)).
  pose proof (pow2_pos 1074 ltac:(lia)).
  apply round_half_even_nonneg; lia.
Qed.

Lemma significand_upper (n d : Z) :
  0 <= n -> 0 < d -> significand n d <= 2 ^ 53.
Proof.
  intros Hn Hd. unfold significand.
  pose proof (quantum_ge n d) as Hq.
  pose proof (exponent_upper n d Hn Hd) as Hup.
  assert (He : exponent n d + 1128 <= quantum n d + 1180)
    by (unfold quantum; lia).
  pose proof (Z.pow_le_mono_r 2 _ _ ltac:(lia) He) as Hpow.
  pose proof (exponent_ge n d) as Hge.
  set (q := quantum n d) in *. set (e := exponent n d) in *.
  replace 1127 with (1074 + 53) in Hup by lia.
  replace (q + 1180) with ((q + 1074) + 53 + 53) in Hpow by lia.
  rewrite (pow2_split 1074 53) in Hup by lia.
  rewrite (pow2_split (q + 1074 + 53) 53), (pow2_split (q + 1074) 53) in Hpow
    by lia.
  pose proof (pow2_pos (q + 1074) ltac:(lia)) as HD.
  pose proof (pow2_pos 1074 ltac:(lia)) as HK.
  pose proof (pow2_pos 53 ltac:(lia)) as H53.
  set (D := 2 ^ (q + 1074)) in *. set (K := 2 ^ 1074) in *.
  set (P := 2 ^ 53) in *.
  assert (Hlt : n * K * P < d * (D * P * P)).
  { eapply Z.lt_le_trans; [rewrite <- Z.mul_assoc; exact Hup |].
    apply Z.mul_le_mono_nonneg_l; lia. }
  assert (Hle : n * K <= P * (d * D)).
  { apply Z.lt_le_incl. apply (Z.mul_lt_mono_pos_r P); [exact H53 |]. lia. }
  rewrite <- (round_half_even_exact P (d * D)) by lia.
  apply round_half_even_mono; [lia | lia |].
  apply Z.mul_le_mono_nonneg_r; lia.
Qed.

Lemma significand_lower (n d : Z) :
  0 < d -> -1074 < quantum n d -> 2 ^ 52 <= significand n d.
Proof.
  intros Hd Hq. unfold significand.
  assert (He : quantum n d = exponent n d - 52) by (unfold quantum in *; lia).
  pose proof (exponent_lower n d Hd ltac:(lia)) as Hlow.
  set (q := quantum n d) in *. set (e := exponent n d) in *.
  replace (e + 1127) with ((q + 1074) + 52 + 53) in Hlow by lia.
  replace 1127 with (1074 + 53) in Hlow by lia.
  rewrite (pow2_split 1074 53), (pow2_split (q + 1074 + 52) 53),
    (pow2_split (q + 1074) 52) in Hlow by lia.
  pose proof (pow2_pos (q + 1074) ltac:(lia)) as HD.
  pose proof (pow2_pos 1074 ltac:(lia)) as HK.
  pose proof (pow2_pos 53 ltac:(lia)) as H53.
  pose proof (pow2_pos 52 ltac:(lia)) as H52.
  set (D := 2 ^ (q + 1074)) in *. set (K := 2 ^ 1074) in *.
  set (P := 2 ^ 53) in *. set (P' := 2 ^ 52) in *.
  assert (Hle : P' * (d * D) <= n * K).
  { apply (Z.mul_le_mono_pos_r _ _ P); [exact H53 |]. lia. }
  rewrite <- (round_half_even_exact P' (d * D)) by lia.
  apply round_half_even_mono; [lia | lia |].
  apply Z.mul_le_mono_nonneg_r; lia.
Qed.

Lemma Q2Qc_le (a b : Q) : (a <= b)%Q -> (Q2Qc a ≤ Q2Qc b)%Qc.
Proof.
  intros H. unfold Qcle. cbn [this Q2Qc]. by rewrite !Qred_correct.
Qed.

Lemma round64_pos_leading (n1 d1 n2 d2 : Z) :
  0 <= n1 -> 0 < d1 -> 0 < d2 -> n1 * d2 <= n2 * d1 ->
  significand n1 d1 * 2 ^ (quantum n1 d1 + 1074) <=
    significand n2 d2 * 2 ^ (quantum n2 d2 + 1074) /\
  quantum n1 d1 + Z.log2 (significand n1 d1) <=
    quantum n2 d2 + Z.log2 (significand n2 d2).
Proof.
  intros Hn1 Hd1 Hd2 Hle.
  pose proof (quantum_mono n1 d1 n2 d2 Hd1 Hd2 Hle) as Hq.
  pose proof (quantum_ge n1 d1) as Hq1.
  pose proof (significand_nonneg n1 d1 Hn1 Hd1) as Hm1.
  pose proof (pow2_pos (quantum n1 d1 + 1074) ltac:(lia)) as HD1.
  pose proof (pow2_pos (quantum n2 d2 + 1074) ltac:(lia)) as HD2.
  destruct (Z.eq_dec (quantum n1 d1) (quantum n2 d2)) as [E|Hne].
  - assert (Hm : significand n1 d1 <= significand n2 d2).
    { unfold significand. rewrite E.
      pose proof (pow2_pos 1074 ltac:(lia)) as HK.
      set (D := 2 ^ (quantum n2 d2 + 1074)) in *. set (K := 2 ^ 1074) in *.
      apply round_half_even_mono; [lia | lia |].
      assert (n1 * d2 * (K * D) <= n2 * d1 * (K * D))
        by (apply Z.mul_le_mono_nonneg_r; lia).
      lia. }
    rewrite E. split.
    + apply Z.mul_le_mono_nonneg_r; lia.
    + pose proof (Z.log2_le_mono _ _ Hm). lia.
  - pose proof (significand_upper n1 d1 Hn1 Hd1) as Hup.
    pose proof (significand_lower n2 d2 Hd2 ltac:(lia)) as Hlow.
    pose proof (Z.log2_le_mono _ _ Hup) as Hl1.
    pose proof (Z.log2_le_mono _ _ Hlow) as Hl2.
    rewrite Z.log2_pow2 in Hl1, Hl2 by lia.
    split; [| lia].
    assert (Hpow : 2 ^ (quantum n1 d1 + 1074 + 1) <= 2 ^ (quantum n2 d2 + 1074))
      by (apply Z.pow_le_mono_r; lia).
    rewrite (pow2_split (quantum n1 d1 + 1074) 1) in Hpow by lia.
    change (2 ^ 53) with (2 ^ 52 * 2 ^ 1) in Hup.
    pose proof (pow2_pos 52 ltac:(lia)) as H52.
    set (D1 := 2 ^ (quantum n1 d1 + 1074)) in *.
    set (D2 := 2 ^ (quantum n2 d2 + 1074)) in *.
    set (P := 2 ^ 52) in *. change (2 ^ 1) with 2 in *.
    assert (significand n1 d1 * D1 <= P * 2 * D1)
      by (apply Z.mul_le_mono_nonneg_r; lia).
    assert (P * (D1 * 2) <= P * D2)
      by (apply Z.mul_le_mono_nonneg_l; lia).
    assert (P * D2 <= significand n2 d2 * D2)
      by (apply Z.mul_le_mono_nonneg_r; lia).
    lia.
Qed.

Lemma round64_pos_mono (n1 d1 n2 d2 : positive) :
  Zpos n1 * Zpos d2 <= Zpos n2 * Zpos d1 ->
  fle (round64_pos n1 d1) (round64_pos n2 d2) = true.
Proof.
  intros Hle.
  destruct (round64_pos_leading (Zpos n1) (Zpos d1) (Zpos n2) (Zpos d2))
    as [Hval Hlog]; [lia.. |].
  unfold round64_pos.
  destruct (_ + Z.log2 (significand (Zpos n1) _) >=? 1024) eqn:O1;
    destruct (_ + Z.log2 (significand (Zpos n2) _) >=? 1024) eqn:O2;
    try reflexivity.
  - rewrite Z.geb_leb in O1, O2.
    apply Z.leb_le in O1. apply Z.leb_gt in O2. lia.
  - cbn [fle]. apply bool_decide_eq_true, Q2Qc_le.
    unfold Qle. cbn [Qnum Qden].
    apply Z.mul_le_mono_nonneg_r; [lia | exact Hval].
Qed.

Lemma round64_pos_nonneg (n d : positive) :
  fle fzero (round64_pos n d) = true.
Proof.
  unfold round64_pos. destruct (_ >=? 1024); [reflexivity |].
  cbn [fle fzero]. apply bool_decide_eq_true.
  change 0%Qc with (Q2Qc 0). apply Q2Qc_le.
  unfold Qle. cbn [Qnum Qden]. rewrite Z.mul_1_r. change (0 * _) with 0.
  pose proof (significand_nonneg (Zpos n) (Zpos d) ltac:(lia) ltac:(lia)).
  pose proof (quantum_ge (Zpos n) (Zpos d)).
  pose proof (pow2_pos (quantum (Zpos n) (Zpos d) + 1074) ltac:(lia)).
  apply Z.mul_nonneg_nonneg; lia.
Qed.

Lemma round64_pos_ext (n1 d1 n2 d2 : positive) :
  Zpos n1 * Zpos d2 = Zpos n2 * Zpos d1 ->
  round64_pos n1 d1 = round64_pos n2 d2.
Proof.
  intros E. unfold round64_pos.
  assert (Hq : quantum (Zpos n1) (Zpos d1) = quantum (Zpos n2) (Zpos d2)).
  { rewrite <- (quantum_scale (Zpos d2) (Zpos n1) (Zpos d1)) by lia.
    rewrite <- (quantum_scale (Zpos d1) (Zpos n2) (Zpos d2)) by lia.
    f_equal; lia. }
  assert (Hm : significand (Zpos n1) (Zpos d1)
               = significand (Zpos n2) (Zpos d2)).
  { rewrite <- (significand_scale (Zpos d2) (Zpos n1) (Zpos d1)) by lia.
    rewrite <- (significand_scale (Zpos d1) (Zpos n2) (Zpos d2)) by lia.
    f_equal; lia. }
  by rewrite Hq, Hm.
Qed.

Lemma fle_fneg (a b : pyfloat) :
  fle a b = true -> fle (fneg b) (fneg a) = true.
Proof.
  destruct a as [x|[|]|], b as [y|[|]|]; try done.
  cbn [fle fneg]. rewrite !bool_decide_eq_true. apply Qcopp_le_compat.
Qed.

Lemma binary64_monotone :
  forall x y : Qc, (x ≤ y)%Qc -> fle (binary64 x) (binary64 y) = true.
Proof.
  intros [[nx dx] Hx] [[ny dy] Hy]. unfold Qcle, Qle, binary64.
  cbn [this Qnum Qden]. intros Hle.
  destruct nx as [|nx|nx], ny as [|ny|ny]; try lia.
  - reflexivity.
  - apply round64_pos_nonneg.
  - by apply round64_pos_mono.
  - apply (fle_fneg fzero), round64_pos_nonneg.
  - apply (fle_trans _ fzero).
    + apply (fle_fneg fzero), round64_pos_nonneg.
    + apply round64_pos_nonneg.
  - apply fle_fneg, round64_pos_mono. lia.
Qed.

Lemma binary64_zero : binary64 0%Qc = fzero.
Proof. reflexivity. Qed.

Lemma exponent_pow2 (m Q : Z) :
  0 < m -> 0 <= Q ->
  exponent (m * 2 ^ Q) (2 ^ 1074) = Q - 1074 + Z.log2 m.
Proof.
  intros Hm HQ. unfold exponent.
  replace 1127 with (53 + 1074) at 1 by lia.
  rewrite (pow2_split 53 1074) by lia.
  pose proof (pow2_pos 1074 ltac:(lia)) as HK.
  rewrite (Z.mul_assoc (m * 2 ^ Q)), Z.div_mul by lia.
  rewrite <- Z.mul_assoc, <- pow2_split by lia.
  rewrite Z.log2_mul_pow2 by lia. lia.
Qed.

(** A number with at most 53 bits above 2^-1074 is a float. *)
Lemma round64_pos_representable (m q : Z) :
  0 < m -> Z.log2 m <= 52 -> -1074 <= q -> q + Z.log2 m < 1024 ->
  round64_pos (Z.to_pos (m * 2 ^ (q + 1074))) (2 ^ 1074)
  = Fin (Q2Qc (m * 2 ^ (q + 1074) # 2 ^ 1074)).
Proof.
  intros Hm Hlog Hq Hfin. unfold round64_pos.
  pose proof (pow2_pos (q + 1074) ltac:(lia)) as HD.
  pose proof (pow2_pos 1074 ltac:(lia)) as HK.
  rewrite Z2Pos.id by lia. rewrite Pos2Z.inj_pow.
  change (Z.pos 2 ^ Z.pos 1074) with (2 ^ 1074).
  assert (Hquantum : quantum (m * 2 ^ (q + 1074)) (2 ^ 1074)
                     = Z.max (q + Z.log2 m - 52) (-1074)).
  { unfold quantum. rewrite exponent_pow2 by lia. f_equal. lia. }
  set (q' := Z.max (q + Z.log2 m - 52) (-1074)) in *.
  assert (Hsplit : m * 2 ^ (q + 1074) = m * 2 ^ (q - q') * 2 ^ (q' + 1074)).
  { rewrite <- Z.mul_assoc, <- pow2_split by lia. do 2 f_equal. lia. }
  assert (Hsignificand : significand (m * 2 ^ (q + 1074)) (2 ^ 1074)
                         = m * 2 ^ (q - q')).
  { unfold significand. rewrite Hquantum. rewrite Hsplit at 1.
    pose proof (pow2_pos (q' + 1074) ltac:(lia)).
    rewrite <- Z.mul_assoc, (Z.mul_comm (2 ^ (q' + 1074))).
    apply round_half_even_exact. lia. }
  rewrite Hquantum, Hsignificand, Z.log2_mul_pow2 by lia.
  destruct (q' + (q - q' + Z.log2 m) >=? 1024) eqn:O.
  - rewrite Z.geb_leb in O. apply Z.leb_le in O. lia.
  - by rewrite <- Hsplit.
Qed.

Lemma binary64_Q2Qc_pos (N : Z) (K : positive) :
  0 < N -> binary64 (Q2Qc (N # K)) = round64_pos (Z.to_pos N) K.
Proof.
  intros HN. unfold binary64. cbn [this Q2Qc].
  pose proof (Qred_correct (N # K)) as E.
  destruct (Qred (N # K)) as [n' d']. unfold Qeq in E. cbn [Qnum Qden] in *.
  destruct n' as [|p|p]; [nia | | nia].
  apply round64_pos_ext. rewrite Z2Pos.id by lia. exact E.
Qed.

Lemma round64_pos_fixed (n d : positive) (y : Qc) :
  round64_pos n d = Fin y -> binary64 y = Fin y.
Proof.
  unfold round64_pos.
  pose proof (significand_nonneg (Zpos n) (Zpos d) ltac:(lia) ltac:(lia))
    as Hm0.
  pose proof (significand_upper (Zpos n) (Zpos d) ltac:(lia) ltac:(lia))
    as Hm53.
  pose proof (quantum_ge (Zpos n) (Zpos d)) as Hq.
  set (m := significand (Zpos n) (Zpos d)) in *.
  set (q := quantum (Zpos n) (Zpos d)) in *.
  destruct (q + Z.log2 m >=? 1024) eqn:O; [discriminate |].
  rewrite Z.geb_leb in O. apply Z.leb_gt in O.
  intros E.
  assert (Hy : y = Q2Qc (m * 2 ^ (q + 1074) # 2 ^ 1074)).
  { exact (f_equal (fun x => match x with Fin v => v | _ => y end)
             (eq_sym E)). }
  clear E. subst y.
  destruct (Z.eq_dec m 0) as [E0|Hne].
  - rewrite E0.
    assert (Hz : Q2Qc (0 * 2 ^ (q + 1074) # 2 ^ 1074) = 0%Qc)
      by (apply Qc_is_canon; reflexivity).
    rewrite Hz. reflexivity.
  - pose proof (pow2_pos (q + 1074) ltac:(lia)) as HD.
    rewrite binary64_Q2Qc_pos by (apply Z.mul_pos_pos; lia).
    destruct (Z_le_gt_dec (Z.log2 m) 52) as [Hlog|Hlog].
    + apply round64_pos_representable; lia.
    + assert (Hm : m = 2 ^ 52 * 2 ^ 1).
      { pose proof (Z.log2_spec m ltac:(lia)) as [Hlow _].
        assert (2 ^ 53 <= 2 ^ Z.log2 m) by (apply Z.pow_le_mono_r; lia).
        change (2 ^ 52 * 2 ^ 1) with (2 ^ 53). lia. }
      assert (HN : m * 2 ^ (q + 1074) = 2 ^ 52 * 2 ^ (q + 1 + 1074)).
      { rewrite Hm, <- Z.mul_assoc, <- pow2_split by lia.
        do 2 f_equal. lia. }
      rewrite HN. rewrite Hm in O.
      rewrite Z.log2_mul_pow2, Z.log2_pow2 in O by lia.
      apply round64_pos_representable;
        rewrite ?Z.log2_pow2 by lia; lia.
Qed.

Lemma binary64_opp (v : Qc) : binary64 (- v)%Qc = fneg (binary64 v).
Proof.
  destruct v as [[n d] H]. unfold binary64, Qcopp. cbn [this Q2Qc].
  rewrite Qred_opp, H. cbn [Qopp Qnum Qden].
  destruct n as [|p|p];
    [| change (- Z.pos p) with (Z.neg p) | change (- Z.neg p) with (Z.pos p)];
    cbv iota.
  - cbn [fneg fzero]. f_equal; by apply Qc_is_canon.
  - reflexivity.
  - destruct (round64_pos p d) as [x|negative|]; cbn [fneg].
    + by rewrite Qcopp_involutive.
    + by rewrite negb_involutive.
    + reflexivity.
Qed.

Lemma binary64_idempotent :
  forall x y : Qc, binary64 x = Fin y -> binary64 y = Fin y.
Proof.
  intros [[n d] H] y. unfold binary64 at 1. cbn [this Qnum Qden].
  destruct n as [|p|p].
  - intros E.
    rewrite <- (f_equal (fun x => match x with Fin v => v | _ => y end) E).
    reflexivity.
  - apply round64_pos_fixed.
  - destruct (round64_pos p d) as [v|negative|] eqn:R; try discriminate.
    cbn [fneg]. intros E.
    rewrite <- (f_equal (fun x => match x with Fin v => v | _ => y end) E).
    rewrite binary64_opp, (round64_pos_fixed p d v R). reflexivity.
Qed.

(** ** The concrete environment meets the assumptions *)

Lemma Fin_inj (a b : Qc) : Fin a = Fin b -> a = b.
Proof.
  intros E.
  exact (f_equal (fun x => match x with Fin v => v | _ => a end) E).
Qed.

(** Two numbers are the same number when they are the same rational. *)
Lemma Fin_eq (a b : Qc) : (a == b)%Q -> Fin a = Fin b.
Proof. intros H. by rewrite (Qc_is_canon _ _ H). Qed.

(** Equality of computed results, number by number. *)
Ltac floats :=
  repeat first [apply Fin_eq; reflexivity | reflexivity | progress f_equal].

Lemma Demo_distance_zero_iff :
  forall a b, Demo.Waypoint_distance_to a b = fzero <-> position a = position b.
Proof.
  intros a b. unfold Demo.Waypoint_distance_to.
  destruct (decide (position a = position b)) as [H|H].
  - split; [intros _; exact H | reflexivity].
  - split; [| contradiction].
    intros E. apply Fin_inj in E. apply (f_equal this) in E. discriminate.
Qed.

Lemma Demo_distance_nonneg :
  forall a b, exists d, Demo.Waypoint_distance_to a b = Fin d /\ (0 ≤ d)%Qc.
Proof.
  intros a b. unfold Demo.Waypoint_distance_to.
  destruct (decide (position a = position b)); eexists;
    (split; [reflexivity | by vm_compute]).
Qed.

Lemma Demo_distance_same_position :
  forall a b, position a = position b ->
    Demo.Waypoint_distance_to a b = fzero.
Proof. intros a b H. by apply Demo_distance_zero_iff. Qed.

Lemma Demo_distance_to_self :
  forall a b c : Qc,
    Demo.distance_to (Fin a) (Fin b) (Fin c) (Fin a) (Fin b) (Fin c) = fzero.
Proof. intros a b c. unfold Demo.distance_to. by rewrite decide_True. Qed.

Lemma Demo_datetime_add_sub :
  forall t d u,
    datetime_sub (Demo.datetime_add t d) u = datetime_sub t u + d.
Proof.
  intros t d u. unfold Demo.datetime_add.
  set (us := (hour t * 3600 + minute t * 60 + second t) * 1000000
             + microsecond t + d).
  destruct ((0 <=? us) && (us <? 86400000000));
    unfold datetime_sub, civil_micros, toordinal;
    cbn [year month day hour minute second microsecond utcoffset]; [| lia].
  pose proof (Z.div_mod us 1000000 ltac:(lia)) as H1.
  pose proof (Z.div_mod (us / 1000000) 60 ltac:(lia)) as H2.
  pose proof (Z.div_mod (us / 1000000 / 60) 60 ltac:(lia)) as H3.
  rewrite !Z.div_div in H2, H3 by lia.
  rewrite !Z.div_div in H3 by lia.
  change (1000000 * 60) with 60000000 in *.
  change (60000000 * 60) with 3600000000 in *.
  subst us. lia.
Qed.

(** ** The theorems at work, in the arithmetic that does not round *)

Section ExactArithmetic.

#[local] Existing Instance exact_arithmetic.

Lemma exact_rnd_monotone :
  forall x y : Qc, (x ≤ y)%Qc -> fle (rnd x) (rnd y) = true.
Proof. intros x y H. by apply bool_decide_eq_true. Qed.

Lemma exact_rnd_zero : rnd 0%Qc = fzero.
Proof. reflexivity. Qed.

Lemma exact_rnd_idempotent : forall x y : Qc, rnd x = Fin y -> rnd y = Fin y.
Proof. reflexivity. Qed.

Lemma Demo_knots_nonzero :
  forall s, fle s fzero = false -> Demo.knots_to_feet_per_second s <> fzero.
Proof.
  intros [q|negative|] Hs E; [| discriminate..]. apply Fin_inj in E.
  apply Qcmult_integral in E as [->|Hc].
  - vm_compute in Hs. discriminate.
  - apply (f_equal this) in Hc. vm_compute in Hc. discriminate.
Qed.

Lemma Demo_knots_positive :
  forall s, flt fzero s = true ->
    flt fzero (Demo.knots_to_feet_per_second s) = true.
Proof.
  intros [q|[|]|] Hs; try discriminate; [| reflexivity].
  apply bool_decide_eq_true in Hs. apply bool_decide_eq_true.
  apply Qcmult_pos_pos; [exact Hs |]. reflexivity.
Qed.

Local Abbreviation demo_get_position :=
  (get_position Demo.splrep Demo.splev Demo.Waypoint_distance_to
     Demo.knots_to_feet_per_second Demo.clock).

Local Abbreviation demo_evaluate :=
  (evaluate_collision_with_uas Demo.splrep Demo.splev
     Demo.Waypoint_distance_to Demo.distance_to
     Demo.knots_to_feet_per_second Demo.interpolate Demo.clock).

Local Abbreviation demo_loop :=
  (evaluate_collision_loop Demo.splrep Demo.splev Demo.Waypoint_distance_to
     Demo.distance_to Demo.knots_to_feet_per_second Demo.clock).

Local Abbreviation demo_filter :=
  (filter_consecutive_duplicates Demo.Waypoint_distance_to).

Local Abbreviation demo_travel_times :=
  (get_inter_waypoint_travel_times Demo.Waypoint_distance_to
     Demo.knots_to_feet_per_second).

Local Abbreviation demo_spline_curve :=
  (get_spline_curve Demo.splrep Demo.Waypoint_distance_to
     Demo.knots_to_feet_per_second).

Local Abbreviation demo_json :=
  (json Demo.splrep Demo.splev Demo.Waypoint_distance_to
     Demo.knots_to_feet_per_second Demo.clock).

Local Abbreviation demo_kml_track_data :=
  (kml_track_data Demo.splrep Demo.splev Demo.Waypoint_distance_to
     Demo.knots_to_feet_per_second Demo.clock Demo.feet_to_meters
     Demo.datetime_add Demo.strftime).

Local Abbreviation demo_live_kml_coords :=
  (live_kml_coords Demo.splrep Demo.splev Demo.Waypoint_distance_to
     Demo.knots_to_feet_per_second Demo.clock Demo.feet_to_meters
     Demo.datetime_add).

(** The fit of the two-waypoint circuit succeeds, so the obstacle has a
    position at every time. *)
Lemma Demo_obstacle_positions :
  forall t, exists p,
    (demo_get_position (Some t) (mk_state Demo.obstacle 0)).1 = Ok p.
Proof.
  intros t.
  eapply (get_position_Ok_any_time _ _ _ _ _ (mk_state Demo.obstacle 0)
            (Demo.time 0 0 0));
    [apply coherent_fresh | vm_compute; reflexivity].
Qed.

(** Half a second after the epoch the two-waypoint obstacle is where the
    stand-in evaluation puts it: the first ordinate plus the time. *)
Example get_position_half_second :
  (demo_get_position
     (Some (mk_datetime 1970 1 1 0 0 0 500000 0))
     (mk_state Demo.obstacle 0)).1
  = Ok (Fin (Q2Qc (3 # 2)), Fin (Q2Qc (5 # 2)), Fin (Q2Qc (7 # 2))).
Proof. vm_compute. floats. Qed.

(** Without rounding, the position seven periods of one second later is
    the position itself. *)
Example get_position_seven_periods_later :
  (demo_get_position
     (Some (mk_datetime 1970 1 1 0 0 7 500000 0))
     (mk_state Demo.obstacle 0)).1
  = (demo_get_position
       (Some (mk_datetime 1970 1 1 0 0 0 500000 0))
       (mk_state Demo.obstacle 0)).1.
Proof.
  rewrite get_position_half_second.
  vm_compute. floats.
Qed.

(** A circuit that goes there and back and lists the first waypoint again
    at its end has a closing leg of no time: the last two arrival times
    are equal and the fit refuses them, at every time. *)
Example get_position_there_and_back :
  (demo_get_position (Some (Demo.time 0 0 1))
     (mk_state (fresh Demo.there_and_back (Fin 1%Qc) (Fin 1%Qc)) 0)).1
  = Raise ValueError.
Proof. vm_compute. reflexivity. Qed.

(** A log at distance 1 of an obstacle of radius 1 is a collision: the
    test is inclusive. *)
Example collision_on_the_sphere :
  (demo_evaluate
     [mk_telemetry (Demo.time 0 0 1) (Demo.at_ 9 9 9)]
     (mk_state (fresh Demo.two_wps (Fin 1%Qc) (Fin 1%Qc)) 0)).1 = Ok true.
Proof. vm_compute. reflexivity. Qed.

(** The same log is outside the sphere of radius 1/2. *)
Example no_collision_outside :
  (demo_evaluate
     [mk_telemetry (Demo.time 0 0 1) (Demo.at_ 9 9 9)]
     (mk_state Demo.obstacle 0)).1 = Ok false.
Proof. vm_compute. reflexivity. Qed.

(** The leg from waypoint 0 to waypoint 1 of the two-waypoint obstacle
    takes half a second. *)
Example get_waypoint_travel_time_leg_0_1 :
  get_waypoint_travel_time Demo.Waypoint_distance_to
    Demo.knots_to_feet_per_second Demo.obstacle Demo.two_wps
    (Some 0) (Some 1) = Ok (Some (Fin (Q2Qc (1 # 2)))).
Proof.
  vm_compute. floats.
Qed.

Lemma get_position_stationary_witness :
  (length [Demo.wp 1 2 3 0] = 0%nat ->
   (demo_get_position (Some (Demo.time 12 0 0))
      (mk_state Demo.single 0)).1 = Ok (fzero, fzero, fzero)) /\
  (forall wpt, [Demo.wp 1 2 3 0] !! 0%nat = Some wpt ->
     length [Demo.wp 1 2 3 0] = 1%nat \/
     fle (speed_avg (obj (mk_state Demo.single 0))) fzero = true ->
     (demo_get_position (Some (Demo.time 12 0 0))
        (mk_state Demo.single 0)).1 =
       Ok (latitude (gps_position (position wpt)),
           longitude (gps_position (position wpt)),
           altitude_msl (position wpt))).
Proof.
  apply (get_position_stationary Demo.splrep Demo.splev
           Demo.Waypoint_distance_to Demo.knots_to_feet_per_second Demo.clock
           (Some (Demo.time 12 0 0)) (mk_state Demo.single 0)
           [Demo.wp 1 2 3 0]).
  vm_compute. reflexivity.
Defined.

Lemma get_waypoint_travel_time_sentinel_witness :
  (get_waypoint_travel_time Demo.Waypoint_distance_to
     Demo.knots_to_feet_per_second Demo.obstacle Demo.two_wps
     (Some 0) (Some 2) = Ok None <->
   Demo.two_wps = [] \/ (length Demo.two_wps < 2)%nat \/
   index_rejected Demo.two_wps (Some 0) \/
   index_rejected Demo.two_wps (Some 2) \/
   fle (speed_avg Demo.obstacle) fzero = true) /\
  (get_waypoint_travel_time Demo.Waypoint_distance_to
     Demo.knots_to_feet_per_second Demo.obstacle Demo.two_wps
     (Some 0) (Some 2) <> Ok None ->
   exists i j a b t,
     Some 0 = Some i /\ Some 2 = Some j /\
     Demo.two_wps !! Z.to_nat i = Some a /\
     Demo.two_wps !! Z.to_nat j = Some b /\
     truediv (Demo.Waypoint_distance_to a b)
       (Demo.knots_to_feet_per_second (speed_avg Demo.obstacle)) = Ok t /\
     get_waypoint_travel_time Demo.Waypoint_distance_to
       Demo.knots_to_feet_per_second Demo.obstacle Demo.two_wps
       (Some 0) (Some 2) = Ok (Some t)) /\
  (forall e,
     get_waypoint_travel_time Demo.Waypoint_distance_to
       Demo.knots_to_feet_per_second Demo.obstacle Demo.two_wps
       (Some 0) (Some 2) <> Raise e).
Proof.
  apply (get_waypoint_travel_time_sentinel Demo.Waypoint_distance_to
           Demo.knots_to_feet_per_second Demo_knots_nonzero
           Demo.obstacle Demo.two_wps (Some 0) (Some 2)).
Defined.

Lemma get_spline_curve_control_points_witness :
  exists travel_times pos_times total,
    demo_travel_times Demo.obstacle Demo.two_wps = Ok travel_times /\
    get_waypoint_times travel_times = Ok pos_times /\
    length pos_times = 3%nat /\
    pos_times !! 2%nat = Some total /\
    demo_spline_curve Demo.obstacle Demo.two_wps =
      (rep0 ← Demo.splrep pos_times
                (((fun w => latitude (gps_position (position w)))
                    <$> Demo.two_wps) ++ [fzero]) 2 1;
       rep1 ← Demo.splrep pos_times
                (((fun w => longitude (gps_position (position w)))
                    <$> Demo.two_wps) ++ [fzero]) 2 1;
       rep2 ← Demo.splrep pos_times
                (((fun w => altitude_msl (position w))
                    <$> Demo.two_wps) ++ [fzero]) 2 1;
       Ok (total, [rep0; rep1; rep2])).
Proof.
  apply (get_spline_curve_control_points Demo.splrep
           Demo.Waypoint_distance_to Demo.knots_to_feet_per_second
           Demo_knots_nonzero Demo.obstacle Demo.two_wps).
Defined.

(** C5 as the specification states it fails on the two-waypoint obstacle:
    the ordinates handed to the fit for the latitude are 1, 4 and 0, and
    the last of them is not a repeat of the first. *)
Lemma get_spline_curve_last_ordinate_zero :
  exists total times rest,
    demo_spline_curve Demo.obstacle Demo.two_wps =
      Ok (total,
          (times, [Fin (Qc_of_Z 1); Fin (Qc_of_Z 4); fzero], 2, 1) :: rest) /\
    ~ closes_the_loop (fun w => latitude (gps_position (position w)))
        Demo.two_wps [Fin (Qc_of_Z 1); Fin (Qc_of_Z 4); fzero].
Proof.
  eexists _, _, _. split; [vm_compute; reflexivity |].
  intros (_ & _ & Hlast).
  specialize (Hlast (Demo.wp 1 2 3 0) eq_refl).
  simpl in Hlast. inversion Hlast.
Qed.

Lemma get_inter_waypoint_travel_times_circuit_witness :
  exists l,
    demo_travel_times Demo.obstacle Demo.two_wps = Ok l /\
    circuit_travel_times Demo.Waypoint_distance_to
      Demo.knots_to_feet_per_second Demo.obstacle Demo.two_wps l.
Proof.
  apply (get_inter_waypoint_travel_times_circuit Demo.Waypoint_distance_to
           Demo.knots_to_feet_per_second Demo_knots_nonzero
           Demo.obstacle Demo.two_wps).
  - simpl. lia.
  - vm_compute. reflexivity.
Defined.

(** C6 as the specification states it fails for N = 1: with a single
    waypoint and a positive speed the array is [[0; nan]], and its entry 1
    is not the travel time from the waypoint back to itself. *)
Lemma get_inter_waypoint_travel_times_single :
  flt fzero (speed_avg Demo.single) = true /\
  demo_travel_times Demo.single [Demo.wp 1 2 3 0] = Ok [fzero; NaN] /\
  ~ circuit_travel_times Demo.Waypoint_distance_to
      Demo.knots_to_feet_per_second Demo.single [Demo.wp 1 2 3 0]
      [fzero; NaN].
Proof.
  split; [vm_compute; reflexivity |].
  split; [vm_compute; reflexivity |].
  intros (_ & _ & _ & Hlast).
  destruct (Hlast (Demo.wp 1 2 3 0) (Demo.wp 1 2 3 0) eq_refl eq_refl)
    as (t & Ht & Hcell).
  simpl in Hcell. inversion Hcell; subst t.
  vm_compute in Ht. discriminate.
Qed.

Lemma filter_consecutive_duplicates_idempotent_witness :
  exists l',
    demo_filter
      [Demo.wp 1 2 3 0; Demo.wp 1 2 3 1; Demo.wp 4 5 6 2; Demo.wp 1 2 3 3]
      = Ok l' /\
    demo_filter l' = Ok l'.
Proof.
  apply (filter_consecutive_duplicates_idempotent Demo.Waypoint_distance_to
           Demo_distance_zero_iff).
Defined.

Lemma get_position_deterministic_witness :
  (demo_get_position (Some (Demo.time 0 0 7)) (mk_state Demo.obstacle 0)).1 =
  (demo_get_position (Some (Demo.time 0 0 7))
     (demo_get_position None (mk_state Demo.obstacle 5)).2).1.
Proof.
  apply (get_position_deterministic Demo.splrep Demo.splev
           Demo.Waypoint_distance_to Demo.knots_to_feet_per_second Demo.clock
           Demo.two_wps (Fin (Q2Qc (20000 # 16878))) (Fin (Q2Qc (1 # 2)))).
  - apply run_start.
  - apply run_call. apply run_start.
Defined.

Lemma get_inter_waypoint_travel_times_numeric_witness :
  exists l,
    demo_travel_times Demo.obstacle Demo.two_wps = Ok l /\
    length l = 3%nat /\
    l !! 0%nat = Some fzero /\
    forall i, 1 <= i <= 2 ->
      ~ index_rejected Demo.two_wps (Some ((i - 1) mod 2)) /\
      ~ index_rejected Demo.two_wps (Some (i mod 2)) /\
      exists t,
        get_waypoint_travel_time Demo.Waypoint_distance_to
          Demo.knots_to_feet_per_second Demo.obstacle Demo.two_wps
          (Some ((i - 1) mod 2)) (Some (i mod 2)) = Ok (Some t) /\
        l !! Z.to_nat i = Some t.
Proof.
  apply (get_inter_waypoint_travel_times_numeric Demo.Waypoint_distance_to
           Demo.knots_to_feet_per_second Demo_knots_nonzero
           Demo.obstacle Demo.two_wps).
  - simpl. lia.
  - vm_compute. reflexivity.
Defined.

(** *** Further properties at work *)

Lemma filter_consecutive_duplicates_adjacent_witness :
  exists l',
    demo_filter [Demo.wp 1 2 3 0; Demo.wp 1 2 3 1; Demo.wp 4 5 6 2] = Ok l' /\
    forall i a b, l' !! i = Some a -> l' !! S i = Some b ->
      position a <> position b.
Proof.
  apply (filter_consecutive_duplicates_adjacent Demo.Waypoint_distance_to
           Demo_distance_zero_iff
           [Demo.wp 1 2 3 0; Demo.wp 1 2 3 1; Demo.wp 4 5 6 2]).
Defined.

Lemma filter_consecutive_duplicates_sublist_witness :
  exists l',
    demo_filter [Demo.wp 1 2 3 0; Demo.wp 1 2 3 1; Demo.wp 4 5 6 2] = Ok l' /\
    l' `sublist_of` [Demo.wp 1 2 3 0; Demo.wp 1 2 3 1; Demo.wp 4 5 6 2] /\
    head l' = head [Demo.wp 1 2 3 0; Demo.wp 1 2 3 1; Demo.wp 4 5 6 2].
Proof.
  apply (filter_consecutive_duplicates_sublist Demo.Waypoint_distance_to
           [Demo.wp 1 2 3 0; Demo.wp 1 2 3 1; Demo.wp 4 5 6 2]).
Defined.

Lemma filter_consecutive_duplicates_collapse_witness :
  demo_filter [Demo.wp 1 2 3 0; Demo.wp 1 2 3 1; Demo.wp 1 2 3 2]
  = Ok [Demo.wp 1 2 3 0].
Proof.
  apply (filter_consecutive_duplicates_collapse Demo.Waypoint_distance_to
           (Demo.wp 1 2 3 0) [Demo.wp 1 2 3 1; Demo.wp 1 2 3 2]
           Demo_distance_same_position).
  repeat constructor.
Defined.

Lemma get_position_raises_witness :
  (forall cur_time e,
     (demo_get_position cur_time
        (mk_state (fresh Demo.there_and_back (Fin 1%Qc) (Fin 1%Qc)) 0)).1
       = Raise e <->
     (2 <= length Demo.there_and_back)%nat /\
     fle (Fin 1%Qc) fzero = false /\
     demo_spline_curve (fresh Demo.there_and_back (Fin 1%Qc) (Fin 1%Qc))
       Demo.there_and_back = Raise e) /\
  (demo_get_position None
     (mk_state (fresh Demo.there_and_back (Fin 1%Qc) (Fin 1%Qc)) 0)).1 =
  (demo_get_position (Some (in_utc (Demo.clock 0)))
     (mk_state (fresh Demo.there_and_back (Fin 1%Qc) (Fin 1%Qc)) 0)).1.
Proof.
  apply (get_position_raises Demo.splrep Demo.splev
           Demo.Waypoint_distance_to Demo.knots_to_feet_per_second Demo.clock
           (mk_state (fresh Demo.there_and_back (Fin 1%Qc) (Fin 1%Qc)) 0)
           Demo.there_and_back).
  - apply coherent_fresh.
  - vm_compute. reflexivity.
Defined.

Lemma get_position_attributes_witness :
  let o := obj (mk_state Demo.obstacle 0) in
  let o' := obj (demo_get_position (Some (Demo.time 0 0 7))
                   (mk_state Demo.obstacle 0)).2 in
  waypoints o' = waypoints o /\
  speed_avg o' = speed_avg o /\
  sphere_radius o' = sphere_radius o /\
  is_Some (preprocessed_waypoints o') /\
  (forall w, preprocessed_waypoints o = Some w ->
     preprocessed_waypoints o' = Some w) /\
  (forall c, preprocessed_spline_curve o = Some c ->
     preprocessed_spline_curve o' = Some c) /\
  (is_Some (preprocessed_waypoints o) ->
   is_Some (preprocessed_spline_curve o) -> o' = o).
Proof.
  apply (get_position_attributes Demo.splrep Demo.splev
           Demo.Waypoint_distance_to Demo.knots_to_feet_per_second Demo.clock
           (Some (Demo.time 0 0 7)) (mk_state Demo.obstacle 0)).
Defined.

Lemma get_waypoint_times_ordered_witness :
  exists tt pt,
    demo_travel_times Demo.obstacle Demo.there_and_back = Ok tt /\
    get_waypoint_times tt = Ok pt /\
    length pt = 4%nat /\
    pt !! 0%nat = Some fzero /\
    forall i, (i < 3)%nat ->
      exists a b,
        pt !! i = Some a /\ pt !! S i = Some b /\
        fle fzero a = true /\ fle a b = true.
Proof.
  apply (get_waypoint_times_ordered Demo.Waypoint_distance_to
           Demo.knots_to_feet_per_second Demo_knots_nonzero
           Demo_distance_nonneg Demo_distance_zero_iff Demo_knots_positive
           exact_rnd_monotone exact_rnd_zero exact_rnd_idempotent
           Demo.obstacle Demo.there_and_back).
  - simpl. lia.
  - vm_compute. reflexivity.
Defined.

Lemma get_waypoint_times_closed_circuit_witness :
  exists tt pt T,
    demo_travel_times Demo.obstacle Demo.there_and_back = Ok tt /\
    get_waypoint_times tt = Ok pt /\
    fle fzero T = true /\
    pt !! 2%nat = Some T /\
    pt !! 3%nat = Some T.
Proof.
  apply (get_waypoint_times_closed_circuit Demo.Waypoint_distance_to
           Demo.knots_to_feet_per_second Demo_knots_nonzero
           Demo_distance_nonneg Demo_distance_zero_iff Demo_knots_positive
           exact_rnd_monotone exact_rnd_zero exact_rnd_idempotent
           Demo.obstacle Demo.there_and_back
           (Demo.wp 1 2 3 0) (Demo.wp 1 2 3 2)).
  - simpl. lia.
  - vm_compute. reflexivity.
  - reflexivity.
  - reflexivity.
  - reflexivity.
Defined.

Lemma get_inter_waypoint_travel_times_nan_witness :
  demo_travel_times Demo.single [Demo.wp 1 2 3 0] = Ok [fzero; NaN].
Proof.
  apply (get_inter_waypoint_travel_times_nan Demo.Waypoint_distance_to
           Demo.knots_to_feet_per_second Demo.single [Demo.wp 1 2 3 0]).
  right. simpl. lia.
Defined.

Lemma get_waypoint_times_nan_witness :
  exists r,
    get_waypoint_times [fzero; NaN; Fin 1%Qc] = Ok r /\
    length r = 3%nat /\
    forall i j, [fzero; NaN; Fin 1%Qc] !! i = Some NaN ->
      (i <= j < 3)%nat -> r !! j = Some NaN.
Proof.
  apply (get_waypoint_times_nan [fzero; NaN; Fin 1%Qc]).
Defined.

Lemma evaluate_collision_with_uas_centre_witness :
  (demo_evaluate
     [mk_telemetry (Demo.time 0 0 1) (Demo.at_ 1 2 3)]
     (mk_state Demo.single 0)).1 = Ok true.
Proof.
  apply (evaluate_collision_with_uas_centre Demo.splrep Demo.splev
           Demo.Waypoint_distance_to Demo.distance_to
           Demo.knots_to_feet_per_second Demo.interpolate Demo.clock
           (mk_state Demo.single 0)
           [mk_telemetry (Demo.time 0 0 1) (Demo.at_ 1 2 3)]
           (mk_telemetry (Demo.time 0 0 1) (Demo.at_ 1 2 3))
           (Qc_of_Z 1) (Qc_of_Z 2) (Qc_of_Z 3) Demo_distance_to_self).
  - apply coherent_fresh.
  - apply list_elem_of_singleton. reflexivity.
  - vm_compute. reflexivity.
  - reflexivity.
  - vm_compute. reflexivity.
Defined.

Lemma evaluate_collision_with_uas_radius_witness :
  (demo_evaluate [Demo.far_log]
     (mk_state (fresh Demo.two_wps (Fin 1%Qc) (Fin (Qc_of_Z 2))) 0)).1
  = Ok true.
Proof.
  apply (evaluate_collision_with_uas_radius Demo.splrep Demo.splev
           Demo.Waypoint_distance_to Demo.distance_to
           Demo.knots_to_feet_per_second Demo.interpolate Demo.clock
           (mk_state Demo.wide_obstacle 0)
           (mk_state (fresh Demo.two_wps (Fin 1%Qc) (Fin (Qc_of_Z 2))) 0)
           [Demo.far_log]).
  - split; [apply coherent_fresh |]. split; [apply coherent_fresh |].
    split; reflexivity.
  - vm_compute. reflexivity.
  - vm_compute. reflexivity.
Defined.

Lemma evaluate_collision_loop_stops_witness :
  demo_loop ([] ++ Demo.far_log :: [mk_telemetry (Demo.time 0 0 2) (Demo.at_ 1 2 3)])
    (mk_state Demo.wide_obstacle 0)
  = demo_loop ([] ++ [Demo.far_log]) (mk_state Demo.wide_obstacle 0).
Proof.
  apply (evaluate_collision_loop_stops Demo.splrep Demo.splev
           Demo.Waypoint_distance_to Demo.distance_to
           Demo.knots_to_feet_per_second Demo.clock
           (mk_state Demo.wide_obstacle 0) []
           [mk_telemetry (Demo.time 0 0 2) (Demo.at_ 1 2 3)] Demo.far_log).
  - apply coherent_fresh.
  - vm_compute. reflexivity.
Defined.

Lemma evaluate_collision_loop_app_witness :
  (demo_loop ([mk_telemetry (Demo.time 0 0 2) (Demo.at_ 7 7 7)] ++ [Demo.far_log])
     (mk_state Demo.wide_obstacle 0)).1 =
  match (demo_loop [mk_telemetry (Demo.time 0 0 2) (Demo.at_ 7 7 7)]
           (mk_state Demo.wide_obstacle 0)).1 with
  | Ok false => (demo_loop [Demo.far_log] (mk_state Demo.wide_obstacle 0)).1
  | r => r
  end.
Proof.
  apply (evaluate_collision_loop_app Demo.splrep Demo.splev
           Demo.Waypoint_distance_to Demo.distance_to
           Demo.knots_to_feet_per_second Demo.clock
           (mk_state Demo.wide_obstacle 0)
           [mk_telemetry (Demo.time 0 0 2) (Demo.at_ 7 7 7)] [Demo.far_log]).
  apply coherent_fresh.
Defined.

Lemma json_position_witness :
  (demo_json (Some (Demo.time 0 0 1)) (mk_state Demo.obstacle 0)).2 =
  (demo_get_position (Some (Demo.time 0 0 1)) (mk_state Demo.obstacle 0)).2 /\
  match (demo_get_position (Some (Demo.time 0 0 1))
           (mk_state Demo.obstacle 0)).1 with
  | Ok (lat, lon, alt) =>
      exists d : gmap string pyfloat,
        (demo_json (Some (Demo.time 0 0 1)) (mk_state Demo.obstacle 0)).1
          = Ok d /\
        dom d = ({["latitude"; "longitude"; "altitude_msl"; "sphere_radius"]}
                 : gset string) /\
        d !! "latitude" = Some lat /\
        d !! "longitude" = Some lon /\
        d !! "altitude_msl" = Some alt /\
        d !! "sphere_radius" =
          Some (sphere_radius (obj (mk_state Demo.obstacle 0)))
  | Raise e =>
      (demo_json (Some (Demo.time 0 0 1)) (mk_state Demo.obstacle 0)).1
        = Raise e
  end.
Proof.
  apply (json_position Demo.splrep Demo.splev Demo.Waypoint_distance_to
           Demo.knots_to_feet_per_second Demo.clock
           (Some (Demo.time 0 0 1)) (mk_state Demo.obstacle 0)).
Defined.

Lemma get_position_instant_witness :
  (demo_get_position (Some (mk_datetime 1970 1 1 1 0 7 0 3600))
     (mk_state Demo.obstacle 0)).1 =
  (demo_get_position (Some (Demo.time 0 0 7)) (mk_state Demo.obstacle 0)).1.
Proof.
  apply (get_position_instant Demo.splrep Demo.splev
           Demo.Waypoint_distance_to Demo.knots_to_feet_per_second Demo.clock
           (mk_state Demo.obstacle 0)
           (mk_datetime 1970 1 1 1 0 7 0 3600) (Demo.time 0 0 7)).
  reflexivity.
Defined.

Lemma get_position_single_place_witness :
  (demo_get_position (Some (Demo.time 0 0 7))
     (mk_state (fresh [Demo.wp 1 2 3 0; Demo.wp 1 2 3 1] (Fin 1%Qc)
                  (Fin 1%Qc)) 0)).1 =
  Ok (latitude (gps_position (Demo.at_ 1 2 3)),
      longitude (gps_position (Demo.at_ 1 2 3)),
      altitude_msl (Demo.at_ 1 2 3)).
Proof.
  apply (get_position_single_place Demo.splrep Demo.splev
           Demo.Waypoint_distance_to Demo.knots_to_feet_per_second Demo.clock
           (mk_state (fresh [Demo.wp 1 2 3 0; Demo.wp 1 2 3 1] (Fin 1%Qc)
                        (Fin 1%Qc)) 0)
           (Some (Demo.time 0 0 7)) (Demo.at_ 1 2 3)
           Demo_distance_same_position).
  - apply coherent_fresh.
  - discriminate.
  - repeat constructor.
Defined.

Lemma kml_track_data_period_witness :
  exists coords when,
    (demo_kml_track_data 5 [Demo.quarter_second] (mk_state Demo.obstacle 0)).1
      = Ok (Some (coords, when)) /\
    length coords = 3%nat /\ length when = 3%nat /\
    forall k, (k < 3)%nat ->
      exists t lat lon alt,
        sample_times Demo.datetime_add (start Demo.quarter_second) 100000 3 !! k
          = Some t /\
        datetime_sub t (start Demo.quarter_second) = Z.of_nat k * 100000 /\
        datetime_lt t (end_ Demo.quarter_second) = true /\
        (demo_get_position (Some t) (mk_state Demo.obstacle 0)).1
          = Ok (lat, lon, alt) /\
        coords !! k = Some (lon, lat, Demo.feet_to_meters alt) /\
        when !! k = Some (Demo.strftime t).
Proof.
  apply (kml_track_data_period Demo.splrep Demo.splev
           Demo.Waypoint_distance_to Demo.knots_to_feet_per_second Demo.clock
           Demo.feet_to_meters Demo.datetime_add Demo.strftime
           Demo_datetime_add_sub
           (mk_state Demo.obstacle 0) Demo.quarter_second 5).
  - apply coherent_fresh.
  - apply Demo_obstacle_positions.
  - vm_compute. lia.
Defined.

Lemma kml_track_data_app_witness :
  (demo_kml_track_data 5 ([Demo.quarter_second] ++ [Demo.quarter_second])
     (mk_state Demo.obstacle 0)).1 =
  match (demo_kml_track_data 5 [Demo.quarter_second]
           (mk_state Demo.obstacle 0)).1 with
  | Ok (Some d1) =>
      kml_prepend d1
        (demo_kml_track_data 5 [Demo.quarter_second] (mk_state Demo.obstacle 0)).1
  | Ok None => Ok None
  | Raise e => Raise e
  end.
Proof.
  apply (kml_track_data_app Demo.splrep Demo.splev
           Demo.Waypoint_distance_to Demo.knots_to_feet_per_second Demo.clock
           Demo.feet_to_meters Demo.datetime_add Demo.strftime
           (mk_state Demo.obstacle 0)
           [Demo.quarter_second] [Demo.quarter_second] 5).
  apply coherent_fresh.
Defined.

Lemma live_kml_coords_samples_witness :
  exists coords,
    (demo_live_kml_coords 5 250000 100 (mk_state Demo.obstacle 0)).1
      = Ok (Some coords) /\
    length coords = 3%nat /\
    forall k, (k < 3)%nat ->
      exists t lat lon alt,
        sample_times Demo.datetime_add (in_utc (Demo.clock 0)) (- 100000) 3
          !! k = Some t /\
        datetime_sub (in_utc (Demo.clock 0)) t = Z.of_nat k * 100000 /\
        Z.of_nat k * 100000 <= 250000 /\
        (demo_get_position (Some t) (mk_state Demo.obstacle 0)).1
          = Ok (lat, lon, alt) /\
        coords !! k = Some (lon, lat, Demo.feet_to_meters alt).
Proof.
  apply (live_kml_coords_samples Demo.splrep Demo.splev
           Demo.Waypoint_distance_to Demo.knots_to_feet_per_second Demo.clock
           Demo.feet_to_meters Demo.datetime_add
           Demo_datetime_add_sub
           (mk_state Demo.obstacle 0) 250000 100 5).
  - apply coherent_fresh.
  - apply Demo_obstacle_positions.
  - lia.
  - vm_compute. lia.
Defined.

Lemma live_kml_coords_zero_resolution_witness :
  (demo_live_kml_coords 7 250000 0 (mk_state Demo.obstacle 0)).1 = Ok None.
Proof.
  apply (live_kml_coords_zero_resolution Demo.splrep Demo.splev
           Demo.Waypoint_distance_to Demo.knots_to_feet_per_second Demo.clock
           Demo.feet_to_meters Demo.datetime_add
           Demo_datetime_add_sub
           (mk_state Demo.obstacle 0) 250000 7).
  - apply coherent_fresh.
  - apply Demo_obstacle_positions.
  - lia.
Defined.

End ExactArithmetic.

(** ** The theorems at work, in binary64 *)

Section Binary64.

#[local] Existing Instance binary64.

Local Abbreviation float_get_position :=
  (get_position Demo.splrep Demo.splev Demo.Waypoint_distance_to
     Demo.knots_to_feet_per_second Demo.clock).

Local Abbreviation float_evaluate :=
  (evaluate_collision_with_uas Demo.splrep Demo.splev
     Demo.Waypoint_distance_to Demo.distance_to
     Demo.knots_to_feet_per_second Demo.interpolate Demo.clock).

Local Abbreviation float_loop :=
  (evaluate_collision_loop Demo.splrep Demo.splev Demo.Waypoint_distance_to
     Demo.distance_to Demo.knots_to_feet_per_second Demo.clock).

Local Abbreviation float_travel_times :=
  (get_inter_waypoint_travel_times Demo.Waypoint_distance_to
     Demo.knots_to_feet_per_second).

Local Abbreviation float_spline_curve :=
  (get_spline_curve Demo.splrep Demo.Waypoint_distance_to
     Demo.knots_to_feet_per_second).

(** 0.8 s and 0.3 s after the epoch are one period of 0.5 s apart, and
    their reduced times are 0.30000000000000004 and 0.3. *)
Example np_mod_half_second :
  np_mod (total_seconds 800000) (Fin (Q2Qc (1 # 2)))
    = Fin (Q2Qc (1351079888211149 # 4503599627370496)) /\
  np_mod (total_seconds 300000) (Fin (Q2Qc (1 # 2)))
    = Fin (Q2Qc (5404319552844595 # 18014398509481984)).
Proof.
  split; vm_compute; floats.
Qed.

(** A microsecond before the epoch, with a period of 2^35 seconds, the
    reduced time is the period itself: the addition that brings the
    remainder to the sign of the period rounds. *)
Example np_mod_before_the_epoch :
  np_mod (total_seconds (-1)) (Fin (Qc_of_Z (2 ^ 35)))
    = Fin (Qc_of_Z (2 ^ 35)).
Proof. vm_compute. floats. Qed.

(** 1e17 + 1.0 is 1e17: a sum can absorb a term that is not zero. *)
Example fadd_absorbs :
  fadd (Fin (Qc_of_Z (10 ^ 17))) (Fin 1%Qc) = Fin (Qc_of_Z (10 ^ 17)).
Proof. vm_compute. floats. Qed.

(** At the largest finite speed the conversion overflows to an infinite
    number of feet per second, every leg takes 0.0 seconds, and the fit
    refuses the arrival times. *)
Example get_inter_waypoint_travel_times_fastest :
  float_travel_times Demo.fastest [Demo.wp 0 0 0 0; Demo.wp 4 5 6 1]
    = Ok [fzero; fzero; fzero] /\
  (float_get_position (Some (Demo.time 0 0 1)) (mk_state Demo.fastest 0)).1
    = Raise ValueError.
Proof. split; vm_compute; reflexivity. Qed.




(** The arrival times of legs of 0.1 and 0.2 seconds: the last one is
    0.30000000000000004. *)
Example get_waypoint_times_tenths :
  get_waypoint_times
    [fzero; Fin (Q2Qc (3602879701896397 # 36028797018963968));
     Fin (Q2Qc (3602879701896397 # 18014398509481984))]
  = Ok [fzero; Fin (Q2Qc (3602879701896397 # 36028797018963968));
        Fin (Q2Qc (1351079888211149 # 4503599627370496))].
Proof.
  vm_compute. floats.
Qed.

Lemma get_waypoint_times_cumulative_witness :
  exists r,
    get_waypoint_times
      [fzero; Fin (Q2Qc (3602879701896397 # 36028797018963968));
       Fin (Q2Qc (3602879701896397 # 18014398509481984))] = Ok r /\
    length r = 3%nat /\
    (forall j, (j <= 2)%nat ->
       r !! j =
         Some (cumulative_sum
                 (take (S j)
                    [fzero; Fin (Q2Qc (3602879701896397 # 36028797018963968));
                     Fin (Q2Qc (3602879701896397 # 18014398509481984))]))) /\
    (forall i j x y, (i <= j)%nat ->
       r !! i = Some x -> r !! j = Some y -> fle x y = true) /\
    r !! 0%nat = Some fzero /\
    r !! 2%nat =
      Some (cumulative_sum
              [fzero; Fin (Q2Qc (3602879701896397 # 36028797018963968));
               Fin (Q2Qc (3602879701896397 # 18014398509481984))]).
Proof.
  apply (get_waypoint_times_cumulative
           binary64_monotone binary64_zero binary64_idempotent
           [fzero; Fin (Q2Qc (3602879701896397 # 36028797018963968));
            Fin (Q2Qc (3602879701896397 # 18014398509481984))] 2).
  - reflexivity.
  - repeat constructor.
  - reflexivity.
Defined.




End Binary64.
